(** * Outcome engines of the aviiator demo platform, embedded in Rocq

    The development follows the JavaScript sources
    [backend/game/engine.js] (crash engine), [backend/game/colorEngine.js]
    (colour engine), [backend/game/rounds.js] (round life cycle) and
    [backend/game/index.js] (game controller).

    JavaScript numbers are IEEE-754 binary64 values.  They are modelled by
    [spec_float] with the binary64 parameters, so that every arithmetic
    operation of the sources rounds exactly as it does in the engine, and
    so that [NaN], signed zeros and infinities behave as they do there. *)

From Stdlib Require Import ZArith QArith Qpower Lqa List String Ascii Bool Lia Floats
  DecimalString.
Import ListNotations.

Set Warnings "-inexact-float".

Open Scope Z_scope.

(** ** JavaScript numbers *)

Module JS.

Definition num : Type := spec_float.

(** A numeric literal of the source text: the nearest binary64 value. *)
Definition lit (f : float) : num := Prim2SF f.

Definition NaN : num := S754_nan.
Definition Infinity : num := S754_infinity false.

Definition add : num -> num -> num := SFadd prec emax.
Definition sub : num -> num -> num := SFsub prec emax.
Definition mul : num -> num -> num := SFmul prec emax.
Definition div : num -> num -> num := SFdiv prec emax.
Definition neg : num -> num := SFopp.

(** Relational operators; each is [false] as soon as an operand is [NaN]. *)
Definition lt (x y : num) : bool := SFltb x y.
Definition le (x y : num) : bool := SFleb x y.
Definition gt (x y : num) : bool := SFltb y x.
Definition ge (x y : num) : bool := SFleb y x.

(** An integer as a number (rounded to nearest even beyond 2^53). *)
Definition of_Z (z : Z) : num := binary_normalize prec emax z 0 false.

(** Truthiness of a number: [0], [-0] and [NaN] are falsy. *)
Definition truthy (x : num) : bool :=
  match x with
  | S754_zero _ | S754_nan => false
  | _ => true
  end.

(** [a || b] on numbers. *)
Definition or_else (a b : num) : num := if truthy a then a else b.

(** [Math.max] and [Math.min] of two numbers: [NaN] is contagious and
    [-0] is below [+0]. *)
Definition Math_max (a b : num) : num :=
  match SFcompare a b with
  | None => NaN
  | Some Lt => b
  | Some Gt => a
  | Some Eq => match a with S754_zero true => b | _ => a end
  end.

Definition Math_min (a b : num) : num :=
  match SFcompare a b with
  | None => NaN
  | Some Lt => a
  | Some Gt => b
  | Some Eq => match a with S754_zero true => a | _ => b end
  end.

Definition Math_abs (x : num) : num := SFabs x.

Definition Math_sqrt (x : num) : num := SFsqrt prec emax x.

(** [Math.PI]. *)
Definition Math_PI : num := lit 3.141592653589793.

(** [Math.floor]. *)
Definition Math_floor (x : num) : num :=
  match x with
  | S754_finite s m e =>
      if 0 <=? e then x
      else of_Z (Z.div (if s then Zneg m else Zpos m) (2 ^ (- e)))
  | _ => x
  end.

(** [Math.round]: nearest integer, ties towards +Infinity; a result of
    zero keeps the sign of the argument. *)
Definition Math_round (x : num) : num :=
  match x with
  | S754_finite s m e =>
      if 0 <=? e then x
      else
        let q := Z.div (2 * (if s then Zneg m else Zpos m) + 2 ^ (- e)) (2 ^ (- e + 1)) in
        if q =? 0 then S754_zero s else of_Z q
  | _ => x
  end.

(** [parseFloat(x.toFixed(digits))] for [0 <= digits].  [toFixed] prints
    the decimal [n / 10^digits] closest to the exact value of [x] (the
    larger [n] on a tie, taken on the absolute value), [parseFloat] reads
    it back as the nearest number.  Values of magnitude at least [1e21]
    and non-finite ones are printed in full and read back unchanged. *)
Definition toFixed (x : num) (digits : Z) : num :=
  match x with
  | S754_nan => NaN
  | S754_infinity s => x
  | S754_zero _ => S754_zero false
  | S754_finite s m e =>
      if le (lit 1e21) (SFabs x) then x
      else
        let n :=
          if 0 <=? e then Zpos m * 2 ^ e * 10 ^ digits
          else Z.div (2 * Zpos m * 10 ^ digits + 2 ^ (- e)) (2 ^ (- e + 1)) in
        match n with
        | Zpos p => div (S754_finite s p 0) (S754_finite false (Z.to_pos (10 ^ digits)) 0)
        | _ => S754_zero s
        end
  end.

(** The integer part of a number ([0] for [NaN] and the infinities). *)
Definition truncate (x : num) : Z :=
  match x with
  | S754_finite s m e =>
      let t := if 0 <=? e then Zpos m * 2 ^ e else Zpos m / 2 ^ (- e) in
      if s then - t else t
  | _ => 0
  end.

(** [ToInt32]: truncate, then wrap into the signed 32-bit range. *)
Definition wrap32 (z : Z) : Z := (z + 2 ^ 31) mod 2 ^ 32 - 2 ^ 31.

Definition ToInt32 (x : num) : Z := wrap32 (truncate x).

(** The remainder operator [x % y] on numbers: exact, with the sign of the
    dividend. *)
Definition rem (x y : num) : num :=
  match x, y with
  | S754_nan, _ | _, S754_nan => NaN
  | S754_infinity _, _ => NaN
  | _, S754_zero _ => NaN
  | _, S754_infinity _ => x
  | S754_zero _, _ => x
  | S754_finite sx mx ex, S754_finite _ my ey =>
      let e := Z.min ex ey in
      let r := (Zpos mx * 2 ^ (ex - e)) mod (Zpos my * 2 ^ (ey - e)) in
      binary_normalize prec emax (if sx then - r else r) e sx
  end.

(** Reading [array[index]] with a number as index: defined at the
    integers [0 .. length-1] (and at [-0]), [undefined] elsewhere. *)
Definition array_get {A : Type} (l : list A) (index : num) : option A :=
  match index with
  | S754_zero _ => nth_error l 0
  | S754_finite false m e =>
      if 0 <=? e then nth_error l (Z.to_nat (Zpos m * 2 ^ e))
      else if (Zpos m mod 2 ^ (- e)) =? 0
           then nth_error l (Z.to_nat (Zpos m / 2 ^ (- e)))
           else None
  | _ => None
  end.

End JS.

Declare Scope js_scope.
Delimit Scope js_scope with js.
Infix "+" := JS.add : js_scope.
Infix "-" := JS.sub : js_scope.
Infix "*" := JS.mul : js_scope.
Infix "/" := JS.div : js_scope.
Infix "mod" := JS.rem : js_scope.
Infix "<?" := JS.lt : js_scope.
Infix "<=?" := JS.le : js_scope.
Infix ">?" := JS.gt (at level 70) : js_scope.
Infix ">=?" := JS.ge (at level 70) : js_scope.
Notation "- x" := (JS.neg x) : js_scope.

Import JS.

(** ** Control effects of the sources *)

(** A call either returns a value or throws an [Error] with a message. *)
Inductive result (A : Type) : Type :=
| Ok (a : A)
| Throw (message : string).
Arguments Ok {A} a.
Arguments Throw {A} message.

(** The generator returned by [createDeterministicPRNG] is a closure over
    one mutable number, [currentSeed].  A computation that draws from it
    is a function of that number, returning the new one with its value. *)
Definition Rand (A : Type) : Type := num -> A * num.

Definition ret {A : Type} (a : A) : Rand A := fun s => (a, s).

Definition bind {A B : Type} (c : Rand A) (k : A -> Rand B) : Rand B :=
  fun s => let '(a, s') := c s in k a s'.

Notation "x <- c ;; k" := (bind c (fun x => k))
  (at level 61, c at next level, right associativity).

(** The clock: [Date.now()], in milliseconds. *)
Definition Clock : Type := Z.

Definition Date_now_toString (now : Clock) : string :=
  NilZero.string_of_int (Z.to_int now).

(** A template literal prints a number that is a non-negative integer
    below [1e21] with its decimal digits. *)
Definition Nat_toString (i : nat) : string :=
  NilZero.string_of_uint (Nat.to_uint i).

Definition integerToString (x : num) : string :=
  NilZero.string_of_int (Z.to_int (truncate x)).

(** ** engine.js: the crash engine *)

Module Engine.

(** [ENGINE_CONFIG]. *)
Definition SEED : num := lit 0xABCD1234.
Definition MIN_MULTIPLIER : num := lit 1.0.
Definition DEFAULT_LOSS_BIAS : num := lit 0.8.
Definition MAX_GAME_DURATION : num := lit 60000.
Definition LOSS_ROUND_MIN_CRASH : num := lit 1.1.
Definition LOSS_ROUND_MAX_CRASH : num := lit 2.0.
Definition LOSS_ROUND_MEAN : num := lit 1.3.
Definition LOSS_ROUND_STD_DEV : num := lit 0.2.
Definition WIN_ROUND_MIN_WIN : num := lit 2.0.
Definition WIN_ROUND_DEFAULT_MAX_WIN : num := lit 100.0.

(** [createDeterministicPRNG]: the constants, the initial [currentSeed]
    and one call of the returned function. *)
Definition MODULUS : num := lit 2147483648.
Definition MULTIPLIER : num := lit 1103515245.
Definition INCREMENT : num := lit 12345.

Definition createDeterministicPRNG (seed : num) : num := seed.

Definition prng : Rand num := fun currentSeed =>
  let currentSeed' := ((MULTIPLIER * currentSeed + INCREMENT) mod MODULUS)%js in
  ((currentSeed' / MODULUS)%js, currentSeed').

(** [hashString]: the value of [hash] is a signed 32-bit integer after
    every round of the loop.  A string is the list of its code units, here
    the units below 256. *)
Definition charCode (c : ascii) : Z := Z.of_nat (nat_of_ascii c).

Fixpoint hashString_from (hash : Z) (str : string) : Z :=
  match str with
  | EmptyString => hash
  | String c rest =>
      let hash1 := wrap32 (hash * 2 ^ 5) - hash + charCode c in
      hashString_from (wrap32 hash1) rest
  end.

Definition hashString (str : string) : Z := Z.abs (hashString_from 0 str).

(** [baseSeed ^ seedHash]: both operands go through [ToInt32]. *)
Definition xor32 (a b : num) : Z := Z.lxor (ToInt32 a) (ToInt32 b).

Record CurvePoint : Type := mkPoint { time : num; multiplier : num }.

Record Options : Type := mkOptions {
  opt_lossBias : option num;
  opt_maxWinMultiplier : option num;
  opt_roundId : option string;
  opt_customSeed : option num
}.

Record Metadata : Type := mkMetadata {
  meta_lossBias : num;
  meta_maxWinMultiplier : num;
  meta_roundId : string
}.

Record GameResult : Type := mkGameResult {
  crashMultiplier : num;
  roundType : string;
  isLossRound : bool;
  gameDuration : num;
  crashCurve : list CurvePoint;
  seed : Z;
  generatedAt : Clock;
  metadata : Metadata
}.

Section WithMath.

(** [Math.log], [Math.exp] and [Math.cos] are supplied by the host; the
    language leaves their precision to the implementation. *)
Variables Math_log Math_exp Math_cos : num -> num.

Definition generateNormalDistribution : Rand num :=
  r1 <- prng ;;
  let u1 := (lit 1 - r1)%js in
  u2 <- prng ;;
  let z0 := (Math_sqrt (lit (-2.0) * Math_log u1)
             * Math_cos (lit 2.0 * Math_PI * u2))%js in
  ret z0.

Definition generateLossMultiplier : Rand num :=
  normalValue <- generateNormalDistribution ;;
  let multiplier := (LOSS_ROUND_MEAN + normalValue * LOSS_ROUND_STD_DEV)%js in
  let multiplier := Math_max multiplier LOSS_ROUND_MIN_CRASH in
  let multiplier := Math_min multiplier LOSS_ROUND_MAX_CRASH in
  ret multiplier.

Definition generateWinMultiplier (maxWinMultiplier : num) : Rand num :=
  let minWin := WIN_ROUND_MIN_WIN in
  randomValue <- prng ;;
  let exponentialFactor := Math_log (maxWinMultiplier / minWin)%js in
  let multiplier := (minWin * Math_exp (randomValue * exponentialFactor))%js in
  ret (Math_min multiplier maxWinMultiplier).

Definition points : nat := 100.

(** The value a curve sample has before it is printed with four
    decimals: the body of the loop of [generateCrashCurve] for index [i],
    [curve] being the samples pushed so far and [base] the sample after
    the fluctuation step. *)
Definition clampSample (crashMultiplier : num) (curve : list CurvePoint)
  (i : nat) (base : num) : num :=
  let m :=
    if (0 <? i)%nat then
      match nth_error curve (i - 1) with
      | Some prev => Math_max base (multiplier prev * lit 0.999)%js
      | None => base
      end
    else base in
  Math_min m crashMultiplier.

Definition fluctuate (i : nat) (m : num) : Rand num :=
  if ((10 <? i)%nat && (i <? points - 10)%nat)%bool then
    r <- prng ;;
    let fluctuation := ((r - lit 0.5) * lit 0.02 * m)%js in
    ret (m + fluctuation)%js
  else ret m.

Definition curveStep (crashMultiplier duration growthFactor : num)
  (curve : list CurvePoint) (i : nat) : Rand (list CurvePoint) :=
  let progress := (of_Z (Z.of_nat i) / of_Z (Z.of_nat (points - 1)))%js in
  let time := (duration * progress)%js in
  base <- fluctuate i (Math_exp (growthFactor * of_Z (Z.of_nat i))%js) ;;
  let m := clampSample crashMultiplier curve i base in
  ret (curve ++ [mkPoint (Math_round time) (toFixed m 4)]).

Fixpoint curveLoop (crashMultiplier duration growthFactor : num)
  (indices : list nat) (curve : list CurvePoint) : Rand (list CurvePoint) :=
  match indices with
  | [] => ret curve
  | i :: rest =>
      curve' <- curveStep crashMultiplier duration growthFactor curve i ;;
      curveLoop crashMultiplier duration growthFactor rest curve'
  end.

(** [curve[curve.length - 1].multiplier = crashMultiplier]. *)
Definition pinLast (curve : list CurvePoint) (crashMultiplier : num)
  : list CurvePoint :=
  match rev curve with
  | [] => curve
  | p :: before => rev before ++ [mkPoint (time p) crashMultiplier]
  end.

Definition generateCrashCurve (crashMultiplier duration : num)
  : Rand (list CurvePoint) :=
  let growthFactor :=
    (Math_log crashMultiplier / of_Z (Z.of_nat (points - 1)))%js in
  curve <- curveLoop crashMultiplier duration growthFactor (seq 0 points) [] ;;
  ret (pinLast curve crashMultiplier).

Definition calculateGameDuration (m : num) : num :=
  let baseDuration := (Math_log m * lit 5000)%js in
  let duration :=
    Math_min (baseDuration * (lit 0.8 + Math_log (m + lit 1) * lit 0.2))%js
             MAX_GAME_DURATION in
  Math_round duration.

(** The multiplier before it is printed with four decimals, with the
    category of the round and the generator state after the draw. *)
Definition drawOutcome (lossBias maxWinMultiplier : num) (finalSeed : Z)
  : (bool * num) * num :=
  (r <- prng ;;
   let isLossRound := (r <? lossBias)%js in
   m <- (if isLossRound then generateLossMultiplier
         else generateWinMultiplier maxWinMultiplier) ;;
   ret (isLossRound, m)) (createDeterministicPRNG (of_Z finalSeed)).

Definition finalSeedOf (roundId : string) (customSeed : option num) : Z :=
  let seedHash := hashString roundId in
  let baseSeed := match customSeed with Some c => c | None => SEED end in
  xor32 baseSeed (of_Z seedHash).

(** The destructuring of [options], with its defaults. *)
Definition lossBiasOf (options : Options) : num :=
  match opt_lossBias options with Some b => b | None => DEFAULT_LOSS_BIAS end.

Definition maxWinMultiplierOf (options : Options) : num :=
  match opt_maxWinMultiplier options with
  | Some m => m
  | None => WIN_ROUND_DEFAULT_MAX_WIN
  end.

Definition roundIdOf (now : Clock) (options : Options) : string :=
  match opt_roundId options with
  | Some r => r
  | None => Date_now_toString now
  end.

(** The draw of a call: the category of the round, the multiplier before
    it is printed with four decimals, and the state of the generator when
    the curve is built. *)
Definition outcomeOf (now : Clock) (options : Options) : (bool * num) * num :=
  drawOutcome (lossBiasOf options) (maxWinMultiplierOf options)
    (finalSeedOf (roundIdOf now options) (opt_customSeed options)).

Definition rawMultiplier (now : Clock) (options : Options) : num :=
  snd (fst (outcomeOf now options)).

Definition generateCrashMultiplier (now : Clock) (options : Options)
  : result GameResult :=
  let lossBias := lossBiasOf options in
  let maxWinMultiplier := maxWinMultiplierOf options in
  let roundId := roundIdOf now options in
  if ((lossBias <? lit 0) || (lossBias >? lit 1))%js%bool then
    Throw "lossBias must be between 0 and 1"
  else if (maxWinMultiplier <? MIN_MULTIPLIER)%js then
    Throw "maxWinMultiplier must be at least 1"
  else
    let finalSeed := finalSeedOf roundId (opt_customSeed options) in
    let '((isLossRound, raw), s) :=
      drawOutcome lossBias maxWinMultiplier finalSeed in
    let roundType := if isLossRound then "loss"%string else "win"%string in
    let gameDuration := calculateGameDuration raw in
    let '(crashCurve, _) := generateCrashCurve raw gameDuration s in
    Ok {| crashMultiplier := toFixed raw 4;
          roundType := roundType;
          isLossRound := isLossRound;
          gameDuration := gameDuration;
          crashCurve := crashCurve;
          seed := finalSeed;
          generatedAt := now;
          metadata := mkMetadata lossBias maxWinMultiplier roundId |}.

End WithMath.

(** [validateCashout]; the defaults of the two last parameters are
    [100] and [10000]. *)
Definition validateCashout (cashoutMultiplier crashMultiplier : num)
  (cashoutDelay gameDuration : num) : bool :=
  if (cashoutMultiplier >=? crashMultiplier)%js then false
  else
    let cashoutTime := (cashoutMultiplier / crashMultiplier * gameDuration)%js in
    let effectiveCashoutTime := (cashoutTime + cashoutDelay)%js in
    let crashTime := gameDuration in
    (effectiveCashoutTime <? crashTime)%js.

Definition calculateProfit (betAmount cashoutMultiplier : num) : num :=
  let payout := (betAmount * cashoutMultiplier)%js in
  let profit := (payout - betAmount)%js in
  toFixed profit 2.


(** How often the body of [for (let i = 0; i < count; i++)] runs when
    nothing leaves the loop early; [None] when the loop has no last round
    (the counter stops growing at [2^53]). *)
Definition trips (count : num) : option nat :=
  match count with
  | S754_finite false m e =>
      if (count <=? lit 9007199254740992)%js
      then Some (Z.to_nat (if 0 <=? e then Zpos m * 2 ^ e
                           else (Zpos m + 2 ^ (- e) - 1) / 2 ^ (- e)))
      else None
  | S754_infinity false => None
  | _ => Some 0%nat
  end.

Section Batch.

Variables Math_log Math_exp Math_cos : num -> num.

(** The clock is read for the round id and again, inside the engine, for
    the time stamp: [clock k] is its [k]-th reading during the call. *)
Variable clock : nat -> Clock.

Definition batchRoundId (i : nat) : string :=
  ("batch_" ++ Date_now_toString (clock (2 * i)%nat) ++ "_" ++ Nat_toString i)%string.

(** [{ ...options, roundId, customSeed: ENGINE_CONFIG.SEED + i }]. *)
Definition batchOptions (options : Options) (i : nat) : Options :=
  mkOptions (opt_lossBias options) (opt_maxWinMultiplier options)
    (Some (batchRoundId i)) (Some (SEED + of_Z (Z.of_nat i))%js).

Definition batchRound (options : Options) (i : nat) : result GameResult :=
  generateCrashMultiplier Math_log Math_exp Math_cos (clock (2 * i + 1)%nat)
    (batchOptions options i).

Fixpoint batchLoop (options : Options) (indices : list nat)
  (rounds : list GameResult) : result (list GameResult) :=
  match indices with
  | [] => Ok rounds
  | i :: rest =>
      match batchRound options i with
      | Throw e => Throw e
      | Ok round => batchLoop options rest (rounds ++ [round])
      end
  end.

(** [generateRoundBatch]; the outer [option] is [None] when the call does
    not return.  A loop without a last round is left only by an
    exception of the engine, which is raised in the first round or in
    none: the engine throws on [lossBias] and [maxWinMultiplier] alone,
    and they are the same in every round. *)
Definition generateRoundBatch (count : num) (options : Options)
  : option (result (list GameResult)) :=
  match trips count with
  | Some n => Some (batchLoop options (seq 0 n) [])
  | None =>
      match batchRound options 0 with
      | Throw e => Some (Throw e)
      | Ok _ => None
      end
  end.

End Batch.

End Engine.

(** ** colorEngine.js: the colour engine *)

Module ColorEngine.

(** [COLOR_GAME_CONFIG.COLOR_PROPERTIES]: the three configured colours,
    in the order of [Object.keys]. *)
Inductive Color : Type := red | green | violet.

Definition key (c : Color) : string :=
  match c with
  | red => "red"
  | green => "green"
  | violet => "violet"
  end.

Record ColorProps : Type := mkProps {
  name : string;
  payoutMultiplier : num;
  hexColor : string;
  probability : num
}.

Definition COLOR_PROPERTIES (c : Color) : ColorProps :=
  match c with
  | red => mkProps "Red" (lit 2.0) "#EF4444" (lit 0.40)
  | green => mkProps "Green" (lit 3.0) "#10B981" (lit 0.35)
  | violet => mkProps "Violet" (lit 14.0) "#8B5CF6" (lit 0.25)
  end.

Definition Object_keys : list Color := [red; green; violet].

(** [COLOR_PROPERTIES[k]] for a string [k]: [None] stands for
    [undefined], which is what the code finds for every string but the
    three keys and the names that every object inherits from
    [Object.prototype] (['constructor'], ['toString'], ...).  Those
    names are not colours of the model: what is stated of
    [calculateColorPayout] and of [generateColorTimeline] is stated for
    a winning colour that [lookup] finds. *)
Definition lookup (k : string) : option Color :=
  find (fun c => String.eqb (key c) k) Object_keys.

(** [COLOR_GAME_CONFIG.MECHANICS]. *)
Definition MIN_BET_AMOUNT : num := lit 1.
Definition MAX_BET_AMOUNT : num := lit 100000.
Definition LOSS_BIAS : num := lit 0.65.
Definition MAX_WIN_CAP : num := lit 10000.
Definition HOUSE_EDGE : num := lit 0.05.
Definition MAX_CONSECUTIVE_WINS : nat := 3.

(** [createColorPRNG] and [hashString] repeat the text of the crash
    engine. *)
Definition createColorPRNG (seed : num) : num := seed.
Definition prng : Rand num := Engine.prng.
Definition hashString : string -> Z := Engine.hashString.

Definition TypeError_name : string :=
  "Cannot read properties of undefined (reading 'name')".
Definition TypeError_payoutMultiplier : string :=
  "Cannot read properties of undefined (reading 'payoutMultiplier')".

(** The loop of [selectColorByProbability]. *)
Fixpoint selectLoop (randomValue cumulativeProbability : num)
  (colors : list Color) : option Color :=
  match colors with
  | [] => None
  | color :: rest =>
      let cumulativeProbability :=
        (cumulativeProbability + probability (COLOR_PROPERTIES color))%js in
      if (randomValue <=? cumulativeProbability)%js then Some color
      else selectLoop randomValue cumulativeProbability rest
  end.

Definition selectColorByProbability (colors : list Color)
  : Rand (option Color) :=
  randomValue <- prng ;;
  ret match selectLoop randomValue (lit 0) colors with
      | Some color => Some color
      | None => nth_error colors 0
      end.

(** [countConsecutiveWins]: the loop runs from the most recent entry
    backwards, so it is written on the reversed history. *)
Fixpoint countLeading (color : string) (newestFirst : list string) : nat :=
  match newestFirst with
  | [] => 0
  | w :: older =>
      if String.eqb w color then S (countLeading color older) else 0
  end.

Definition countConsecutiveWins (color : string) (recentWinners : list string)
  : nat :=
  countLeading color (rev recentWinners).

Definition selectWinningColor (recentWinners : list string)
  : Rand (option Color) :=
  let colors := Object_keys in
  if (MAX_CONSECUTIVE_WINS <=? List.length recentWinners)%nat then
    let lastColor := last recentWinners EmptyString in
    let streakCount := countConsecutiveWins lastColor recentWinners in
    if (MAX_CONSECUTIVE_WINS <=? streakCount)%nat then
      let otherColors :=
        filter (fun color => negb (String.eqb (key color) lastColor)) colors in
      selectColorByProbability otherColors
    else selectColorByProbability colors
  else selectColorByProbability colors.

(** [lastIndexMap.get(k)] once the history has been recorded: the last
    index at which [k] occurs, [-1] if it never does. *)
Fixpoint lastIndexFrom (index : Z) (recentWinners : list string) (k : string)
  (found : Z) : Z :=
  match recentWinners with
  | [] => found
  | w :: rest =>
      lastIndexFrom (index + 1) rest k (if String.eqb w k then index else found)
  end.

Definition lastIndex (recentWinners : list string) (c : Color) : Z :=
  lastIndexFrom 0 recentWinners (key c) (-1).

Fixpoint leastRecentLoop (recentWinners : list string) (colors : list Color)
  (leastRecentColor : Color) (smallestIndex : Z) : Color :=
  match colors with
  | [] => leastRecentColor
  | color :: rest =>
      let i := lastIndex recentWinners color in
      if i <? smallestIndex
      then leastRecentLoop recentWinners rest color i
      else leastRecentLoop recentWinners rest leastRecentColor smallestIndex
  end.

Definition findLeastRecentColor (colors : list Color)
  (recentWinners : list string) : option Color :=
  match recentWinners with
  | [] => None
  | _ =>
      match colors with
      | [] => None
      | first :: _ =>
          Some (leastRecentLoop recentWinners colors first
                  (lastIndex recentWinners first))
      end
  end.

Definition weightedColors : list Color :=
  flat_map (fun color =>
    let weight := Math_floor (payoutMultiplier (COLOR_PROPERTIES color) * lit 10)%js in
    repeat color (Z.to_nat (ToInt32 weight))) Object_keys.

Definition selectFallback : Rand (option Color) :=
  r <- prng ;;
  let randomIndex :=
    Math_floor (r * of_Z (Z.of_nat (List.length weightedColors)))%js in
  ret (array_get weightedColors randomIndex).

Definition selectLosingColor (recentWinners : list string)
  : Rand (option Color) :=
  let colors := Object_keys in
  match findLeastRecentColor colors recentWinners with
  | Some leastRecentColor =>
      r <- prng ;;
      if (r <? lit 0.7)%js then ret (Some leastRecentColor)
      else selectFallback
  | None => selectFallback
  end.

Record Options : Type := mkOptions {
  opt_roundId : option string;
  opt_lossBias : option num;
  opt_customSeed : option num;
  opt_recentWinners : option (list string)
}.

Record ColorResult : Type := mkColorResult {
  winningColor : string;
  colorName : string;
  resultHexColor : string;
  resultPayoutMultiplier : num;
  isWinRound : bool;
  isPlatformWin : bool;
  seed : Z;
  generatedAt : Clock;
  meta_roundId : string;
  meta_lossBias : num;
  meta_probability : num
}.

Section WithBaseSeed.

(** [COLOR_GAME_CONFIG.BASE_SEED] is written [0xCOLOR1234] in the source,
    which is not a number of the language; the engine is read with the
    constant left open. *)
Variable BASE_SEED : num.

Definition finalSeedOf (roundId : string) (customSeed : option num) : Z :=
  let seedHash := hashString roundId in
  let baseSeed := match customSeed with Some c => c | None => BASE_SEED end in
  Engine.xor32 baseSeed (of_Z seedHash).

Definition generateWinningColor (now : Clock) (options : Options)
  : result ColorResult :=
  let roundId :=
    match opt_roundId options with
    | Some r => r | None => Date_now_toString now end in
  let lossBias :=
    match opt_lossBias options with Some b => b | None => LOSS_BIAS end in
  let recentWinners :=
    match opt_recentWinners options with Some l => l | None => [] end in
  if ((lossBias <? lit 0) || (lossBias >? lit 1))%js%bool then
    Throw "lossBias must be between 0 and 1"
  else
    let finalSeed := finalSeedOf roundId (opt_customSeed options) in
    let '(r, s) := prng (createColorPRNG (of_Z finalSeed)) in
    let isPlatformWin := (r <? lossBias)%js in
    let '(selected, _) :=
      (if isPlatformWin then selectLosingColor recentWinners
       else selectWinningColor recentWinners) s in
    match selected with
    | None => Throw TypeError_name
    | Some color =>
        let colorProps := COLOR_PROPERTIES color in
        Ok {| winningColor := key color;
              colorName := name colorProps;
              resultHexColor := hexColor colorProps;
              resultPayoutMultiplier := payoutMultiplier colorProps;
              isWinRound := negb isPlatformWin;
              isPlatformWin := isPlatformWin;
              seed := finalSeed;
              generatedAt := now;
              meta_roundId := roundId;
              meta_lossBias := lossBias;
              meta_probability := probability colorProps |}
    end.

End WithBaseSeed.

Record BetData : Type := mkBetData { color : string; amount : num }.

Record Payout : Type := mkPayout {
  isWin : bool;
  payoutWinningColor : string;
  betColor : string;
  betAmount : num;
  payout : num;
  profit : num;
  payoutPayoutMultiplier : num;
  houseEdge : num;
  isCapped : bool
}.

(** The winner's payout before it is printed with two decimals. *)
Definition winningPayout (amount multiplier : num) : num :=
  let basePayout := (amount * multiplier)%js in
  let houseEdgeDeduction := (basePayout * HOUSE_EDGE)%js in
  let payout := (basePayout - houseEdgeDeduction)%js in
  if (payout - amount >? MAX_WIN_CAP)%js then (amount + MAX_WIN_CAP)%js
  else payout.

Definition calculateColorPayout (betData : BetData) (winningColor : string)
  : result Payout :=
  let color := color betData in
  let amount := amount betData in
  if (amount <? MIN_BET_AMOUNT)%js then
    Throw "Bet amount must be at least 1"
  else if (amount >? MAX_BET_AMOUNT)%js then
    Throw "Bet amount cannot exceed 100000"
  else
    let isWin := String.eqb color winningColor in
    match lookup winningColor with
    | None => Throw TypeError_payoutMultiplier
    | Some w =>
        let colorProps := COLOR_PROPERTIES w in
        let payout :=
          if isWin then winningPayout amount (payoutMultiplier colorProps)
          else lit 0 in
        let profit := if isWin then (payout - amount)%js else (- amount)%js in
        let payout := toFixed payout 2 in
        let profit := toFixed profit 2 in
        Ok {| isWin := isWin;
              payoutWinningColor := winningColor;
              betColor := color;
              betAmount := amount;
              payout := payout;
              profit := profit;
              payoutPayoutMultiplier := payoutMultiplier colorProps;
              houseEdge := HOUSE_EDGE;
              isCapped := SFeqb profit MAX_WIN_CAP |}
    end.

Record TimelineEntry : Type := mkEntry {
  entryTime : num;
  entryColor : string;
  entryColorName : string;
  entryHexColor : string;
  isRevealPhase : bool;
  revealProgress : num
}.

(** The colour shown at one step of [generateColorTimeline]: [None]
    stands for [undefined]. *)
Definition randomColor : Rand (option string) :=
  r <- prng ;;
  let randomIndex :=
    Math_floor (r * of_Z (Z.of_nat (List.length Object_keys)))%js in
  ret (option_map key (array_get Object_keys randomIndex)).

Definition displayColorAt (winningColor : string)
  (totalSteps revealStartStep step : num) : Rand (option string) :=
  if (step <? revealStartStep)%js then randomColor
  else
    let revealProgress :=
      ((step - revealStartStep) / (totalSteps - revealStartStep))%js in
    let winningProbability := (lit 0.3 + revealProgress * lit 0.7)%js in
    r <- prng ;;
    if (r <? winningProbability)%js then ret (Some winningColor)
    else randomColor.

Definition timelineEntry (interval totalSteps revealStartStep step : num)
  (c : Color) : TimelineEntry :=
  {| entryTime := (step * interval)%js;
     entryColor := key c;
     entryColorName := name (COLOR_PROPERTIES c);
     entryHexColor := hexColor (COLOR_PROPERTIES c);
     isRevealPhase := (step >=? revealStartStep)%js;
     revealProgress :=
       if (step >=? revealStartStep)%js
       then ((step - revealStartStep) / (totalSteps - revealStartStep))%js
       else lit 0 |}.

(** The [for] loop, over the steps still to run. *)
Fixpoint timelineLoop (winningColor : string)
  (interval totalSteps revealStartStep : num) (steps : list nat)
  (timeline : list TimelineEntry) (s : num) : result (list TimelineEntry) :=
  match steps with
  | [] => Ok timeline
  | n :: rest =>
      let step := of_Z (Z.of_nat n) in
      let '(displayColor, s') :=
        displayColorAt winningColor totalSteps revealStartStep step s in
      match match displayColor with Some k => lookup k | None => None end with
      | None => Throw TypeError_name
      | Some c =>
          timelineLoop winningColor interval totalSteps revealStartStep rest
            (timeline ++ [timelineEntry interval totalSteps revealStartStep step c])
            s'
      end
  end.

(** How often the loop [for (step = 0; step < totalSteps; step++)] runs;
    [None] when it never ends (the counter stops growing at [2^53]). *)
Definition iterations (totalSteps : num) : option nat :=
  match totalSteps with
  | S754_finite false _ _ =>
      if (totalSteps <=? lit 9007199254740992)%js
      then Some (Z.to_nat (truncate totalSteps))
      else None
  | S754_infinity false => None
  | _ => Some 0%nat
  end.

(** The last entry is overwritten with the winning colour. *)
Definition pinWinner (timeline : list TimelineEntry) (winningColor : string)
  : result (list TimelineEntry) :=
  match rev timeline with
  | [] => Ok timeline
  | e :: before =>
      match lookup winningColor with
      | None => Throw TypeError_name
      | Some w =>
          Ok (rev before ++
              [ {| entryTime := entryTime e;
                   entryColor := winningColor;
                   entryColorName := name (COLOR_PROPERTIES w);
                   entryHexColor := hexColor (COLOR_PROPERTIES w);
                   isRevealPhase := true;
                   revealProgress := lit 1 |} ])
      end
  end.

(** [generateColorTimeline]; [s] is the state of the generator passed
    in.  The outer [option] is [None] when the call does not return. *)
Definition generateColorTimeline (winningColor : string) (roundDuration : num)
  (s : num) : option (result (list TimelineEntry)) :=
  let interval := lit 200 in
  let totalSteps := Math_floor (roundDuration / interval)%js in
  let revealStartStep := Math_floor (totalSteps * lit 0.8)%js in
  match iterations totalSteps with
  | None => None
  | Some n =>
      Some match timelineLoop winningColor interval totalSteps revealStartStep
                   (seq 0 n) [] s with
           | Throw e => Throw e
           | Ok timeline => pinWinner timeline winningColor
           end
  end.


(** *** Placing a bet *)

(** [COLOR_GAME_CONFIG.COLORS[k]] for a key [k] in upper case; the names
    inherited from [Object.prototype] all have a lower-case letter. *)
Definition COLORS (k : string) : option string :=
  if String.eqb k "RED" then Some "red"%string
  else if String.eqb k "GREEN" then Some "green"%string
  else if String.eqb k "VIOLET" then Some "violet"%string
  else None.

(** [toUpperCase] and [toLowerCase] on strings of code units below 256,
    which is what a [string] holds.  The letters of the basic Latin
    alphabet are mapped as the host maps them.  Of the other units below
    256 the host maps some as well, to units that are no letters of that
    alphabet (or, for the sharp s, to ["SS"]); as no configured key holds
    such a unit (or an ['S']), a string with one of them is a key neither
    before nor after the mapping.  Strings with a unit from 256 on are
    outside the model: the host maps the dotless i (U+0131) to ['I'], so
    the code takes ['v\u0131olet'] for a key. *)
Definition upper (c : ascii) : ascii :=
  let n := nat_of_ascii c in
  if ((97 <=? n) && (n <=? 122))%nat then ascii_of_nat (n - 32) else c.

Definition lower (c : ascii) : ascii :=
  let n := nat_of_ascii c in
  if ((65 <=? n) && (n <=? 90))%nat then ascii_of_nat (n + 32) else c.

Fixpoint toUpperCase (s : string) : string :=
  match s with
  | EmptyString => EmptyString
  | String c rest => String (upper c) (toUpperCase rest)
  end.

Fixpoint toLowerCase (s : string) : string :=
  match s with
  | EmptyString => EmptyString
  | String c rest => String (lower c) (toLowerCase rest)
  end.

Definition isNaN (x : num) : bool :=
  match x with S754_nan => true | _ => false end.

(** The argument of [validateColorBet]: the colour is a string (on any
    other value the call throws), and [requestAmount] is [None] for an
    amount that is not of type ['number']. *)
Record BetRequest : Type := mkBetRequest {
  requestColor : string;
  requestAmount : option num
}.

Record ValidatedBet : Type := mkValidatedBet {
  validColor : string;
  validAmount : num;
  placedAt : Clock
}.

(** The object returned by [validateColorBet] has one of two shapes:
    [isValid] is [errors.length === 0], and [validatedBet] is [null]
    exactly when it is [false]. *)
Inductive Validation : Type :=
| Valid (validatedBet : ValidatedBet)
| Invalid (errors : list string).

Definition isValid (v : Validation) : bool :=
  match v with Valid _ => true | Invalid _ => false end.

Definition errors (v : Validation) : list string :=
  match v with Valid _ => [] | Invalid errors => errors end.

Definition validatedBet (v : Validation) : option ValidatedBet :=
  match v with Valid bet => Some bet | Invalid _ => None end.

Definition colorErrors (color : string) : list string :=
  match COLORS (toUpperCase color) with
  | Some _ => []
  | None => ["Invalid color. Must be one of: RED, GREEN, VIOLET"%string]
  end.

Definition amountErrors (amount : option num) : list string :=
  match amount with
  | None => ["Bet amount must be a valid number"%string]
  | Some a =>
      if isNaN a then ["Bet amount must be a valid number"%string]
      else
        (if (a <? MIN_BET_AMOUNT)%js then ["Minimum bet amount is 1"%string] else [])
        ++ (if (a >? MAX_BET_AMOUNT)%js then ["Maximum bet amount is 100000"%string]
            else [])
  end.

Definition validateColorBet (now : Clock) (betData : BetRequest) : Validation :=
  let color := requestColor betData in
  let amount := requestAmount betData in
  match colorErrors color ++ amountErrors amount, amount with
  | [], Some a =>
      Valid {| validColor := toLowerCase color;
               validAmount := toFixed a 2;
               placedAt := now |}
  | errors, _ => Invalid errors
  end.

(** The convenience getters [getAvailableColors] and
    [getPayoutMultiplier]; [None] stands for [null]. *)
Definition getAvailableColors : list string := map key Object_keys.

Definition getPayoutMultiplier (color : string) : option num :=
  match lookup (toLowerCase color) with
  | Some c => Some (payoutMultiplier (COLOR_PROPERTIES c))
  | None => None
  end.

End ColorEngine.

(** ** rounds.js: the life cycle of a crash round *)

Module Rounds.

(** [ROUND_STATES]. *)
Inductive RoundState : Type := IDLE | RUNNING | CRASHED | COMPLETED.

Definition RoundState_eqb (a b : RoundState) : bool :=
  match a, b with
  | IDLE, IDLE | RUNNING, RUNNING | CRASHED, CRASHED | COMPLETED, COMPLETED => true
  | _, _ => false
  end.

(** [ROUND_CONFIG]. *)
Definition DEFAULT_LOSS_BIAS : num := lit 0.8.
Definition DEFAULT_MAX_WIN_MULTIPLIER : num := lit 100.

Record Statistics : Type := mkStatistics {
  totalPlayers : num;
  totalBets : num;
  totalWagered : num;
  totalPayout : num;
  highestBet : num;
  highestWin : num;
  playersCashedOut : num;
  playersCrashed : num;
  winRate : option num;
  crashRate : option num;
  houseEdge : option num
}.

Record Round : Type := mkRound {
  roundId : string;
  lossBias : num;
  maxWinMultiplier : num;
  state : RoundState;
  startedAt : option Clock;
  endedAt : option Clock;
  crashMultiplier : option num;
  roundType : option string;
  crashCurve : list Engine.CurvePoint;
  gameDuration : num;
  generatedAt : option Clock;
  crashedAt : option Clock;
  statistics : Statistics;
  metadata_seed : option Z
}.

(** The constructor; an option that is absent or falsy gives way to the
    default. *)
Definition newRound (roundId : string) (lossBias maxWinMultiplier : option num)
  : Round :=
  {| roundId := roundId;
     lossBias :=
       match lossBias with
       | Some b => or_else b DEFAULT_LOSS_BIAS
       | None => DEFAULT_LOSS_BIAS
       end;
     maxWinMultiplier :=
       match maxWinMultiplier with
       | Some m => or_else m DEFAULT_MAX_WIN_MULTIPLIER
       | None => DEFAULT_MAX_WIN_MULTIPLIER
       end;
     state := IDLE;
     startedAt := None;
     endedAt := None;
     crashMultiplier := None;
     roundType := None;
     crashCurve := [];
     gameDuration := lit 0;
     generatedAt := None;
     crashedAt := None;
     statistics :=
       mkStatistics (lit 0) (lit 0) (lit 0) (lit 0) (lit 0) (lit 0) (lit 0)
         (lit 0) None None None;
     metadata_seed := None |}.

Definition finalizeStatistics (st : Statistics) : Statistics :=
  let st1 :=
    if (totalBets st >? lit 0)%js then
      {| totalPlayers := totalPlayers st;
         totalBets := totalBets st;
         totalWagered := totalWagered st;
         totalPayout := totalPayout st;
         highestBet := highestBet st;
         highestWin := highestWin st;
         playersCashedOut := playersCashedOut st;
         playersCrashed := playersCrashed st;
         winRate := Some (playersCashedOut st / totalBets st * lit 100)%js;
         crashRate := Some (playersCrashed st / totalBets st * lit 100)%js;
         houseEdge := houseEdge st |}
    else st in
  if (totalWagered st1 >? lit 0)%js then
    let totalReturned := totalPayout st1 in
    {| totalPlayers := totalPlayers st1;
       totalBets := totalBets st1;
       totalWagered := totalWagered st1;
       totalPayout := totalPayout st1;
       highestBet := highestBet st1;
       highestWin := highestWin st1;
       playersCashedOut := playersCashedOut st1;
       playersCrashed := playersCrashed st1;
       winRate := winRate st1;
       crashRate := crashRate st1;
       houseEdge :=
         Some ((totalWagered st1 - totalReturned) / totalWagered st1 * lit 100)%js |}
  else st1.

Definition setState (r : Round) (s : RoundState) : Round :=
  {| roundId := roundId r; lossBias := lossBias r;
     maxWinMultiplier := maxWinMultiplier r; state := s;
     startedAt := startedAt r; endedAt := endedAt r;
     crashMultiplier := crashMultiplier r; roundType := roundType r;
     crashCurve := crashCurve r; gameDuration := gameDuration r;
     generatedAt := generatedAt r; crashedAt := crashedAt r;
     statistics := statistics r; metadata_seed := metadata_seed r |}.

Section WithMath.

Variables Math_log Math_exp Math_cos : num -> num.

(** Each method returns its boolean with the round as the call leaves
    it.  The clock is read once per call. *)
Definition start (now : Clock) (r : Round) : bool * Round :=
  if negb (RoundState_eqb (state r) IDLE) then (false, r)
  else
    match Engine.generateCrashMultiplier Math_log Math_exp Math_cos now
            (Engine.mkOptions (Some (lossBias r)) (Some (maxWinMultiplier r))
               (Some (roundId r)) None) with
    | Throw _ => (false, r)
    | Ok gameResult =>
        (true,
         {| roundId := roundId r; lossBias := lossBias r;
            maxWinMultiplier := maxWinMultiplier r;
            state := RUNNING;
            startedAt := Some now;
            endedAt := endedAt r;
            crashMultiplier := Some (Engine.crashMultiplier gameResult);
            roundType := Some (Engine.roundType gameResult);
            crashCurve := Engine.crashCurve gameResult;
            gameDuration := Engine.gameDuration gameResult;
            generatedAt := Some (Engine.generatedAt gameResult);
            crashedAt := crashedAt r;
            statistics := statistics r;
            metadata_seed := Some (Engine.seed gameResult) |})
    end.

End WithMath.

Definition end_ (now : Clock) (r : Round) : bool * Round :=
  if negb (RoundState_eqb (state r) RUNNING) then (false, r)
  else
    (true,
     {| roundId := roundId r; lossBias := lossBias r;
        maxWinMultiplier := maxWinMultiplier r;
        state := CRASHED;
        startedAt := startedAt r;
        endedAt := Some now;
        crashMultiplier := crashMultiplier r; roundType := roundType r;
        crashCurve := crashCurve r; gameDuration := gameDuration r;
        generatedAt := generatedAt r;
        crashedAt := Some now;
        statistics := statistics r; metadata_seed := metadata_seed r |}).

Definition complete (r : Round) : bool * Round :=
  if negb (RoundState_eqb (state r) CRASHED) then (false, r)
  else
    let r1 := setState r COMPLETED in
    (true,
     {| roundId := roundId r1; lossBias := lossBias r1;
        maxWinMultiplier := maxWinMultiplier r1; state := state r1;
        startedAt := startedAt r1; endedAt := endedAt r1;
        crashMultiplier := crashMultiplier r1; roundType := roundType r1;
        crashCurve := crashCurve r1; gameDuration := gameDuration r1;
        generatedAt := generatedAt r1; crashedAt := crashedAt r1;
        statistics := finalizeStatistics (statistics r1);
        metadata_seed := metadata_seed r1 |}).

(** The three life-cycle methods, and the state each one requires. *)
Inductive Method : Type := Start | End | Complete.

Definition requiredState (m : Method) : RoundState :=
  match m with
  | Start => IDLE
  | End => RUNNING
  | Complete => CRASHED
  end.

Definition call (Math_log Math_exp Math_cos : num -> num) (m : Method)
  (now : Clock) (r : Round) : bool * Round :=
  match m with
  | Start => start Math_log Math_exp Math_cos now r
  | End => end_ now r
  | Complete => complete r
  end.

(** [RoundManager.getRoundHistory]: [roundHistory.slice(-limit).reverse()].
    [slice] starts at the integer part of [-limit], counted from the end
    of the array when it is negative and cut to the bounds of the
    array. *)
Definition sliceStart (len : Z) (start : num) : Z :=
  match start with
  | S754_infinity true => 0
  | S754_infinity false => len
  | _ =>
      let relativeStart := truncate start in
      if relativeStart <? 0 then Z.max (len + relativeStart) 0
      else Z.min relativeStart len
  end.

Definition getRoundHistory {A : Type} (roundHistory : list A) (limit : num) : list A :=
  let len := Z.of_nat (List.length roundHistory) in
  rev (skipn (Z.to_nat (sliceStart len (- limit)%js)) roundHistory).

End Rounds.

(** ** index.js: the game controller *)

Module Controller.

Record CashoutData : Type := mkCashoutData {
  cashoutMultiplier : num;
  crashMultiplier : num;
  cashoutDelay : option num;
  gameDuration : option num;
  betAmount : option num
}.

Record CashoutResult : Type := mkCashoutResult {
  success : bool;
  isValid : bool;
  profit : num;
  message : string
}.

(** [validateCrashCashout]; nothing in its [try] block throws.  A missing
    [betAmount] is [undefined], which arithmetic reads as [NaN]. *)
Definition validateCrashCashout (cashoutData : CashoutData) : CashoutResult :=
  let delay := match cashoutDelay cashoutData with Some d => d | None => lit 100 end in
  let duration := match gameDuration cashoutData with Some d => d | None => lit 10000 end in
  let amount := match betAmount cashoutData with Some a => a | None => NaN end in
  let isValid :=
    Engine.validateCashout (cashoutMultiplier cashoutData)
      (crashMultiplier cashoutData) delay duration in
  let profit :=
    if isValid
    then Engine.calculateProfit (or_else amount (lit 0)) (cashoutMultiplier cashoutData)
    else or_else (- amount)%js (lit 0) in
  {| success := true;
     isValid := isValid;
     profit := profit;
     message := if isValid then "Cashout successful"
                else "Cashout failed - crashed before cashout" |}.

(** A wager attached to a colour round, and of the round the fields that
    settlement reads or writes. *)
Record Bet : Type := mkBet {
  betId : string;
  color : string;
  amount : num;
  betState : string;
  betResult : option string;
  betPayout : option num;
  betProfit : option num;
  processedAt : option Clock
}.

Record RoundStatistics : Type := mkRoundStatistics {
  totalBets : num;
  totalWagered : num;
  totalPayout : num
}.

Record ColorRound : Type := mkColorRound {
  roundId : string;
  winningColor : string;
  bets : list Bet;
  statistics : RoundStatistics
}.

Definition settled (now : Clock) (bet : Bet) (p : ColorEngine.Payout) : Bet :=
  {| betId := betId bet;
     color := color bet;
     amount := amount bet;
     betState := betState bet;
     betResult := Some (if ColorEngine.isWin p then "win" else "loss")%string;
     betPayout := Some (ColorEngine.payout p);
     betProfit := Some (ColorEngine.profit p);
     processedAt := Some now |}.

(** The callback of [round.bets.forEach], run over the wagers in order.
    The wagers are objects shared with the round, so those settled before
    an exception stay settled.  The result is the list of wagers as the
    loop leaves it, with the running [totalPayout] or the exception. *)
Fixpoint settleBets (now : Clock) (winningColor : string) (bets : list Bet)
  (totalPayout : num) : list Bet * result num :=
  match bets with
  | [] => ([], Ok totalPayout)
  | bet :: rest =>
      match ColorEngine.calculateColorPayout
              (ColorEngine.mkBetData (color bet) (amount bet)) winningColor with
      | Throw e => (bet :: rest, Throw e)
      | Ok p =>
          let totalPayout :=
            if ColorEngine.isWin p then (totalPayout + ColorEngine.payout p)%js
            else totalPayout in
          let '(rest', r) := settleBets now winningColor rest totalPayout in
          (settled now bet p :: rest', r)
      end
  end.

(** [processColorRoundPayouts]: the round as the call leaves it, and
    whether the call returned ([Ok tt]) or threw. *)
Definition processColorRoundPayouts (now : Clock) (round : ColorRound)
  : ColorRound * result unit :=
  match bets round with
  | [] => (round, Ok tt)
  | _ =>
      let '(bets', r) := settleBets now (winningColor round) (bets round) (lit 0) in
      match r with
      | Ok totalPayout =>
          ({| roundId := roundId round;
              winningColor := winningColor round;
              bets := bets';
              statistics :=
                {| totalBets := totalBets (statistics round);
                   totalWagered := totalWagered (statistics round);
                   totalPayout := totalPayout |} |}, Ok tt)
      | Throw e =>
          ({| roundId := roundId round;
              winningColor := winningColor round;
              bets := bets';
              statistics := statistics round |}, Throw e)
      end
  end.


(** *** Colour trading: bets and the end of a round *)

(** [validateColorBet] of the controller: the validated bet with the
    outcome it would have for each colour. *)
Record Outcome : Type := mkOutcome {
  outcomeProfit : num;
  outcomePayout : num;
  wouldWin : bool
}.

Inductive BetPreview : Type :=
| Preview (bet : ColorEngine.ValidatedBet) (potentialOutcomes : list (string * Outcome))
          (maxWinCap : num)
| NotValid (errors : list string)
| PreviewError (error : string).

(** The callback of [colors.forEach]. *)
Fixpoint potentialOutcomesOf (bet : ColorEngine.ValidatedBet) (colors : list string)
  : result (list (string * Outcome)) :=
  match colors with
  | [] => Ok []
  | color :: rest =>
      match ColorEngine.calculateColorPayout
              (ColorEngine.mkBetData (ColorEngine.validColor bet)
                 (ColorEngine.validAmount bet)) color with
      | Throw e => Throw e
      | Ok payout =>
          match potentialOutcomesOf bet rest with
          | Throw e => Throw e
          | Ok outcomes =>
              Ok ((color, mkOutcome (ColorEngine.profit payout)
                            (ColorEngine.payout payout) (ColorEngine.isWin payout))
                  :: outcomes)
          end
      end
  end.

Definition validateColorBet (now : Clock) (betData : ColorEngine.BetRequest)
  : BetPreview :=
  match ColorEngine.validateColorBet now betData with
  | ColorEngine.Valid bet =>
      match potentialOutcomesOf bet ColorEngine.getAvailableColors with
      | Ok outcomes => Preview bet outcomes ColorEngine.MAX_WIN_CAP
      | Throw e => PreviewError e
      end
  | ColorEngine.Invalid errors => NotValid errors
  end.

(** Of the round object of colour trading, besides the fields of
    [ColorRound]: its state and the bet counters of [statistics].  The
    time stamps of rounds, events and the game status are left out. *)
Record ActiveRound : Type := mkActiveRound {
  round : ColorRound;
  state : string;
  redBets : num;
  greenBets : num;
  violetBets : num
}.

(** [gameHistory]: an object used as a map from game types to lists;
    of an event the model keeps its type and its round. *)
Record HistoryEvent : Type := mkHistoryEvent {
  eventType : string;
  eventRoundId : string
}.

Definition History : Type := string -> option (list HistoryEvent).

(** The history of a new controller: [{ crash: [], colorTrading: [] }]. *)
Definition newHistory : History :=
  fun k =>
    if String.eqb k "crash" then Some []
    else if String.eqb k "colorTrading" then Some []
    else None.

(** [GAME_TYPES]. *)
Definition CRASH : string := "crash".
Definition COLOR_TRADING : string := "color_trading".

(** [addToHistory]; [size] is [config.PLATFORM.GAME_HISTORY_SIZE]. *)
Definition addToHistory (size : num) (gameHistory : History) (gameType : string)
  (eventData : HistoryEvent) : History :=
  let pushed :=
    match gameHistory gameType with Some l => l | None => [] end ++ [eventData] in
  let kept :=
    if (of_Z (Z.of_nat (List.length pushed)) >? size)%js then tl pushed else pushed in
  fun k => if String.eqb k gameType then Some kept else gameHistory k.

(** [statistics.colorTrading]. *)
Record GameStatistics : Type := mkGameStatistics {
  gameRounds : num;
  gameBets : num;
  gameWagered : num;
  gamePayout : num
}.

(** The colour-trading side of a controller that has been initialised:
    [gameStatus.colorTrading], [statistics.colorTrading], [gameHistory]
    and [config.PLATFORM.GAME_HISTORY_SIZE].  What the listeners
    registered with [on] do is their own. *)
Record Game : Type := mkGame {
  isActive : bool;
  currentRound : option ActiveRound;
  gameStatistics : GameStatistics;
  gameHistory : History;
  historySize : num
}.

Inductive PlaceResult : Type :=
| Placed (bet : Bet) (roundId : string) (currentMultiplier : option num)
| Rejected (errors : list string)
| NotPlaced (error : string).

(** [currentRound.statistics[`${bet.color}Bets`]++], when that counter is
    defined. *)
Definition countBet (color : string) (r : ActiveRound) : ActiveRound :=
  let core := round r in
  let stats := statistics core in
  {| round :=
       if String.eqb color "total" then
         {| roundId := roundId core; winningColor := winningColor core;
            bets := bets core;
            statistics :=
              {| totalBets := (totalBets stats + lit 1)%js;
                 totalWagered := totalWagered stats;
                 totalPayout := totalPayout stats |} |}
       else core;
     state := state r;
     redBets := if String.eqb color "red" then (redBets r + lit 1)%js else redBets r;
     greenBets :=
       if String.eqb color "green" then (greenBets r + lit 1)%js else greenBets r;
     violetBets :=
       if String.eqb color "violet" then (violetBets r + lit 1)%js else violetBets r |}.

(** The round with one more bet: the bet is pushed, [totalBets] is
    incremented and the stake is added to [totalWagered]. *)
Definition withBet (bet : Bet) (r : ActiveRound) : ActiveRound :=
  let core := round r in
  let stats := statistics core in
  {| round :=
       {| roundId := roundId core; winningColor := winningColor core;
          bets := bets core ++ [bet];
          statistics :=
            {| totalBets := (totalBets stats + lit 1)%js;
               totalWagered := (totalWagered stats + amount bet)%js;
               totalPayout := totalPayout stats |} |};
     state := state r;
     redBets := redBets r; greenBets := greenBets r; violetBets := violetBets r |}.

(** [placeColorBet]; [validatedAt] is the time at which the engine
    validates the request, [now] the value of [Date.now()] in the bet id
    and [random] the value of [Math.random()], a number in [0, 1).
    Nothing in its [try] block throws on a request whose colour is a
    string. *)
Definition placeColorBet (validatedAt now : Clock) (random : num)
  (betData : ColorEngine.BetRequest) (g : Game) : PlaceResult * Game :=
  match (if isActive g then currentRound g else None) with
  | None => (NotPlaced "No active color trading round", g)
  | Some current =>
      match ColorEngine.validateColorBet validatedAt betData with
      | ColorEngine.Invalid errors => (Rejected errors, g)
      | ColorEngine.Valid validated =>
          let bet :=
            {| betId :=
                 ("color_bet_" ++ Date_now_toString now ++ "_"
                  ++ integerToString (Math_floor (random * lit 1000)%js))%string;
               color := ColorEngine.validColor validated;
               amount := ColorEngine.validAmount validated;
               betState := "pending";
               betResult := None;
               betPayout := None;
               betProfit := None;
               processedAt := None |} in
          (Placed bet (roundId (round current))
             (ColorEngine.getPayoutMultiplier (color bet)),
           {| isActive := isActive g;
              currentRound := Some (countBet (color bet) (withBet bet current));
              gameStatistics := gameStatistics g;
              gameHistory := gameHistory g;
              historySize := historySize g |})
      end
  end.

Inductive EndResult : Type :=
| Ended (completedRound : ActiveRound)
| NotEnded (error : string).

(** [endColorTradingRound]; [now] is the time at which the wagers are
    processed.  When settlement throws, the exception is caught after
    the round has been marked completed and the wagers before the
    failing one have been settled; the round stays current. *)
Definition endColorTradingRound (now : Clock) (id : string) (g : Game)
  : EndResult * Game :=
  match currentRound g with
  | None => (NotEnded "Round not found or not active", g)
  | Some current =>
      if negb (String.eqb (roundId (round current)) id) then
        (NotEnded "Round not found or not active", g)
      else
        let '(settledRound, r) := processColorRoundPayouts now (round current) in
        let completed :=
          {| round := settledRound;
             state := "completed";
             redBets := redBets current;
             greenBets := greenBets current;
             violetBets := violetBets current |} in
        match r with
        | Throw e =>
            (NotEnded e,
             {| isActive := isActive g;
                currentRound := Some completed;
                gameStatistics := gameStatistics g;
                gameHistory := gameHistory g;
                historySize := historySize g |})
        | Ok _ =>
            let stats := gameStatistics g in
            let roundStats := statistics settledRound in
            (Ended completed,
             {| isActive := false;
                currentRound := None;
                gameStatistics :=
                  {| gameRounds := gameRounds stats;
                     gameBets := (gameBets stats + totalBets roundStats)%js;
                     gameWagered := (gameWagered stats + totalWagered roundStats)%js;
                     gamePayout := (gamePayout stats + totalPayout roundStats)%js |};
                gameHistory :=
                  addToHistory (historySize g) (gameHistory g) COLOR_TRADING
                    (mkHistoryEvent "round_end" (roundId settledRound));
                historySize := historySize g |})
        end
  end.

(** Of the object returned by [getStatus], its [historySizes]: the
    lengths of [gameHistory.crash] and [gameHistory.colorTrading]. *)
Definition historySizes (g : Game) : option (nat * nat) :=
  match gameHistory g "crash"%string, gameHistory g "colorTrading"%string with
  | Some crash, Some colorTrading => Some (List.length crash, List.length colorTrading)
  | _, _ => None
  end.

End Controller.

(** ** A reference implementation of the host's [Math] functions

    The statements below hold for every choice of [Math.log], [Math.exp]
    and [Math.cos].  To evaluate the engine on concrete inputs one choice is
    fixed here: the classical argument reductions and polynomial kernels
    for binary64, written with the arithmetic of [JS]. *)

Module RefMath.

Definition ldexp (x : num) (k : Z) : num := SFldexp prec emax x k.

Definition ln2HI : num := lit 6.93147180369123816490e-01.
Definition ln2LO : num := lit 1.90821492927058770002e-10.
Definition invln2 : num := lit 1.44269504088896338700e+00.

Definition P1 : num := lit 1.66666666666666019037e-01.
Definition P2 : num := lit (-2.77777777770155933842e-03).
Definition P3 : num := lit 6.61375632143793436117e-05.
Definition P4 : num := lit (-1.65339022054652515390e-06).
Definition P5 : num := lit 4.13813679705723846039e-08.

Definition exp_kernel (hi lo : num) (k : Z) : num :=
  let r := (hi - lo)%js in
  let t := (r * r)%js in
  let c := (r - t * (P1 + t * (P2 + t * (P3 + t * (P4 + t * P5)))))%js in
  if k =? 0 then (lit 1 - (r * c / (c - lit 2) - r))%js
  else ldexp (lit 1 - (lo - r * c / (lit 2 - c) - hi))%js k.

Definition exp (x : num) : num :=
  match x with
  | S754_nan => NaN
  | S754_infinity false => x
  | S754_infinity true => S754_zero false
  | _ =>
      if (x >? lit 7.09782712893383973096e+02)%js then Infinity
      else if (x <? lit (-7.45133219101941108420e+02))%js then S754_zero false
      else if (Math_abs x <? lit 0x1p-28)%js then (lit 1 + x)%js
      else if (Math_abs x >? lit 0.34657359027997264)%js then
        let half := if (x >? lit 0)%js then lit 0.5 else lit (-0.5) in
        let k := truncate (invln2 * x + half)%js in
        exp_kernel (x - of_Z k * ln2HI)%js (of_Z k * ln2LO)%js k
      else exp_kernel x (S754_zero false) 0
  end.

Definition Lg1 : num := lit 6.666666666666735130e-01.
Definition Lg2 : num := lit 3.999999999940941908e-01.
Definition Lg3 : num := lit 2.857142874366239149e-01.
Definition Lg4 : num := lit 2.222219843214978396e-01.
Definition Lg5 : num := lit 1.818357216161805012e-01.
Definition Lg6 : num := lit 1.531383769920937332e-01.
Definition Lg7 : num := lit 1.479819860511658591e-01.

Definition log_kernel (m : num) (k : Z) : num :=
  let f := (m - lit 1)%js in
  let s := (f / (lit 2 + f))%js in
  let dk := of_Z k in
  let z := (s * s)%js in
  let w := (z * z)%js in
  let t1 := (w * (Lg2 + w * (Lg4 + w * Lg6)))%js in
  let t2 := (z * (Lg1 + w * (Lg3 + w * (Lg5 + w * Lg7))))%js in
  let R := (t2 + t1)%js in
  let hfsq := (lit 0.5 * f * f)%js in
  if k =? 0 then (f - (hfsq - s * (hfsq + R)))%js
  else (dk * ln2HI - (hfsq - (s * (hfsq + R) + dk * ln2LO) - f))%js.

Definition log (x : num) : num :=
  match x with
  | S754_nan => NaN
  | S754_zero _ => S754_infinity true
  | S754_infinity false => x
  | S754_infinity true => NaN
  | S754_finite true _ _ => NaN
  | S754_finite false _ _ =>
      let '(m, k) := SFfrexp prec emax x in
      if (m <? lit 0.7071067811865476)%js
      then log_kernel (m * lit 2)%js (k - 1)
      else log_kernel m k
  end.

Definition C1 : num := lit 4.16666666666666019037e-02.
Definition C2 : num := lit (-1.38888888888741095749e-03).
Definition C3 : num := lit 2.48015872894767294178e-05.
Definition C4 : num := lit (-2.75573143513906633035e-07).
Definition C5 : num := lit 2.08757232129817482790e-09.
Definition C6 : num := lit (-1.13596475577881948265e-11).

Definition S1 : num := lit (-1.66666666666666324348e-01).
Definition S2 : num := lit 8.33333333332248946124e-03.
Definition S3 : num := lit (-1.98412698298579493134e-04).
Definition S4 : num := lit 2.75573137070700676789e-06.
Definition S5 : num := lit (-2.50507602534068634195e-08).
Definition S6 : num := lit 1.58969099521155010221e-10.

Definition cos_kernel (x y : num) : num :=
  let z := (x * x)%js in
  let r := (z * (C1 + z * (C2 + z * (C3 + z * (C4 + z * (C5 + z * C6))))))%js in
  let hz := (lit 0.5 * z)%js in
  let w := (lit 1 - hz)%js in
  (w + (lit 1 - w - hz + (z * r - x * y)))%js.

Definition sin_kernel (x y : num) : num :=
  let z := (x * x)%js in
  let v := (z * x)%js in
  let r := (S2 + z * (S3 + z * (S4 + z * (S5 + z * S6))))%js in
  (x - (z * (lit 0.5 * y - v * r) - y - v * S1))%js.

Definition invpio2 : num := lit 6.36619772367581382433e-01.
Definition pio2_1 : num := lit 1.57079632673412561417e+00.
Definition pio2_1t : num := lit 6.07710050650619224932e-11.

Definition cos (x : num) : num :=
  match x with
  | S754_nan | S754_infinity _ => NaN
  | _ =>
      let a := Math_abs x in
      if (a <=? lit 0.7853981633974483)%js then cos_kernel a (S754_zero false)
      else
        let n := truncate (a * invpio2 + lit 0.5)%js in
        let fn := of_Z n in
        let r := (a - fn * pio2_1)%js in
        let w := (fn * pio2_1t)%js in
        let y0 := (r - w)%js in
        let y1 := (r - y0 - w)%js in
        match n mod 4 with
        | 0 => cos_kernel y0 y1
        | 1 => (- sin_kernel y0 y1)%js
        | 2 => (- cos_kernel y0 y1)%js
        | _ => sin_kernel y0 y1
        end
  end.

End RefMath.

(** ** Inputs and observations used in the statements *)

(** The options of the scenario of the specification: round id ["r1"],
    a maximum multiplier of 100, a loss bias and an optional seed. *)
Definition r1_options (lossBias : num) (customSeed : option num) : Engine.Options :=
  Engine.mkOptions (Some lossBias) (Some (lit 100)) (Some "r1"%string) customSeed.

(** What two calls of [generateCrashMultiplier] are compared on: the
    multiplier, the category, the duration and the curve (or the error). *)
Definition crashOutcome (r : result Engine.GameResult)
  : result (num * string * num * list Engine.CurvePoint) :=
  match r with
  | Ok g => Ok (Engine.crashMultiplier g, Engine.roundType g,
               Engine.gameDuration g, Engine.crashCurve g)
  | Throw e => Throw e
  end.

(** What two calls of [generateWinningColor] are compared on. *)
Definition colorOutcome (r : result ColorEngine.ColorResult)
  : result (string * bool * Z) :=
  match r with
  | Ok g => Ok (ColorEngine.winningColor g, ColorEngine.isWinRound g,
               ColorEngine.seed g)
  | Throw e => Throw e
  end.

(** A colour round drawn after three wins of red in a row. *)
Definition streak_options : ColorEngine.Options :=
  ColorEngine.mkOptions (Some "r1"%string) (Some (lit 0)) (Some (lit 0))
    (Some ["green"; "red"; "red"; "red"]%string).

(** A wager as the settlement loop leaves it: settled when its payout can
    be computed, untouched when [calculateColorPayout] throws. *)
Definition settledOr (now : Clock) (winningColor : string) (bet : Controller.Bet)
  : Controller.Bet :=
  match ColorEngine.calculateColorPayout
          (ColorEngine.mkBetData (Controller.color bet) (Controller.amount bet))
          winningColor with
  | Ok p => Controller.settled now bet p
  | Throw _ => bet
  end.

Definition pendingBet (betId color : string) (amount : num) : Controller.Bet :=
  Controller.mkBet betId color amount "pending" None None None None.

(** A round won by red with three wagers, the second of them with a
    stake of zero. *)
Definition mixedRound : Controller.ColorRound :=
  Controller.mkColorRound "color_round_1" "red"
    [pendingBet "b1" "red" (lit 10);
     pendingBet "b2" "green" (lit 0);
     pendingBet "b3" "red" (lit 20)]
    (Controller.mkRoundStatistics (lit 3) (lit 30) (lit 0)).

(** ** Numbers of the format and their values

    The arithmetic of [JS] rounds to nearest, ties to even.  To reason
    about it the values of numbers are taken in [Q]. *)

(** A number of the language: one that the binary64 format holds. *)
Definition isNumber (x : num) : bool := SpecFloat.valid_binary prec emax x.

(** The position of [N / D] between the integers around it, as the
    rounding functions of the format record it: [r] is [N mod D]. *)
Definition loc_of (r D : Z) : location :=
  if r =? 0 then loc_Exact else loc_Inexact (2 * r ?= D).

(** The record [mrs] holds the integer part and the position of
    [N / D]. *)
Definition located (mrs : shr_record) (N D : Z) : Prop :=
  0 < D /\ 0 <= N /\ shr_m mrs = N / D /\ loc_of_shr_record mrs = loc_of (N mod D) D.

(** The value of the mantissa [m] at the exponent [e]. *)
Definition F2Q (m e : Z) : Q := (inject_Z m * 2 ^ e)%Q.

(** The number with mantissa [M], of at most 54 bits, at the exponent
    [e1]. *)
Definition round_result (s : bool) (M e1 : Z) : spec_float :=
  match M with
  | Z0 => S754_zero s
  | Zpos p =>
      if M =? 9007199254740992 then
        if e1 + 1 <=? 971 then S754_finite s 4503599627370496 (e1 + 1)
        else S754_infinity s
      else if e1 <=? 971 then S754_finite s p e1 else S754_infinity s
  | Zneg _ => S754_nan
  end.

(** [y] is a zero, an infinity or a finite number of the format, with
    sign [s]. *)
Definition signed (s : bool) (y : spec_float) : Prop :=
  y = S754_zero s \/ y = S754_infinity s \/
  exists m e, y = S754_finite s m e /\ bounded prec emax m e = true.

(** [y] is the number with sign [s] whose magnitude is [x > 0] rounded to
    the format: [y] is zero, infinite or a finite number of the format,
    and the rounding does not cross any number of the format. *)
Definition rounded (y : spec_float) (s : bool) (x : Q) : Prop :=
  signed s y /\
  (forall mc ec, bounded prec emax mc ec = true -> (F2Q (Zpos mc) ec <= x)%Q ->
     SFleb (S754_finite false mc ec) (SFabs y) = true) /\
  (forall mc ec, bounded prec emax mc ec = true -> (x <= F2Q (Zpos mc) ec)%Q ->
     SFleb (SFabs y) (S754_finite false mc ec) = true).

(** The value of a number that is finite or zero. *)
Definition SF2Q (x : spec_float) : Q :=
  match x with
  | S754_finite s m e => if s then (- F2Q (Zpos m) e)%Q else F2Q (Zpos m) e
  | _ => 0%Q
  end.

(** The integer [n] such that [x.toFixed(digits)] prints [n / 10^digits],
    for [x] with mantissa [m] and exponent [e]. *)
Definition decimalOf (m : positive) (e digits : Z) : Z :=
  if 0 <=? e then Zpos m * 2 ^ e * 10 ^ digits
  else (2 * Zpos m * 10 ^ digits + 2 ^ (- e)) / 2 ^ (- e + 1).

(** The state of a generator that holds the integer [z >= 0]. *)
Definition holds (s : num) (z : Z) : Prop :=
  match s with
  | S754_zero false => z = 0
  | S754_finite false m e =>
      bounded prec emax m e = true /\ (F2Q (Zpos m) e == inject_Z z)%Q /\ 0 < z
  | _ => False
  end.

(** The first [n] numbers drawn from a generator in the state [s]. *)
Fixpoint draws (n : nat) (s : num) : list num :=
  match n with
  | O => []
  | S n' => let '(r, s') := Engine.prng s in r :: draws n' s'
  end.

(** The polynomial [hash * 31^n + c_1 * 31^(n-1) + ... + c_n] over the
    code units [c_1 ... c_n] of [str], in exact integers. *)
Fixpoint polyHash (hash : Z) (str : string) : Z :=
  match str with
  | EmptyString => hash
  | String c rest => polyHash (31 * hash + Engine.charCode c) rest
  end.

(** The seed that [generateCrashMultiplier] combines with the hash of
    the round id. *)
Definition baseSeedOf (options : Engine.Options) : num :=
  match Engine.opt_customSeed options with
  | Some c => c
  | None => Engine.SEED
  end.

(** One call of [placeColorBet]: the two readings of the clock, the
    value of [Math.random()] and the request. *)
Record PlaceCall : Type := mkPlaceCall {
  callValidatedAt : Clock;
  callNow : Clock;
  callRandom : num;
  callRequest : ColorEngine.BetRequest
}.

(** The game after a sequence of calls of [placeColorBet], with the bets
    that the calls returned. *)
Fixpoint placeAll (calls : list PlaceCall) (g : Controller.Game)
  : list Controller.Bet * Controller.Game :=
  match calls with
  | [] => ([], g)
  | c :: rest =>
      let '(r, g') :=
        Controller.placeColorBet (callValidatedAt c) (callNow c) (callRandom c)
          (callRequest c) g in
      let '(placed, g'') := placeAll rest g' in
      (match r with
       | Controller.Placed bet _ _ => bet :: placed
       | _ => placed
       end, g'')
  end.

(** A request whose amount, when it is of type ['number'], is a number
    of the format. *)
Definition wellFormed (betData : ColorEngine.BetRequest) : bool :=
  match ColorEngine.requestAmount betData with
  | Some a => isNumber a
  | None => true
  end.

(** The methods of a round applied one after the other. *)
Fixpoint callAll (Math_log Math_exp Math_cos : num -> num)
  (ms : list (Rounds.Method * Clock)) (r : Rounds.Round) : Rounds.Round :=
  match ms with
  | [] => r
  | (m, now) :: rest =>
      callAll Math_log Math_exp Math_cos rest
        (snd (Rounds.call Math_log Math_exp Math_cos m now r))
  end.

(** The position of a state in the life cycle. *)
Definition rank (s : Rounds.RoundState) : nat :=
  match s with
  | Rounds.IDLE => 0
  | Rounds.RUNNING => 1
  | Rounds.CRASHED => 2
  | Rounds.COMPLETED => 3
  end.

(** A wager whose stake passes the bounds of [calculateColorPayout]. *)
Definition payable (bet : Controller.Bet) : Prop :=
  (Controller.amount bet <? ColorEngine.MIN_BET_AMOUNT)%js = false /\
  (Controller.amount bet >? ColorEngine.MAX_BET_AMOUNT)%js = false.

(** What settlement writes on a wager: [bet'] is [bet] marked as a win
    or a loss. *)
Definition settles (winningColor : string) (bet bet' : Controller.Bet) : Prop :=
  Controller.betId bet' = Controller.betId bet /\
  Controller.color bet' = Controller.color bet /\
  Controller.amount bet' = Controller.amount bet /\
  Controller.betResult bet' =
    Some (if String.eqb (Controller.color bet) winningColor
          then "win" else "loss")%string.

(** A game with a running round won by red, without wagers so far, and
    three requests: two that the engine accepts and one on a colour that
    is not configured. *)
Definition openRound : Controller.ActiveRound :=
  Controller.mkActiveRound
    (Controller.mkColorRound "color_round_1" "red" []
       (Controller.mkRoundStatistics (lit 0) (lit 0) (lit 0)))
    "running" (lit 0) (lit 0) (lit 0).

Definition openGame : Controller.Game :=
  Controller.mkGame true (Some openRound)
    (Controller.mkGameStatistics (lit 1) (lit 0) (lit 0) (lit 0))
    Controller.newHistory (lit 50).

Definition threeRequests : list PlaceCall :=
  [mkPlaceCall 0 0 (lit 0.5) (ColorEngine.mkBetRequest "Red" (Some (lit 10)));
   mkPlaceCall 1 1 (lit 0.25) (ColorEngine.mkBetRequest "blue" (Some (lit 5)));
   mkPlaceCall 2 2 (lit 0.75) (ColorEngine.mkBetRequest "GREEN" (Some (lit 20.005)))].

(** A number that the generator draws from a state in [0 .. 2^31 - 1]:
    [+0], or a positive number of the format up to [1 - 2^-31]. *)
Definition unitDraw (r : num) : Prop :=
  match r with
  | S754_zero false => True
  | S754_finite false m e =>
      bounded prec emax m e = true /\
      SFleb r (S754_finite false 9007199250546688 (-53)) = true
  | _ => False
  end.

(** A profit before it is printed that is zero, negative, or positive
    and at most [10000 + 2^-10]. *)
Definition withinCap (y : num) : Prop :=
  match y with
  | S754_zero _ => True
  | S754_finite true m e => bounded prec emax m e = true
  | S754_finite false m e =>
      bounded prec emax m e = true /\ (F2Q (Zpos m) e <= F2Q 10240001 (-10))%Q
  | _ => False
  end.

(** The function [f] where its value is a number of the format, [NaN]
    elsewhere. *)
Definition checked (f : num -> num) (x : num) : num :=
  if isNumber (f x) then f x else NaN.

(** * Properties *)

Open Scope string_scope.
Open Scope list_scope.
Open Scope Z_scope.

(** ** Comparison of numbers *)

Lemma SFcompare_antisym (x y : num) :
  SFcompare y x = option_map CompOpp (SFcompare x y).
Proof.
  destruct x as [sx|sx| |sx mx ex], y as [sy|sy| |sy my ey]; simpl;
    try reflexivity;
    try (destruct sx; reflexivity);
    try (destruct sy; reflexivity);
    try (destruct sx, sy; reflexivity).
  assert (Hc : Pos.compare_cont Eq my mx = CompOpp (Pos.compare_cont Eq mx my))
    by (rewrite Pos.compare_cont_antisym; reflexivity).
  destruct sx, sy; try reflexivity;
    rewrite (Z.compare_antisym ex ey);
    destruct (ex ?= ey) eqn:E; simpl; try reflexivity;
    rewrite Hc; destruct (Pos.compare_cont Eq mx my); reflexivity.
Qed.

Lemma SFcompare_refl (x : num) : x <> NaN -> SFcompare x x = Some Eq.
Proof.
  destruct x as [s|s| |s m e]; simpl; intros H.
  - reflexivity.
  - destruct s; reflexivity.
  - contradiction H; reflexivity.
  - rewrite Z.compare_refl, Pos.compare_cont_refl. destruct s; reflexivity.
Qed.

Lemma compare_nan_l (y : num) : SFcompare NaN y = None.
Proof. reflexivity. Qed.

Lemma compare_nan_r (x : num) : SFcompare x NaN = None.
Proof. destruct x; reflexivity. Qed.

Lemma compare_some_not_nan (x y : num) (c : comparison) :
  SFcompare x y = Some c -> x <> NaN /\ y <> NaN.
Proof.
  intros H; split; intros ->.
  - rewrite compare_nan_l in H; discriminate.
  - rewrite compare_nan_r in H; discriminate.
Qed.

Lemma le_lt_false (x y : num) : le x y = true -> lt y x = false.
Proof.
  unfold le, lt, SFleb, SFltb. rewrite (SFcompare_antisym x y).
  destruct (SFcompare x y) as [[ | | ]|]; simpl; congruence.
Qed.

(** Unless one of the two is [NaN], [Math.min] returns one of its
    arguments and is below both. *)
Lemma Math_min_spec (a b : num) :
  Math_min a b <> NaN ->
  le (Math_min a b) b = true /\
  (Math_min a b = b \/ (Math_min a b = a /\ a <> NaN)).
Proof.
  unfold Math_min, le, SFleb.
  destruct (SFcompare a b) as [c|] eqn:E; [|intros H; contradiction H; reflexivity].
  destruct (compare_some_not_nan a b c E) as [Ha Hb].
  destruct c; intros _.
  - destruct a as [[|]| | |]; try (rewrite (SFcompare_refl b Hb); auto).
    rewrite E. auto.
  - rewrite E. auto.
  - rewrite (SFcompare_refl b Hb). auto.
Qed.

Lemma Math_max_spec (a b : num) :
  Math_max a b <> NaN -> ge (Math_max a b) b = true.
Proof.
  unfold Math_max, ge, SFleb.
  destruct (SFcompare a b) as [c|] eqn:E; [|intros H; contradiction H; reflexivity].
  destruct (compare_some_not_nan a b c E) as [Ha Hb].
  destruct c; intros _.
  - assert (R : match a with S754_zero true => b | _ => a end = a
                \/ match a with S754_zero true => b | _ => a end = b)
      by (destruct a as [[|]| | |]; auto).
    destruct R as [-> | ->].
    + rewrite (SFcompare_antisym a b), E. reflexivity.
    + rewrite (SFcompare_refl b Hb). reflexivity.
  - rewrite (SFcompare_refl b Hb). reflexivity.
  - rewrite (SFcompare_antisym a b), E. reflexivity.
Qed.

(** ** [NaN] is contagious *)

Lemma mul_nan_l (y : num) : mul NaN y = NaN.
Proof. reflexivity. Qed.

Lemma add_nan_r (x : num) : add x NaN = NaN.
Proof.
  destruct x; reflexivity.
Qed.

Lemma toFixed_nan (x : num) (digits : Z) : toFixed x digits <> NaN -> x <> NaN.
Proof.
  intros H ->. apply H. reflexivity.
Qed.

(** The square root of a negative number is [NaN]. *)
Lemma sqrt_negative (x : num) : lt x (lit 0) = true -> Math_sqrt x = NaN.
Proof.
  destruct x as [s|[|]| |[|] m e]; try discriminate; reflexivity.
Qed.

(** ** The crash engine *)

Section CrashEngine.

Variables Math_log Math_exp Math_cos : num -> num.

#[local] Abbreviation generate :=
  (Engine.generateCrashMultiplier Math_log Math_exp Math_cos).
#[local] Abbreviation draw := (Engine.drawOutcome Math_log Math_exp Math_cos).
#[local] Abbreviation curveOf := (Engine.generateCrashCurve Math_log Math_exp).
#[local] Abbreviation durationOf := (Engine.calculateGameDuration Math_log).

Lemma generate_fields (now : Clock) (options : Engine.Options) (g : Engine.GameResult) :
  generate now options = Ok g ->
  let outcome := Engine.outcomeOf Math_log Math_exp Math_cos now options in
  let raw := Engine.rawMultiplier Math_log Math_exp Math_cos now options in
  Engine.crashMultiplier g = toFixed raw 4 /\
  Engine.isLossRound g = fst (fst outcome) /\
  Engine.roundType g = (if fst (fst outcome) then "loss" else "win")%string /\
  Engine.gameDuration g = durationOf raw /\
  Engine.crashCurve g = fst (curveOf raw (durationOf raw) (snd outcome)) /\
  Engine.seed g =
    Engine.finalSeedOf (Engine.roundIdOf now options) (Engine.opt_customSeed options).
Proof.
  unfold Engine.generateCrashMultiplier.
  destruct (_ || _)%bool; [discriminate|].
  destruct (Engine.maxWinMultiplierOf options <? Engine.MIN_MULTIPLIER)%js; [discriminate|].
  unfold Engine.rawMultiplier, Engine.outcomeOf.
  destruct (draw _ _ _) as [[isLoss raw] s] eqn:D.
  destruct (curveOf raw (durationOf raw) s) as [curve s'] eqn:C.
  intros H; injection H as <-.
  cbn [Engine.crashMultiplier Engine.isLossRound Engine.roundType
       Engine.gameDuration Engine.crashCurve Engine.seed fst snd].
  rewrite C. repeat split; reflexivity.
Qed.

Lemma generate_returns (now : Clock) (options : Engine.Options) :
  (Engine.lossBiasOf options <? lit 0)%js = false ->
  (Engine.lossBiasOf options >? lit 1)%js = false ->
  (Engine.maxWinMultiplierOf options <? Engine.MIN_MULTIPLIER)%js = false ->
  exists g, generate now options = Ok g.
Proof.
  intros H1 H2 H3. unfold Engine.generateCrashMultiplier.
  rewrite H1, H2, H3. cbv beta iota zeta. cbn [orb].
  destruct (Engine.drawOutcome _ _ _ _ _ _) as [[isLoss raw] s].
  destruct (Engine.generateCrashCurve _ _ _ _ _) as [curve s'].
  eexists; reflexivity.
Qed.

Lemma draw_isLoss (lossBias maxWin : num) (finalSeed : Z) :
  fst (fst (draw lossBias maxWin finalSeed)) =
  (fst (Engine.prng (Engine.createDeterministicPRNG (of_Z finalSeed))) <? lossBias)%js.
Proof.
  unfold Engine.drawOutcome, bind, ret.
  destruct (Engine.prng _) as [r s]. cbn [fst].
  destruct (r <? lossBias)%js.
  - destruct (Engine.generateLossMultiplier _ _ _) as [m s']. reflexivity.
  - destruct (Engine.generateWinMultiplier _ _ _ _) as [m s']. reflexivity.
Qed.


(** *** The curve *)

Lemma curveStep_spec (c d g : num) (curve : list Engine.CurvePoint) (i : nat) (s : num) :
  exists base pt,
    fst (Engine.curveStep Math_exp c d g curve i s) = curve ++ [pt] /\
    Engine.multiplier pt = toFixed (Engine.clampSample c curve i base) 4.
Proof.
  unfold Engine.curveStep, bind, ret.
  destruct (Engine.fluctuate i _ s) as [base s'].
  eexists base, _. split; reflexivity.
Qed.

Lemma curveLoop_spec (c d g : num) (indices : list nat) :
  forall (curve : list Engine.CurvePoint) (s : num),
  exists added,
    fst (Engine.curveLoop Math_exp c d g indices curve s) = curve ++ added /\
    List.length added = List.length indices /\
    forall k i, nth_error indices k = Some i ->
      exists base pt,
        nth_error added k = Some pt /\
        Engine.multiplier pt =
          toFixed (Engine.clampSample c (curve ++ firstn k added) i base) 4.
Proof.
  induction indices as [|i rest IH]; intros curve s.
  - exists []. cbn [Engine.curveLoop ret fst]. rewrite app_nil_r.
    repeat split. intros [|k] j H; discriminate H.
  - cbn [Engine.curveLoop]. unfold bind at 1.
    destruct (curveStep_spec c d g curve i s) as (base & pt & E & Hpt).
    destruct (Engine.curveStep Math_exp c d g curve i s) as [curve1 s1].
    cbn [fst] in E. subst curve1.
    destruct (IH (curve ++ [pt]) s1) as (added & Hall & Hlen & Hk).
    exists (pt :: added). split; [|split].
    + rewrite Hall, <- app_assoc. reflexivity.
    + cbn [List.length]. rewrite Hlen. reflexivity.
    + intros [|k] j H; cbn [nth_error] in H.
      * injection H as <-. exists base, pt. cbn [firstn nth_error].
        rewrite app_nil_r. split; [reflexivity|exact Hpt].
      * destruct (Hk k j H) as (b & q & Hq & Hm).
        exists b, q. cbn [firstn nth_error].
        rewrite <- app_assoc in Hm. split; [exact Hq|exact Hm].
Qed.

Lemma pinLast_spec (curve : list Engine.CurvePoint) (c : num) :
  curve <> [] ->
  List.length (Engine.pinLast curve c) = List.length curve /\
  (forall i, (i < List.length curve - 1)%nat ->
     nth_error (Engine.pinLast curve c) i = nth_error curve i) /\
  exists pt, nth_error (Engine.pinLast curve c) (List.length curve - 1) = Some pt /\
             Engine.multiplier pt = c.
Proof.
  intros Hne. unfold Engine.pinLast.
  destruct (rev curve) as [|p before] eqn:R.
  - apply (f_equal (@rev _)) in R. rewrite rev_involutive in R. contradiction.
  - apply (f_equal (@rev _)) in R. rewrite rev_involutive in R. cbn [rev] in R.
    subst curve. rewrite !length_app. cbn [List.length].
    replace (List.length (rev before) + 1 - 1)%nat with (List.length (rev before)) by lia.
    split; [reflexivity|split].
    + intros i Hi. rewrite !nth_error_app1 by exact Hi. reflexivity.
    + eexists. rewrite nth_error_app2 by lia. rewrite Nat.sub_diag.
      split; reflexivity.
Qed.


(** Every curve has 100 samples; the last one carries the multiplier it
    was built for; each earlier sample that is a number prints a value
    that is capped by that multiplier and, unless it is the cap itself,
    is at least 0.999 times the sample before it. *)
Lemma generateCrashCurve_spec (c d s : num) :
  let curve := fst (curveOf c d s) in
  List.length curve = 100%nat /\
  (exists pt, nth_error curve 99 = Some pt /\ Engine.multiplier pt = c) /\
  forall i q, (i <= 98)%nat -> nth_error curve i = Some q ->
    Engine.multiplier q <> NaN ->
    exists v,
      Engine.multiplier q = toFixed v 4 /\
      (v <=? c)%js = true /\
      forall p, (1 <= i)%nat -> nth_error curve (i - 1) = Some p ->
        v = c \/ (v >=? Engine.multiplier p * lit 0.999)%js = true.
Proof.
  unfold Engine.generateCrashCurve, bind, ret.
  set (g := (Math_log c / of_Z (Z.of_nat (Engine.points - 1)))%js).
  destruct (curveLoop_spec c d g (seq 0 Engine.points) [] s)
    as (curve0 & Hall & Hlen & Hk).
  destruct (Engine.curveLoop Math_exp c d g (seq 0 Engine.points) [] s)
    as [curve1 s1].
  cbn [fst app] in Hall |- *. subst curve1.
  rewrite length_seq in Hlen. change Engine.points with 100%nat in Hlen.
  assert (Hne : curve0 <> []) by (intros ->; discriminate Hlen).
  destruct (pinLast_spec curve0 c Hne) as (Hl & Hsame & pt & Hpt & Hm).
  rewrite Hlen in Hl, Hsame, Hpt. cbn [Nat.sub] in Hsame, Hpt.
  split; [exact Hl|split; [exists pt; split; assumption|]].
  intros i q Hi Hq Hnum.
  rewrite Hsame in Hq by lia.
  destruct (Hk i i) as (base & q' & Hq' & Hv).
  { rewrite nth_error_seq. change Engine.points with 100%nat.
    destruct (Nat.ltb_spec i 100); [reflexivity|lia]. }
  rewrite Hq in Hq'. injection Hq' as <-.
  cbn [app] in Hv.
  exists (Engine.clampSample c (firstn i curve0) i base).
  split; [exact Hv|].
  rewrite Hv in Hnum. apply toFixed_nan in Hnum.
  unfold Engine.clampSample in Hnum |- *.
  destruct (Math_min_spec _ _ Hnum) as [Hle Hcases].
  split; [exact Hle|].
  intros p H1 Hp. rewrite Hsame in Hp by lia.
  destruct Hcases as [Hc | [Hc Hm']]; [left; exact Hc|right].
  rewrite Hc. clear Hc Hle Hnum.
  destruct (Nat.ltb_spec 0 i) as [_|]; [|lia].
  rewrite nth_error_firstn in Hm' |- *.
  destruct (Nat.ltb_spec (i - 1) i) as [_|]; [|lia].
  rewrite Hp in Hm' |- *.
  apply Math_max_spec. exact Hm'.
Qed.

End CrashEngine.

(** The last sample of the curve carries the multiplier as it was drawn;
    the result reports that multiplier printed with four decimals. *)
Lemma generate_last_sample (Math_log Math_exp Math_cos : num -> num)
  (now : Clock) (options : Engine.Options) (g : Engine.GameResult) :
  Engine.generateCrashMultiplier Math_log Math_exp Math_cos now options = Ok g ->
  exists pt,
    nth_error (Engine.crashCurve g) 99 = Some pt /\
    Engine.multiplier pt = Engine.rawMultiplier Math_log Math_exp Math_cos now options /\
    Engine.crashMultiplier g =
      toFixed (Engine.rawMultiplier Math_log Math_exp Math_cos now options) 4.
Proof.
  intros Hg.
  destruct (generate_fields _ _ _ _ _ _ Hg) as (Hm & _ & _ & _ & Hc & _).
  destruct (generateCrashCurve_spec Math_log Math_exp
              (Engine.rawMultiplier Math_log Math_exp Math_cos now options)
              (Engine.calculateGameDuration Math_log
                 (Engine.rawMultiplier Math_log Math_exp Math_cos now options))
              (snd (Engine.outcomeOf Math_log Math_exp Math_cos now options)))
    as (_ & (pt & Hpt & Hraw) & _).
  rewrite <- Hc in Hpt.
  exists pt. split; [exact Hpt|split; [exact Hraw|exact Hm]].
Qed.

(** ** The crash engine on the scenario's round *)

(** A loss multiplier is [NaN] as soon as the argument of [Math.sqrt] in
    the Box-Muller step is negative, which it is when the draw behind
    [u1] is negative. *)
Lemma generateLossMultiplier_nan (Math_log Math_cos : num -> num) (s : num) :
  (lit (-2.0) * Math_log (lit 1 - fst (Engine.prng s)) <? lit 0)%js = true ->
  fst (Engine.generateLossMultiplier Math_log Math_cos s) = NaN.
Proof.
  intros H.
  unfold Engine.generateLossMultiplier, Engine.generateNormalDistribution, bind, ret.
  destruct (Engine.prng s) as [r1 s1]. cbn [fst] in H.
  destruct (Engine.prng s1) as [u2 s2]. cbn [fst].
  rewrite (sqrt_negative _ H), !mul_nan_l, add_nan_r.
  reflexivity.
Qed.

Lemma draw_loss (Math_log Math_exp Math_cos : num -> num)
  (lossBias maxWin : num) (finalSeed : Z) :
  (fst (Engine.prng (Engine.createDeterministicPRNG (of_Z finalSeed))) <? lossBias)%js = true ->
  snd (fst (Engine.drawOutcome Math_log Math_exp Math_cos lossBias maxWin finalSeed)) =
  fst (Engine.generateLossMultiplier Math_log Math_cos
         (snd (Engine.prng (Engine.createDeterministicPRNG (of_Z finalSeed))))).
Proof.
  unfold Engine.drawOutcome, bind, ret.
  destruct (Engine.prng _) as [r s]. cbn [fst snd]. intros ->.
  destruct (Engine.generateLossMultiplier _ _ _) as [m s']. reflexivity.
Qed.

(** C1: for a fixed round id, loss bias, maximum multiplier and seed, two
    calls of [generateCrashMultiplier] return the same multiplier,
    category, duration and curve, and for a fixed round id, loss bias,
    seed and history two calls of [generateWinningColor] return the same
    winning colour, category and seed: the only thing a call reads
    besides its options is the clock, and the clock reaches the time
    stamp alone.  This holds whatever the host's [Math] functions and the
    base seed of the colour engine are. *)
Theorem C1_outcomes_do_not_depend_on_the_clock
  (Math_log Math_exp Math_cos : num -> num) (BASE_SEED : num)
  (roundId : string) (lossBias maxWinMultiplier customSeed : option num)
  (recentWinners : option (list string)) (now1 now2 : Clock) :
  crashOutcome
    (Engine.generateCrashMultiplier Math_log Math_exp Math_cos now1
       (Engine.mkOptions lossBias maxWinMultiplier (Some roundId) customSeed))
  = crashOutcome
      (Engine.generateCrashMultiplier Math_log Math_exp Math_cos now2
         (Engine.mkOptions lossBias maxWinMultiplier (Some roundId) customSeed))
  /\
  colorOutcome
    (ColorEngine.generateWinningColor BASE_SEED now1
       (ColorEngine.mkOptions (Some roundId) lossBias customSeed recentWinners))
  = colorOutcome
      (ColorEngine.generateWinningColor BASE_SEED now2
         (ColorEngine.mkOptions (Some roundId) lossBias customSeed recentWinners)).
Proof.
  split.
  - unfold Engine.generateCrashMultiplier.
    cbn [Engine.roundIdOf Engine.opt_roundId Engine.opt_customSeed].
    destruct (_ || _)%bool; [reflexivity|].
    destruct (_ <? Engine.MIN_MULTIPLIER)%js; [reflexivity|].
    destruct (Engine.drawOutcome _ _ _ _ _ _) as [[isLoss raw] s].
    destruct (Engine.generateCrashCurve _ _ _ _ _) as [curve s'].
    reflexivity.
  - unfold ColorEngine.generateWinningColor.
    cbn [ColorEngine.opt_roundId ColorEngine.opt_customSeed].
    destruct (_ || _)%bool; [reflexivity|].
    destruct (ColorEngine.prng _) as [r s].
    destruct (if (r <? _)%js then _ else _) as [[color|] s']; reflexivity.
Qed.

(** C2: the engine on the round ["r1"] with loss bias 0.8, maximum
    multiplier 100 and the configured seed.  The seed [0xABCD1234 ^ 3583]
    is the negative 32-bit integer -1412620341, every draw of the
    generator is then negative, the round is a loss round, [u1] is
    1.0434333086013794, and the multiplier is [NaN] (so neither in
    [1.1, 2.0] nor in [1.0, 100]) for every host whose
    [-2.0 * Math.log(u1)] is negative at that [u1]. *)
Theorem C2_default_seed_multiplier_is_NaN
  (Math_log Math_exp Math_cos : num -> num) (now : Clock) :
  (lit (-2.0) * Math_log (lit 1.0434333086013794) <? lit 0)%js = true ->
  exists g,
    Engine.generateCrashMultiplier Math_log Math_exp Math_cos now
      (r1_options (lit 0.8) None) = Ok g /\
    Engine.seed g = -1412620341 /\
    Engine.roundType g = "loss" /\
    Engine.crashMultiplier g = NaN.
Proof.
  intros Hlog.
  destruct (generate_returns Math_log Math_exp Math_cos now (r1_options (lit 0.8) None))
    as [g Hg]; [vm_compute; reflexivity ..|].
  exists g. split; [exact Hg|].
  destruct (generate_fields _ _ _ _ _ _ Hg) as (Hm & _ & Htype & _ & _ & Hseed).
  unfold Engine.rawMultiplier, Engine.outcomeOf in Hm, Htype.
  assert (E : (fst (Engine.prng (Engine.createDeterministicPRNG
                 (of_Z (Engine.finalSeedOf (Engine.roundIdOf now (r1_options (lit 0.8) None))
                          (Engine.opt_customSeed (r1_options (lit 0.8) None))))))
               <? Engine.lossBiasOf (r1_options (lit 0.8) None))%js = true)
    by (vm_compute; reflexivity).
  rewrite draw_isLoss, E in Htype.
  split; [rewrite Hseed; vm_compute; reflexivity|].
  split; [exact Htype|].
  rewrite Hm, (draw_loss _ _ _ _ _ _ E), generateLossMultiplier_nan; [reflexivity|].
  replace (lit 1 - _)%js with (lit 1.0434333086013794)
    by (vm_compute; reflexivity).
  exact Hlog.
Qed.

Lemma C2_default_seed_multiplier_is_NaN_witness :
  (lit (-2.0) * RefMath.log (lit 1.0434333086013794) <? lit 0)%js = true /\
  exists g,
    Engine.generateCrashMultiplier RefMath.log RefMath.exp RefMath.cos 0
      (r1_options (lit 0.8) None) = Ok g /\
    Engine.seed g = -1412620341 /\
    Engine.roundType g = "loss" /\
    Engine.crashMultiplier g = NaN.
Proof.
  split; [vm_compute; reflexivity|].
  apply (C2_default_seed_multiplier_is_NaN RefMath.log RefMath.exp RefMath.cos 0).
  vm_compute; reflexivity.
Defined.

(** C3: the last sample of every returned curve carries the multiplier as
    it was drawn, while the result reports that multiplier printed with
    four decimals; the two differ whenever printing changes the value. *)
Theorem C3_last_sample_is_the_unrounded_multiplier
  (Math_log Math_exp Math_cos : num -> num) (now : Clock)
  (options : Engine.Options) (g : Engine.GameResult) :
  Engine.generateCrashMultiplier Math_log Math_exp Math_cos now options = Ok g ->
  let raw := Engine.rawMultiplier Math_log Math_exp Math_cos now options in
  exists pt,
    nth_error (Engine.crashCurve g) 99 = Some pt /\
    Engine.multiplier pt = raw /\
    Engine.crashMultiplier g = toFixed raw 4 /\
    (toFixed raw 4 <> raw -> Engine.multiplier pt <> Engine.crashMultiplier g).
Proof.
  intros Hg raw.
  destruct (generate_last_sample _ _ _ _ _ _ Hg) as (pt & Hpt & Hraw & Hm).
  exists pt. fold raw in Hraw, Hm.
  split; [exact Hpt|split; [exact Hraw|split; [exact Hm|]]].
  intros Hne Heq. apply Hne. rewrite <- Hm, <- Heq. exact Hraw.
Qed.

(** On the round ["r1"] with loss bias 0.8, maximum multiplier 100 and
    seed 0 the result reports 1.2653 and the curve ends on
    1.26528... *)
Lemma C3_last_sample_is_the_unrounded_multiplier_witness :
  exists g pt,
    Engine.generateCrashMultiplier RefMath.log RefMath.exp RefMath.cos 0
      (r1_options (lit 0.8) (Some (lit 0))) = Ok g /\
    nth_error (Engine.crashCurve g) 99 = Some pt /\
    Engine.crashMultiplier g = lit 1.2653 /\
    (lit 1.26528 <? Engine.multiplier pt)%js = true /\
    (Engine.multiplier pt <? lit 1.26529)%js = true /\
    Engine.multiplier pt <> Engine.crashMultiplier g.
Proof.
  destruct (generate_returns RefMath.log RefMath.exp RefMath.cos 0
              (r1_options (lit 0.8) (Some (lit 0))))
    as [g Hg]; [vm_compute; reflexivity ..|].
  destruct (C3_last_sample_is_the_unrounded_multiplier _ _ _ _ _ _ Hg)
    as (pt & Hpt & Hraw & Hm & Hdiff).
  assert (E : Engine.rawMultiplier RefMath.log RefMath.exp RefMath.cos 0
                (r1_options (lit 0.8) (Some (lit 0))) = lit 1.265284275479002)
    by (vm_compute; reflexivity).
  exists g, pt. split; [exact Hg|split; [exact Hpt|]].
  split; [rewrite Hm, E; vm_compute; reflexivity|].
  split; [rewrite Hraw, E; vm_compute; reflexivity|].
  split; [rewrite Hraw, E; vm_compute; reflexivity|].
  apply Hdiff. rewrite E. vm_compute. discriminate.
Defined.

(** Every returned curve has 100 samples and ends on the multiplier as
    it was drawn; each earlier sample that is a number is the
    four-decimal print of a value [v] that does not exceed that
    multiplier and that, unless it is that multiplier itself, is at least
    0.999 times the sample before it. *)
Lemma samples_print_clamped_values
  (Math_log Math_exp Math_cos : num -> num) (now : Clock)
  (options : Engine.Options) (g : Engine.GameResult) :
  Engine.generateCrashMultiplier Math_log Math_exp Math_cos now options = Ok g ->
  let raw := Engine.rawMultiplier Math_log Math_exp Math_cos now options in
  let curve := Engine.crashCurve g in
  Engine.crashMultiplier g = toFixed raw 4 /\
  List.length curve = 100%nat /\
  (exists pt, nth_error curve 99 = Some pt /\ Engine.multiplier pt = raw) /\
  forall i q, (i <= 98)%nat -> nth_error curve i = Some q ->
    Engine.multiplier q <> NaN ->
    exists v,
      Engine.multiplier q = toFixed v 4 /\
      (v <=? raw)%js = true /\
      forall p, (1 <= i)%nat -> nth_error curve (i - 1) = Some p ->
        v = raw \/ (v >=? Engine.multiplier p * lit 0.999)%js = true.
Proof.
  intros Hg raw curve.
  destruct (generate_fields _ _ _ _ _ _ Hg) as (Hm & _ & _ & _ & Hc & _).
  split; [exact Hm|].
  subst curve. rewrite Hc.
  apply generateCrashCurve_spec.
Qed.

(** C4: the engine on the round ["r1"] with loss bias 0.8, maximum
    multiplier 100 and seed 0.  Sample 20 of the returned curve is 1.0589
    and sample 21 is 1.0578.  Sample 21 is the four-decimal print of a
    value [v] that the clamp
    [Math.max(multiplier, curve[i - 1].multiplier * 0.999)] had kept at
    or above 0.999 x 1.0589 = 1.0578411; the print, which is what the
    curve stores, is below that bound. *)
Theorem C4_printed_sample_falls_below_the_clamp :
  exists g p q v,
    Engine.generateCrashMultiplier RefMath.log RefMath.exp RefMath.cos 0
      (r1_options (lit 0.8) (Some (lit 0))) = Ok g /\
    List.length (Engine.crashCurve g) = 100%nat /\
    nth_error (Engine.crashCurve g) 20 = Some p /\
    nth_error (Engine.crashCurve g) 21 = Some q /\
    Engine.multiplier p = lit 1.0589 /\
    Engine.multiplier q = lit 1.0578 /\
    Engine.multiplier q = toFixed v 4 /\
    (v >=? Engine.multiplier p * lit 0.999)%js = true /\
    (Engine.multiplier q >=? Engine.multiplier p * lit 0.999)%js = false.
Proof.
  destruct (generate_returns RefMath.log RefMath.exp RefMath.cos 0
              (r1_options (lit 0.8) (Some (lit 0))))
    as [g Hg]; [vm_compute; reflexivity ..|].
  destruct (samples_print_clamped_values _ _ _ _ _ _ Hg) as (_ & Hlen & _ & Hall).
  destruct (generate_fields _ _ _ _ _ _ Hg) as (_ & _ & _ & _ & Hc & _).
  assert (E : Engine.rawMultiplier RefMath.log RefMath.exp RefMath.cos 0
                (r1_options (lit 0.8) (Some (lit 0))) = lit 1.265284275479002)
    by (vm_compute; reflexivity).
  rewrite E in Hall.
  assert (Hp : nth_error (Engine.crashCurve g) 20 =
               Some (Engine.mkPoint (lit 229) (lit 1.0589)))
    by (rewrite Hc; vm_compute; reflexivity).
  assert (Hq : nth_error (Engine.crashCurve g) 21 =
               Some (Engine.mkPoint (lit 241) (lit 1.0578)))
    by (rewrite Hc; vm_compute; reflexivity).
  destruct (Hall 21%nat _ ltac:(lia) Hq) as (v & Hv & _ & Hprev).
  { vm_compute. discriminate. }
  exists g, (Engine.mkPoint (lit 229) (lit 1.0589)),
    (Engine.mkPoint (lit 241) (lit 1.0578)), v.
  split; [exact Hg|]. split; [exact Hlen|].
  split; [exact Hp|]. split; [exact Hq|].
  split; [reflexivity|]. split; [reflexivity|]. split; [exact Hv|].
  split; [|vm_compute; reflexivity].
  destruct (Hprev _ ltac:(lia) Hp) as [Hraw | Hge]; [|exact Hge].
  exfalso. rewrite Hraw in Hv. vm_compute in Hv. discriminate Hv.
Qed.

(** C5: the engine on the round ["r1"] with loss bias 0, maximum
    multiplier 100 and the configured seed: the seed is negative, so is
    the first draw, and the test [draw < 0] makes the round a loss round,
    whatever the host's [Math] functions are. *)
Theorem C5_zero_bias_round_is_loss
  (Math_log Math_exp Math_cos : num -> num) (now : Clock) :
  exists g,
    Engine.generateCrashMultiplier Math_log Math_exp Math_cos now
      (r1_options (lit 0) None) = Ok g /\
    Engine.seed g = -1412620341 /\
    (fst (Engine.prng (Engine.createDeterministicPRNG (of_Z (Engine.seed g))))
       <? lit 0)%js = true /\
    Engine.isLossRound g = true /\
    Engine.roundType g = "loss".
Proof.
  destruct (generate_returns Math_log Math_exp Math_cos now (r1_options (lit 0) None))
    as [g Hg]; [vm_compute; reflexivity ..|].
  exists g. split; [exact Hg|].
  destruct (generate_fields _ _ _ _ _ _ Hg) as (_ & Hloss & Htype & _ & _ & Hseed).
  unfold Engine.outcomeOf in Hloss, Htype.
  rewrite draw_isLoss in Hloss, Htype.
  assert (E : (fst (Engine.prng (Engine.createDeterministicPRNG
                 (of_Z (Engine.finalSeedOf (Engine.roundIdOf now (r1_options (lit 0) None))
                          (Engine.opt_customSeed (r1_options (lit 0) None))))))
               <? Engine.lossBiasOf (r1_options (lit 0) None))%js = true)
    by (vm_compute; reflexivity).
  rewrite E in Hloss, Htype.
  split; [rewrite Hseed; vm_compute; reflexivity|].
  split; [rewrite Hseed; exact E|].
  split; assumption.
Qed.

(** ** The colour engine *)

Lemma selectLoop_In (r cumulative : num) (colors : list ColorEngine.Color)
  (c : ColorEngine.Color) :
  ColorEngine.selectLoop r cumulative colors = Some c -> In c colors.
Proof.
  revert cumulative.
  induction colors as [|color rest IH]; intros cumulative; cbn [ColorEngine.selectLoop].
  - discriminate.
  - destruct (r <=? _)%js.
    + intros H; injection H as <-. left; reflexivity.
    + intros H. right. exact (IH _ H).
Qed.

Lemma selectColorByProbability_In (colors : list ColorEngine.Color) (s : num)
  (c : ColorEngine.Color) :
  fst (ColorEngine.selectColorByProbability colors s) = Some c -> In c colors.
Proof.
  unfold ColorEngine.selectColorByProbability, bind, ret.
  destruct (ColorEngine.prng s) as [r s']. cbn [fst].
  destruct (ColorEngine.selectLoop r (lit 0) colors) as [c'|] eqn:E.
  - intros H; injection H as <-. exact (selectLoop_In _ _ _ _ E).
  - apply nth_error_In.
Qed.

Lemma countConsecutiveWins_streak (c : string) (older : list string) :
  (3 <= ColorEngine.countConsecutiveWins c (older ++ [c; c; c]))%nat.
Proof.
  unfold ColorEngine.countConsecutiveWins.
  rewrite rev_app_distr. cbn [rev app].
  cbn [ColorEngine.countLeading]. rewrite String.eqb_refl. lia.
Qed.

Lemma selectWinningColor_breaks_streak (older : list string) (c : string)
  (s : num) (color : ColorEngine.Color) :
  fst (ColorEngine.selectWinningColor (older ++ [c; c; c]) s) = Some color ->
  ColorEngine.key color <> c.
Proof.
  unfold ColorEngine.selectWinningColor.
  assert (Hlen : (ColorEngine.MAX_CONSECUTIVE_WINS
                  <=? List.length (older ++ [c; c; c]))%nat = true).
  { apply Nat.leb_le. rewrite length_app.
    unfold ColorEngine.MAX_CONSECUTIVE_WINS. cbn [List.length]. lia. }
  rewrite Hlen.
  assert (Hlast : last (older ++ [c; c; c])%list EmptyString = c).
  { change (older ++ [c; c; c])%list with (older ++ [c; c] ++ [c])%list.
    rewrite app_assoc. apply last_last. }
  rewrite Hlast.
  assert (Hstreak : (ColorEngine.MAX_CONSECUTIVE_WINS
                     <=? ColorEngine.countConsecutiveWins c (older ++ [c; c; c]))%nat = true).
  { apply Nat.leb_le. unfold ColorEngine.MAX_CONSECUTIVE_WINS.
    apply countConsecutiveWins_streak. }
  rewrite Hstreak.
  intros H. apply selectColorByProbability_In in H.
  apply filter_In in H. destruct H as [_ H].
  apply negb_true_iff in H. apply String.eqb_neq in H. exact H.
Qed.

(** C6: when [generateWinningColor] takes the player-win branch and the
    three most recent entries of the history are the same colour, the
    winning colour it returns is not that colour. *)
Theorem C6_streak_colour_is_not_drawn (BASE_SEED : num) (now : Clock)
  (options : ColorEngine.Options) (g : ColorEngine.ColorResult)
  (older : list string) (c : string) :
  ColorEngine.opt_recentWinners options = Some (older ++ [c; c; c]) ->
  ColorEngine.generateWinningColor BASE_SEED now options = Ok g ->
  ColorEngine.isWinRound g = true ->
  ColorEngine.winningColor g <> c.
Proof.
  intros Hrecent. unfold ColorEngine.generateWinningColor. rewrite Hrecent.
  destruct (_ || _)%bool; [discriminate|].
  destruct (ColorEngine.prng _) as [r s].
  destruct (r <? _)%js.
  - destruct (ColorEngine.selectLosingColor _ s) as [[color|] s'];
      [|discriminate].
    intros H; injection H as <-. cbn. discriminate.
  - destruct (ColorEngine.selectWinningColor _ s) as [[color|] s'] eqn:E;
      [|discriminate].
    intros H _; injection H as <-. cbn [ColorEngine.winningColor].
    apply (selectWinningColor_breaks_streak older c s).
    rewrite E. reflexivity.
Qed.

Lemma C6_streak_colour_is_not_drawn_witness :
  exists g,
    ColorEngine.generateWinningColor (lit 1234) 0 streak_options = Ok g /\
    ColorEngine.isWinRound g = true /\
    ColorEngine.winningColor g <> "red".
Proof.
  destruct (ColorEngine.generateWinningColor (lit 1234) 0 streak_options)
    as [g|e] eqn:E; [|vm_compute in E; discriminate E].
  exists g. split; [reflexivity|].
  assert (Hwin : ColorEngine.isWinRound g = true)
    by (vm_compute in E; injection E as <-; reflexivity).
  split; [exact Hwin|].
  exact (C6_streak_colour_is_not_drawn (lit 1234) 0 streak_options g
           ["green"] "red" eq_refl E Hwin).
Defined.

(** ** Payouts *)







(** ** Cash-out *)

Lemma compare_none (x y : num) : SFcompare x y = None -> x = NaN \/ y = NaN.
Proof.
  destruct x as [sx|sx| |sx mx ex], y as [sy|sy| |sy my ey]; cbn;
    try discriminate; auto.
Qed.

Lemma cashoutTime_nan (c k d g : num) :
  c = NaN \/ k = NaN -> (c / k * g + d)%js = NaN.
Proof.
  intros [-> | ->].
  - reflexivity.
  - destruct c; reflexivity.
Qed.

(** C8: what the code does with a cash-out, and where it leaves the
    curve.  [validateCashout] answers [true] exactly when the cash-out
    multiplier is below the crash multiplier and its own estimate of the
    cash-out time, [cashoutMultiplier / crashMultiplier * gameDuration]
    plus the delay, is before the crash time; the controller then reports
    the profit [stake * cashoutMultiplier - stake] printed with two
    decimals, and otherwise the loss of the stake.  With stake 100,
    cash-out at 2.0, crash at 3.0, no delay and duration 10000 it reports
    success and profit 100.00, and with crash at 1.5 failure and profit
    -100.00.  The estimate is linear in the multiplier and is not the
    position of the multiplier along the curve of the round: the round
    ["r1"] with loss bias 0.8, maximum multiplier 100 and seed 57 crashes
    at 5.2319 after 9647 ms, a cash-out at 5.15 with the default delay of
    100 ms is accepted and pays 415.00, yet every sample of the curve of
    that round that lies at least the delay before the crash time is
    still below 5.15 (sample 98, at 9550 ms, is 5.1452). *)
Theorem C8_cashout_time_is_not_the_curve_position :
  (forall cashoutMultiplier crashMultiplier cashoutDelay gameDuration : num,
     Engine.validateCashout cashoutMultiplier crashMultiplier cashoutDelay gameDuration
     = ((cashoutMultiplier <? crashMultiplier)
        && (cashoutMultiplier / crashMultiplier * gameDuration + cashoutDelay
            <? gameDuration))%js%bool) /\
  (forall (cashoutData : Controller.CashoutData) (stake : num),
     Controller.betAmount cashoutData = Some stake -> truthy stake = true ->
     let r := Controller.validateCrashCashout cashoutData in
     Controller.profit r =
     if Controller.isValid r
     then toFixed (stake * Controller.cashoutMultiplier cashoutData - stake)%js 2
     else (- stake)%js) /\
  (let r := Controller.validateCrashCashout
              (Controller.mkCashoutData (lit 2.0) (lit 3.0) (Some (lit 0))
                 (Some (lit 10000)) (Some (lit 100))) in
   Controller.isValid r = true /\ Controller.profit r = lit 100.00) /\
  (let r := Controller.validateCrashCashout
              (Controller.mkCashoutData (lit 2.0) (lit 1.5) (Some (lit 0))
                 (Some (lit 10000)) (Some (lit 100))) in
   Controller.isValid r = false /\ Controller.profit r = lit (-100.00)) /\
  (exists g,
     Engine.generateCrashMultiplier RefMath.log RefMath.exp RefMath.cos 0
       (r1_options (lit 0.8) (Some (lit 57))) = Ok g /\
     Engine.crashMultiplier g = lit 5.2319 /\
     Engine.gameDuration g = lit 9647 /\
     nth_error (Engine.crashCurve g) 98 = Some (Engine.mkPoint (lit 9550) (lit 5.1452)) /\
     (let r := Controller.validateCrashCashout
                 (Controller.mkCashoutData (lit 5.15) (Engine.crashMultiplier g) None
                    (Some (Engine.gameDuration g)) (Some (lit 100))) in
      Controller.isValid r = true /\ Controller.profit r = lit 415.00) /\
     forall p, In p (Engine.crashCurve g) ->
       (Engine.time p + lit 100 <? Engine.gameDuration g)%js = true ->
       (Engine.multiplier p <? lit 5.15)%js = true).
Proof.
  split; [|split; [|split; [|split]]].
  - intros c k d g. unfold Engine.validateCashout, ge, le, lt, SFleb, SFltb.
    rewrite (SFcompare_antisym c k).
    destruct (SFcompare c k) as [[ | | ]|] eqn:E; cbn [option_map CompOpp andb];
      try reflexivity.
    apply compare_none in E. rewrite (cashoutTime_nan c k d g E). reflexivity.
  - intros data stake Hb Ht. unfold Controller.validateCrashCashout.
    cbn [Controller.profit Controller.isValid]. rewrite Hb.
    destruct (Engine.validateCashout _ _ _ _).
    + unfold or_else. rewrite Ht. reflexivity.
    + unfold or_else. destruct stake; try discriminate Ht; reflexivity.
  - split; vm_compute; reflexivity.
  - split; vm_compute; reflexivity.
  - destruct (generate_returns RefMath.log RefMath.exp RefMath.cos 0
                (r1_options (lit 0.8) (Some (lit 57))))
      as [g Hg]; [vm_compute; reflexivity ..|].
    destruct (generate_fields _ _ _ _ _ _ Hg) as (Hm & _ & _ & Hd & Hc & _).
    assert (Em : Engine.crashMultiplier g = lit 5.2319)
      by (rewrite Hm; vm_compute; reflexivity).
    assert (Ed : Engine.gameDuration g = lit 9647)
      by (rewrite Hd; vm_compute; reflexivity).
    exists g. split; [exact Hg|]. split; [exact Em|]. split; [exact Ed|].
    split; [rewrite Hc; vm_compute; reflexivity|].
    rewrite Em, Ed. split; [split; vm_compute; reflexivity|].
    assert (Hall : forallb (fun p => implb (Engine.time p + lit 100 <? lit 9647)%js
                                       (Engine.multiplier p <? lit 5.15)%js)
                     (Engine.crashCurve g) = true)
      by (rewrite Hc; vm_compute; reflexivity).
    rewrite forallb_forall in Hall.
    intros p Hin Hp. specialize (Hall p Hin). rewrite Hp in Hall. exact Hall.
Qed.

(** ** Rounds *)

(** C9: a call of [start], [end] or [complete] on a round that is not in
    the state the method requires returns [false] and leaves the round as
    it was. *)
Theorem C9_out_of_order_call_fails (Math_log Math_exp Math_cos : num -> num)
  (m : Rounds.Method) (now : Clock) (r : Rounds.Round) :
  Rounds.state r <> Rounds.requiredState m ->
  Rounds.call Math_log Math_exp Math_cos m now r = (false, r).
Proof.
  intros H.
  destruct m; unfold Rounds.call, Rounds.start, Rounds.end_, Rounds.complete;
    cbn [Rounds.requiredState] in H;
    destruct (Rounds.state r); cbn [Rounds.RoundState_eqb negb];
    try reflexivity; contradiction H; reflexivity.
Qed.

(** [end] on a round that is still idle. *)
Lemma C9_out_of_order_call_fails_witness :
  Rounds.state (Rounds.newRound "r1" None None) = Rounds.IDLE /\
  Rounds.call RefMath.log RefMath.exp RefMath.cos Rounds.End 0
    (Rounds.newRound "r1" None None)
  = (false, Rounds.newRound "r1" None None).
Proof.
  split; [reflexivity|].
  apply (C9_out_of_order_call_fails RefMath.log RefMath.exp RefMath.cos
           Rounds.End 0 (Rounds.newRound "r1" None None)).
  cbn. discriminate.
Defined.

(** ** Settlement *)

Lemma settleBets_stops (now : Clock) (winningColor : string)
  (bad : Controller.Bet) (post : list Controller.Bet) (e : string) :
  ColorEngine.calculateColorPayout
    (ColorEngine.mkBetData (Controller.color bad) (Controller.amount bad))
    winningColor = Throw e ->
  forall (pre : list Controller.Bet) (totalPayout : num),
  Forall (fun b => exists p,
            ColorEngine.calculateColorPayout
              (ColorEngine.mkBetData (Controller.color b) (Controller.amount b))
              winningColor = Ok p) pre ->
  Controller.settleBets now winningColor (pre ++ bad :: post) totalPayout
  = (map (settledOr now winningColor) pre ++ bad :: post, Throw e).
Proof.
  intros Hbad pre. induction pre as [|b pre IH]; intros totalPayout Hpre.
  - cbn [app map Controller.settleBets]. rewrite Hbad. reflexivity.
  - inversion Hpre as [|b' pre' [p Hp] Hrest]; subst.
    cbn [app map Controller.settleBets]. rewrite Hp.
    rewrite (IH _ Hrest).
    assert (Hs : settledOr now winningColor b = Controller.settled now b p)
      by (unfold settledOr; rewrite Hp; reflexivity).
    rewrite Hs. reflexivity.
Qed.

(** C10, as amended: when the payout of a wager of a completed round
    cannot be computed (its stake is out of bounds), the exception leaves
    [processColorRoundPayouts]: the wagers before it are settled, that
    wager and all wagers after it are left as they were, and the total
    payout of the round is not updated. *)
Theorem C10_malformed_wager_aborts_settlement (now : Clock)
  (round : Controller.ColorRound) (pre : list Controller.Bet)
  (bad : Controller.Bet) (post : list Controller.Bet) (e : string) :
  Controller.bets round = pre ++ bad :: post ->
  Forall (fun b => exists p,
            ColorEngine.calculateColorPayout
              (ColorEngine.mkBetData (Controller.color b) (Controller.amount b))
              (Controller.winningColor round) = Ok p) pre ->
  ColorEngine.calculateColorPayout
    (ColorEngine.mkBetData (Controller.color bad) (Controller.amount bad))
    (Controller.winningColor round) = Throw e ->
  Controller.processColorRoundPayouts now round
  = (Controller.mkColorRound (Controller.roundId round)
       (Controller.winningColor round)
       (map (settledOr now (Controller.winningColor round)) pre ++ bad :: post)
       (Controller.statistics round),
     Throw e).
Proof.
  intros Hbets Hpre Hbad. unfold Controller.processColorRoundPayouts.
  rewrite Hbets.
  rewrite (settleBets_stops now _ bad post e Hbad pre (lit 0) Hpre).
  destruct pre; reflexivity.
Qed.

Lemma C10_malformed_wager_aborts_settlement_witness :
  Controller.processColorRoundPayouts 7 mixedRound
  = (Controller.mkColorRound "color_round_1" "red"
       [Controller.mkBet "b1" "red" (lit 10) "pending" (Some "win")
          (Some (lit 19)) (Some (lit 9)) (Some 7);
        pendingBet "b2" "green" (lit 0);
        pendingBet "b3" "red" (lit 20)]
       (Controller.mkRoundStatistics (lit 3) (lit 30) (lit 0)),
     Throw "Bet amount must be at least 1").
Proof.
  rewrite (C10_malformed_wager_aborts_settlement 7 mixedRound
             [pendingBet "b1" "red" (lit 10)] (pendingBet "b2" "green" (lit 0))
             [pendingBet "b3" "red" (lit 20)] "Bet amount must be at least 1"
             eq_refl).
  - vm_compute. reflexivity.
  - constructor; [|constructor]. eexists. vm_compute. reflexivity.
  - vm_compute. reflexivity.
Defined.

(** In a round of three wagers whose second has a stake of zero the call
    throws; the second wager carries no mark and the third, whose payout
    could be computed, is not settled. *)
Lemma C10_counterexample :
  exists round',
    Controller.processColorRoundPayouts 7 mixedRound
    = (round', Throw "Bet amount must be at least 1") /\
    nth_error (Controller.bets round') 1 = Some (pendingBet "b2" "green" (lit 0)) /\
    nth_error (Controller.bets round') 2 = Some (pendingBet "b3" "red" (lit 20)) /\
    Controller.betResult (pendingBet "b3" "red" (lit 20)) = None /\
    (exists p,
       ColorEngine.calculateColorPayout (ColorEngine.mkBetData "red" (lit 20)) "red"
       = Ok p).
Proof.
  eexists. split; [vm_compute; reflexivity|].
  repeat split. eexists. vm_compute. reflexivity.
Qed.

(** ** The colour timeline and the colour set *)

Lemma pinWinner_spec (timeline tl : list ColorEngine.TimelineEntry) (w : string) :
  ColorEngine.pinWinner timeline w = Ok tl ->
  tl = [] \/ exists before e, tl = before ++ [e] /\ ColorEngine.entryColor e = w.
Proof.
  unfold ColorEngine.pinWinner.
  destruct (rev timeline) as [|e before] eqn:R.
  - intros H; injection H as <-. left.
    apply (f_equal (@rev _)) in R. rewrite rev_involutive in R. exact R.
  - destruct (ColorEngine.lookup w) as [c|]; [|discriminate].
    intros H; injection H as <-. right. eexists _, _. split; reflexivity.
Qed.

(** A timeline that is returned and is not empty ends on the winning
    colour. *)
Theorem timeline_ends_on_the_winning_colour (winningColor : string)
  (roundDuration s : num) (timeline : list ColorEngine.TimelineEntry) :
  ColorEngine.generateColorTimeline winningColor roundDuration s = Some (Ok timeline) ->
  timeline = [] \/
  exists before e,
    timeline = before ++ [e] /\ ColorEngine.entryColor e = winningColor.
Proof.
  unfold ColorEngine.generateColorTimeline.
  destruct (ColorEngine.iterations _) as [n|]; [|discriminate].
  destruct (ColorEngine.timelineLoop _ _ _ _ _ _ _) as [tl|e]; [|discriminate].
  intros H; injection H as H. exact (pinWinner_spec _ _ _ H).
Qed.

Lemma timeline_ends_on_the_winning_colour_witness :
  exists timeline before e,
    ColorEngine.generateColorTimeline "green" (lit 10000) (lit 3583)
      = Some (Ok timeline) /\
    List.length timeline = 50%nat /\
    timeline = before ++ [e] /\ ColorEngine.entryColor e = "green".
Proof.
  destruct (ColorEngine.generateColorTimeline "green" (lit 10000) (lit 3583))
    as [[timeline|err]|] eqn:E;
    [|vm_compute in E; discriminate E ..].
  destruct (timeline_ends_on_the_winning_colour _ _ _ _ E)
    as [Hnil | (before & e & Hsplit & Hcolor)].
  - subst timeline. vm_compute in E. discriminate E.
  - exists timeline, before, e. split; [reflexivity|].
    split; [|split; assumption].
    vm_compute in E. injection E as <-. reflexivity.
Defined.

(** The winning colour of a returned result is one of the configured
    colours. *)
Theorem winning_colour_is_configured (BASE_SEED : num) (now : Clock)
  (options : ColorEngine.Options) (g : ColorEngine.ColorResult) :
  ColorEngine.generateWinningColor BASE_SEED now options = Ok g ->
  In (ColorEngine.winningColor g) ["red"; "green"; "violet"].
Proof.
  unfold ColorEngine.generateWinningColor.
  destruct (_ || _)%bool; [discriminate|].
  destruct (ColorEngine.prng _) as [r s].
  destruct (if (r <? _)%js then _ else _) as [[color|] s']; [|discriminate].
  intros H; injection H as <-. cbn [ColorEngine.winningColor].
  destruct color; cbn; auto.
Qed.

Lemma winning_colour_is_configured_witness :
  exists g,
    ColorEngine.generateWinningColor (lit 1234) 0 streak_options = Ok g /\
    In (ColorEngine.winningColor g) ["red"; "green"; "violet"].
Proof.
  destruct (ColorEngine.generateWinningColor (lit 1234) 0 streak_options)
    as [g|e] eqn:E; [|vm_compute in E; discriminate E].
  exists g. split; [reflexivity|].
  exact (winning_colour_is_configured (lit 1234) 0 streak_options g E).
Defined.

(** ** Bounds and configuration errors of the crash engine *)

Lemma clamp_bounds (x lo hi : num) :
  (lo <=? hi)%js = true ->
  Math_min (Math_max x lo) hi <> NaN ->
  (lo <=? Math_min (Math_max x lo) hi)%js = true /\
  (Math_min (Math_max x lo) hi <=? hi)%js = true.
Proof.
  intros Hlohi Hnum.
  destruct (Math_min_spec _ _ Hnum) as [Hle [Heq | [Heq Hmax]]].
  - split; [rewrite Heq; exact Hlohi|exact Hle].
  - split; [|exact Hle]. rewrite Heq. exact (Math_max_spec _ _ Hmax).
Qed.

(** The multiplier of a loss round, before it is printed, lies in
    [1.1, 2.0] whenever it is a number. *)
Theorem loss_multiplier_within_bounds
  (Math_log Math_exp Math_cos : num -> num) (now : Clock)
  (options : Engine.Options) (g : Engine.GameResult) :
  Engine.generateCrashMultiplier Math_log Math_exp Math_cos now options = Ok g ->
  Engine.isLossRound g = true ->
  let raw := Engine.rawMultiplier Math_log Math_exp Math_cos now options in
  raw <> NaN ->
  (lit 1.1 <=? raw)%js = true /\ (raw <=? lit 2.0)%js = true.
Proof.
  intros Hg Hloss raw.
  destruct (generate_fields _ _ _ _ _ _ Hg) as (_ & Hl & _).
  rewrite Hloss in Hl. symmetry in Hl.
  unfold Engine.outcomeOf in Hl. rewrite draw_isLoss in Hl.
  subst raw. unfold Engine.rawMultiplier, Engine.outcomeOf.
  rewrite (draw_loss _ _ _ _ _ _ Hl).
  unfold Engine.generateLossMultiplier, bind, ret.
  destruct (Engine.generateNormalDistribution _ _ _) as [normalValue s'].
  cbn [fst]. apply clamp_bounds. vm_compute. reflexivity.
Qed.

Lemma loss_multiplier_within_bounds_witness :
  exists g,
    Engine.generateCrashMultiplier RefMath.log RefMath.exp RefMath.cos 0
      (r1_options (lit 0.8) (Some (lit 0))) = Ok g /\
    Engine.isLossRound g = true /\
    (lit 1.1 <=? lit 1.265284275479002)%js = true /\
    (lit 1.265284275479002 <=? lit 2.0)%js = true.
Proof.
  destruct (generate_returns RefMath.log RefMath.exp RefMath.cos 0
              (r1_options (lit 0.8) (Some (lit 0))))
    as [g Hg]; [vm_compute; reflexivity ..|].
  assert (Hloss : Engine.isLossRound g = true).
  { destruct (generate_fields _ _ _ _ _ _ Hg) as (_ & Hl & _).
    rewrite Hl. vm_compute. reflexivity. }
  assert (E : Engine.rawMultiplier RefMath.log RefMath.exp RefMath.cos 0
                (r1_options (lit 0.8) (Some (lit 0))) = lit 1.265284275479002)
    by (vm_compute; reflexivity).
  exists g. split; [exact Hg|split; [exact Hloss|]].
  rewrite <- E.
  apply (loss_multiplier_within_bounds _ _ _ _ _ _ Hg Hloss).
  rewrite E. vm_compute. discriminate.
Defined.

(** A loss bias outside [0, 1] or a maximum multiplier below 1 is
    rejected before anything is generated. *)
Theorem invalid_configuration_is_rejected
  (Math_log Math_exp Math_cos : num -> num) (now : Clock)
  (options : Engine.Options) :
  ((Engine.lossBiasOf options <? lit 0)
   || (Engine.lossBiasOf options >? lit 1)
   || (Engine.maxWinMultiplierOf options <? lit 1.0))%js%bool = true ->
  exists message,
    Engine.generateCrashMultiplier Math_log Math_exp Math_cos now options
    = Throw message.
Proof.
  intros H. unfold Engine.generateCrashMultiplier.
  change Engine.MIN_MULTIPLIER with (lit 1.0).
  destruct ((Engine.lossBiasOf options <? lit 0)%js
            || (Engine.lossBiasOf options >? lit 1)%js)%bool;
    [eexists; reflexivity|].
  cbn [orb] in H. rewrite H. eexists; reflexivity.
Qed.

Lemma invalid_configuration_is_rejected_witness :
  exists message,
    Engine.generateCrashMultiplier RefMath.log RefMath.exp RefMath.cos 0
      (r1_options (lit 1.5) None)
    = Throw message.
Proof.
  apply invalid_configuration_is_rejected. vm_compute. reflexivity.
Defined.

(** * Rounding

    What rounding to the format does to an exact value: the result is a
    number of the format, and no number of the format lies strictly
    between the exact value and the result. *)

(** ** Digits *)

Lemma digits2_size (p : positive) : digits2_pos p = Pos.size p.
Proof. induction p; cbn; congruence. Qed.

Lemma digits2_bounds (p : positive) :
  2 ^ (Zpos (digits2_pos p) - 1) <= Zpos p < 2 ^ Zpos (digits2_pos p).
Proof.
  induction p as [p IH|p IH|]; cbn [digits2_pos].
  - rewrite Pos2Z.inj_succ.
    replace (Z.succ (Zpos (digits2_pos p)) - 1) with (Z.succ (Zpos (digits2_pos p) - 1)) by lia.
    rewrite !Z.pow_succ_r by lia. lia.
  - rewrite Pos2Z.inj_succ.
    replace (Z.succ (Zpos (digits2_pos p)) - 1) with (Z.succ (Zpos (digits2_pos p) - 1)) by lia.
    rewrite !Z.pow_succ_r by lia. lia.
  - cbn. lia.
Qed.

Lemma Zdigits2_nonneg (m : Z) : 0 <= Zdigits2 m.
Proof. destruct m; cbn; lia. Qed.

Lemma Zdigits2_upper (m : Z) : 0 <= m -> m < 2 ^ Zdigits2 m.
Proof.
  destruct m as [|p|p]; intros H; cbn [Zdigits2]; [reflexivity| |lia].
  apply digits2_bounds.
Qed.

Lemma Zdigits2_lower (m : Z) : 0 < m -> 2 ^ (Zdigits2 m - 1) <= m.
Proof.
  destruct m as [|p|p]; intros H; cbn [Zdigits2]; [lia| |lia].
  apply digits2_bounds.
Qed.

(** If [2^(k-1) <= m < 2^k], then [m] has [k] digits. *)
Lemma Zdigits2_unique (m k : Z) : 0 < m -> 2 ^ (k - 1) <= m < 2 ^ k -> Zdigits2 m = k.
Proof.
  intros Hm [Hl Hu].
  pose proof (Zdigits2_upper m ltac:(lia)) as U.
  pose proof (Zdigits2_lower m Hm) as L.
  pose proof (Zdigits2_nonneg m) as P.
  assert (0 <= k).
  { destruct (Z.ltb_spec k 0); [|lia]. rewrite Z.pow_neg_r in Hu by lia. lia. }
  destruct (Z.lt_trichotomy (Zdigits2 m) k) as [C|[C|C]]; [|exact C|].
  - assert (2 ^ Zdigits2 m <= 2 ^ (k - 1)) by (apply Z.pow_le_mono_r; lia). lia.
  - assert (2 ^ k <= 2 ^ (Zdigits2 m - 1)) by (apply Z.pow_le_mono_r; lia). lia.
Qed.

Lemma Zdigits2_le_iff (m k : Z) : 0 <= m -> 0 <= k -> (Zdigits2 m <= k <-> m < 2 ^ k).
Proof.
  intros Hm Hk. split.
  - intros H. pose proof (Zdigits2_upper m Hm).
    assert (2 ^ Zdigits2 m <= 2 ^ k) by (apply Z.pow_le_mono_r; lia). lia.
  - intros H. destruct (Z.eqb_spec m 0) as [->|Hn]; [cbn; lia|].
    pose proof (Zdigits2_lower m ltac:(lia)).
    destruct (Z.leb_spec (Zdigits2 m) k); [assumption|].
    assert (2 ^ k <= 2 ^ (Zdigits2 m - 1)) by (apply Z.pow_le_mono_r; lia). lia.
Qed.

(** ** Locations *)

Lemma shr_1_located (mrs : shr_record) (N D : Z) :
  located mrs N D -> located (shr_1 mrs) N (2 * D).
Proof.
  intros (HD & HN & Hm & Hl).
  assert (Hdiv : N / (2 * D) = (N / D) / 2).
  { rewrite (Z.mul_comm 2 D), Z.div_div by lia. reflexivity. }
  assert (Hmod : N mod (2 * D) = N mod D + D * ((N / D) mod 2)).
  { rewrite (Z.mul_comm 2 D). apply Z.rem_mul_r; lia. }
  pose proof (Z.mod_pos_bound N D HD) as Hr.
  pose proof (Z.div_pos N D HN HD) as Hq.
  destruct mrs as [m r s]. cbn [shr_m] in Hm. cbn [loc_of_shr_record] in Hl.
  assert (Hs : orb r s = negb (N mod D =? 0)).
  { unfold loc_of in Hl. destruct (N mod D =? 0); destruct r, s; try discriminate; reflexivity. }
  unfold located. split; [lia|split; [lia|]].
  rewrite Hdiv, Hmod, <- Hm.
  destruct m as [|[p|p|]|p]; cbn [shr_1 shr_m]; try lia.
  - (* 0 *) split; [reflexivity|]. rewrite Hs. cbn [loc_of_shr_record].
    change (0 mod 2) with 0. rewrite Z.mul_0_r, Z.add_0_r.
    unfold loc_of. destruct (Z.eqb_spec (N mod D) 0); cbn [negb]; [reflexivity|].
    f_equal. symmetry. apply Z.compare_lt_iff. lia.
  - (* xI *) split; [rewrite Pos2Z.inj_xI; apply Z.div_unique with 1; lia|].
    rewrite Hs. cbn [loc_of_shr_record].
    replace (Z.pos p~1 mod 2) with 1 by (rewrite Pos2Z.inj_xI; apply Z.mod_unique with (Zpos p); lia).
    unfold loc_of. destruct (Z.eqb_spec (N mod D) 0) as [E|E]; cbn [negb].
    + rewrite E. destruct (Z.eqb_spec (0 + D * 1) 0); [lia|].
      f_equal. symmetry. apply Z.compare_eq_iff. lia.
    + destruct (Z.eqb_spec (N mod D + D * 1) 0); [lia|].
      f_equal. symmetry. apply Z.compare_gt_iff. lia.
  - (* xO *) split; [rewrite Pos2Z.inj_xO; apply Z.div_unique with 0; lia|].
    rewrite Hs. cbn [loc_of_shr_record].
    replace (Z.pos p~0 mod 2) with 0 by (rewrite Pos2Z.inj_xO; apply Z.mod_unique with (Zpos p); lia).
    rewrite Z.mul_0_r, Z.add_0_r.
    unfold loc_of. destruct (Z.eqb_spec (N mod D) 0); cbn [negb]; [reflexivity|].
    f_equal. symmetry. apply Z.compare_lt_iff. lia.
  - (* 1 *) split; [reflexivity|].
    rewrite Hs. cbn [loc_of_shr_record]. change (1 mod 2) with 1.
    unfold loc_of. destruct (Z.eqb_spec (N mod D) 0) as [E|E]; cbn [negb].
    + rewrite E. destruct (Z.eqb_spec (0 + D * 1) 0); [lia|].
      f_equal. symmetry. apply Z.compare_eq_iff. lia.
    + destruct (Z.eqb_spec (N mod D + D * 1) 0); [lia|].
      f_equal. symmetry. apply Z.compare_gt_iff. lia.
Qed.

Lemma iter_pos_located (p : positive) :
  forall (mrs : shr_record) (N D : Z),
  located mrs N D -> located (iter_pos shr_1 p mrs) N (2 ^ Zpos p * D).
Proof.
  induction p as [p IH|p IH|]; intros mrs N D H; cbn [iter_pos].
  - apply shr_1_located in H. apply IH in H. apply IH in H.
    replace (2 ^ Zpos p~1 * D) with (2 ^ Zpos p * (2 ^ Zpos p * (2 * D))); [exact H|].
    rewrite (Pos2Z.inj_xI p), Z.pow_add_r, Z.pow_mul_r by lia.
    change (2 ^ 2) with 4. change (2 ^ 1) with 2.
    replace 4 with (2 * 2) by reflexivity. rewrite Z.pow_mul_l. ring.
  - apply IH in H. apply IH in H.
    replace (2 ^ Zpos p~0 * D) with (2 ^ Zpos p * (2 ^ Zpos p * D)); [exact H|].
    rewrite (Pos2Z.inj_xO p), Z.pow_mul_r by lia.
    change (2 ^ 2) with 4. replace 4 with (2 * 2) by reflexivity.
    rewrite Z.pow_mul_l. ring.
  - apply shr_1_located in H. exact H.
Qed.

Lemma shr_located (mrs : shr_record) (e n N D : Z) :
  located mrs N D ->
  located (fst (shr mrs e n)) N (2 ^ Z.max 0 n * D) /\
  snd (shr mrs e n) = e + Z.max 0 n.
Proof.
  intros H. destruct n as [|p|p]; cbn [shr fst snd Z.max Z.compare].
  - rewrite Z.mul_1_l. split; [exact H|lia].
  - split; [apply iter_pos_located; exact H|reflexivity].
  - change (2 ^ 0) with 1. rewrite Z.mul_1_l. split; [exact H|lia].
Qed.

Lemma shr_record_of_loc_located (m : Z) (l : location) (N D : Z) :
  0 < D -> 0 <= N -> m = N / D -> l = loc_of (N mod D) D ->
  located (shr_record_of_loc m l) N D.
Proof.
  intros HD HN Hm Hl. repeat split; try assumption.
  - destruct l as [|[ | | ]]; cbn; assumption.
  - rewrite <- Hl. destruct l as [|[ | | ]]; reflexivity.
Qed.

(** Rounding to nearest, ties to even, of [N / D]. *)
Lemma round_nearest_even_spec (mrs : shr_record) (N D : Z) :
  located mrs N D ->
  let M := round_nearest_even (shr_m mrs) (loc_of_shr_record mrs) in
  shr_m mrs <= M <= shr_m mrs + 1 /\
  (forall K, N <= K * D -> M <= K) /\
  (forall K, K * D <= N -> K <= M).
Proof.
  intros (HD & HN & Hm & Hl) M.
  pose proof (Z.mod_pos_bound N D HD) as Hr.
  pose proof (Z.div_mod N D ltac:(lia)) as E.
  assert (HM : shr_m mrs <= M <= shr_m mrs + 1 /\ (M = shr_m mrs + 1 -> 0 < N mod D)).
  { subst M. rewrite Hl. unfold loc_of.
    destruct (Z.eqb_spec (N mod D) 0) as [Z0|NZ]; cbn [round_nearest_even]; [lia|].
    destruct (2 * (N mod D) ?= D); [destruct (Z.even _)| |]; lia. }
  destruct HM as [HM1 HM2]. split; [exact HM1|split].
  - intros K HK.
    destruct (Z.eq_dec M (shr_m mrs + 1)) as [C|C].
    + specialize (HM2 C). nia.
    + assert (M = N / D) by lia. nia.
  - intros K HK. assert (K <= N / D) by nia. lia.
Qed.

Lemma pow2_pos (e : Z) : (0 < 2 ^ e)%Q.
Proof. apply Qpower_0_lt. reflexivity. Qed.

Lemma pow2_add (a b : Z) : (2 ^ (a + b) == 2 ^ a * 2 ^ b)%Q.
Proof. apply Qpower_plus. discriminate. Qed.

Lemma pow2_inject (k : Z) : 0 <= k -> (inject_Z (2 ^ k) == 2 ^ k)%Q.
Proof. intros H. rewrite Zpower_Qpower by exact H. reflexivity. Qed.

Lemma pow2_le (a b : Z) : a <= b -> (2 ^ a <= 2 ^ b)%Q.
Proof. intros H. apply Qpower_le_compat_l; [exact H|]. discriminate. Qed.

Lemma pow2_lt_inv (a b : Z) : (2 ^ a < 2 ^ b)%Q -> a < b.
Proof. intros H. apply (Qpower_lt_compat_l_inv 2); [exact H|reflexivity]. Qed.

Lemma F2Q_scale (m e k : Z) : 0 <= k -> (F2Q (m * 2 ^ k) e == F2Q m (e + k))%Q.
Proof.
  intros H. unfold F2Q. rewrite inject_Z_mult, pow2_inject, pow2_add by exact H. ring.
Qed.

Lemma F2Q_le (m1 m2 e : Z) : m1 <= m2 <-> (F2Q m1 e <= F2Q m2 e)%Q.
Proof.
  unfold F2Q. pose proof (pow2_pos e) as P. split; intros H.
  - apply Qmult_le_compat_r; [rewrite <- Zle_Qle; exact H|lra].
  - apply Qmult_le_r in H; [rewrite <- Zle_Qle in H; exact H|exact P].
Qed.

Lemma F2Q_lt (m1 m2 e : Z) : m1 < m2 <-> (F2Q m1 e < F2Q m2 e)%Q.
Proof.
  unfold F2Q. pose proof (pow2_pos e) as P. split; intros H.
  - apply Qmult_lt_compat_r; [exact P|rewrite <- Zlt_Qlt; exact H].
  - apply Qmult_lt_r in H; [rewrite <- Zlt_Qlt in H; exact H|exact P].
Qed.

(** The magnitude of a positive mantissa. *)
Lemma F2Q_mag (m e : Z) : 0 < m ->
  (2 ^ (Zdigits2 m + e - 1) <= F2Q m e /\ F2Q m e < 2 ^ (Zdigits2 m + e))%Q.
Proof.
  intros Hm.
  pose proof (Zdigits2_lower m Hm) as L.
  pose proof (Zdigits2_upper m ltac:(lia)) as U.
  assert (P : 1 <= Zdigits2 m) by (destruct m; cbn; lia).
  split.
  - replace (Zdigits2 m + e - 1) with ((Zdigits2 m - 1) + e) by lia.
    rewrite pow2_add, <- pow2_inject by lia.
    apply (F2Q_le (2 ^ (Zdigits2 m - 1)) m e). exact L.
  - rewrite pow2_add, <- pow2_inject by lia.
    apply (F2Q_lt m (2 ^ Zdigits2 m) e). lia.
Qed.

(** ** The format *)

Lemma fexp_eq (k : Z) : fexp prec emax k = Z.max (k - 53) (-1074).
Proof. reflexivity. Qed.

Lemma fexp_mono (a b : Z) : a <= b -> fexp prec emax a <= fexp prec emax b.
Proof. rewrite !fexp_eq. lia. Qed.

Lemma bounded_spec (m : positive) (e : Z) :
  bounded prec emax m e = true <->
  (Zdigits2 (Zpos m) <= 53 /\ -1074 <= e <= 971 /\ (Zdigits2 (Zpos m) = 53 \/ e = -1074)).
Proof.
  unfold bounded, canonical_mantissa. rewrite fexp_eq. cbn [Zdigits2].
  change (emax - prec) with 971.
  rewrite andb_true_iff, Z.eqb_eq, Z.leb_le. lia.
Qed.

Lemma shr_nonpos (mrs : shr_record) (e n : Z) : n <= 0 -> shr mrs e n = (mrs, e).
Proof. destruct n; [reflexivity|lia|reflexivity]. Qed.

Lemma round_core (s : bool) (m e : Z) (l : location) (N D : Z) :
  0 < D -> 0 <= N -> m = N / D -> l = loc_of (N mod D) D ->
  e <= fexp prec emax (Zdigits2 m + e) ->
  let e1 := fexp prec emax (Zdigits2 m + e) in
  let D1 := 2 ^ (e1 - e) * D in
  exists M,
    0 <= M <= 2 ^ 53 /\
    (-1074 < e1 -> 2 ^ 52 <= M) /\
    (forall K, N <= K * D1 -> M <= K) /\
    (forall K, K * D1 <= N -> K <= M) /\
    binary_round_aux prec emax s m e l = round_result s M e1.
Proof.
  intros HD HN Hm Hl H e1 D1.
  assert (Hm0 : 0 <= m) by (subst m; apply Z.div_pos; lia).
  pose proof (shr_record_of_loc_located m l N D HD HN Hm Hl) as L0.
  destruct (shr_located _ e (e1 - e) N D L0) as [L1 E1].
  rewrite Z.max_r in L1, E1 by (subst e1; lia).
  fold D1 in L1.
  unfold binary_round_aux, shr_fexp. fold e1.
  destruct (shr (shr_record_of_loc m l) e (e1 - e)) as [mrs1 e1'].
  cbn [fst snd] in L1, E1. replace e1' with e1 by lia. clear e1' E1.
  pose proof (round_nearest_even_spec mrs1 N D1 L1) as (HM & Hle & Hge).
  set (M := round_nearest_even (shr_m mrs1) (loc_of_shr_record mrs1)) in *.
  destruct L1 as (HD1 & _ & Hm1 & _).
  assert (P1 : 0 < 2 ^ (e1 - e)) by (apply Z.pow_pos_nonneg; subst e1; lia).
  assert (Hm1' : shr_m mrs1 = m / 2 ^ (e1 - e)).
  { rewrite Hm1, Hm. unfold D1. rewrite (Z.mul_comm _ D), Z.div_div by lia. reflexivity. }
  assert (Hdig : Zdigits2 m <= 53 + (e1 - e)) by (subst e1; rewrite fexp_eq; lia).
  assert (Hup : shr_m mrs1 < 2 ^ 53).
  { rewrite Hm1'. apply Z.div_lt_upper_bound; [exact P1|].
    rewrite <- Z.pow_add_r by (subst e1; lia).
    pose proof (Zdigits2_upper m Hm0).
    assert (2 ^ Zdigits2 m <= 2 ^ (e1 - e + 53)) by (apply Z.pow_le_mono_r; lia).
    lia. }
  assert (Hm1pos : 0 <= shr_m mrs1) by (rewrite Hm1'; apply Z.div_pos; lia).
  assert (Hlow : -1074 < e1 -> 2 ^ 52 <= shr_m mrs1).
  { intros Hn. assert (He1 : e1 = Zdigits2 m + e - 53) by (subst e1; rewrite fexp_eq in *; lia).
    assert (Hmpos : 0 < m).
    { destruct (Z.eqb_spec m 0) as [->|]; [|lia]. cbn in He1. cbn in H. rewrite fexp_eq in H. lia. }
    rewrite Hm1'. apply Z.div_le_lower_bound; [exact P1|].
    rewrite <- Z.pow_add_r by lia.
    replace (e1 - e + 52) with (Zdigits2 m - 1) by lia.
    apply Zdigits2_lower. exact Hmpos. }
  exists M. split; [lia|]. split; [intros Hn; specialize (Hlow Hn); lia|].
  split; [exact Hle|]. split; [exact Hge|].
  assert (He1min : -1074 <= e1) by (subst e1; rewrite fexp_eq; lia).
  destruct (Z.eqb_spec M 9007199254740992) as [EM|NM].
  - (* carry *)
    rewrite EM.
    replace (fexp prec emax (Zdigits2 9007199254740992 + e1) - e1) with 1
      by (rewrite fexp_eq; cbn [Zdigits2 digits2_pos]; lia).
    cbn. reflexivity.
  - assert (HMlt : M < 2 ^ 53) by (change (2 ^ 53) with 9007199254740992; lia).
    assert (HMd : Zdigits2 M <= 53) by (apply Zdigits2_le_iff; lia).
    rewrite shr_nonpos by (rewrite fexp_eq; lia).
    cbn [shr_m shr_record_of_loc].
    unfold round_result.
    destruct M as [|p|p]; [reflexivity| |lia].
    destruct (Z.eqb_spec (Zpos p) 9007199254740992); [contradiction|].
    reflexivity.
Qed.

Lemma SFleb_finite_pos (m1 : positive) (e1 : Z) (m2 : positive) (e2 : Z) :
  SFleb (S754_finite false m1 e1) (S754_finite false m2 e2) = true <->
  e1 < e2 \/ (e1 = e2 /\ Zpos m1 <= Zpos m2).
Proof.
  unfold SFleb, SFcompare.
  change (Pos.compare_cont Eq m1 m2) with (Zpos m1 ?= Zpos m2).
  destruct (Z.compare_spec e1 e2); [destruct (Z.compare_spec (Zpos m1) (Zpos m2))| |];
    split; intros; try reflexivity; try discriminate; lia.
Qed.

Lemma SFltb_finite_pos (m1 : positive) (e1 : Z) (m2 : positive) (e2 : Z) :
  SFltb (S754_finite false m1 e1) (S754_finite false m2 e2) = true <->
  e1 < e2 \/ (e1 = e2 /\ Zpos m1 < Zpos m2).
Proof.
  unfold SFltb, SFcompare.
  change (Pos.compare_cont Eq m1 m2) with (Zpos m1 ?= Zpos m2).
  destruct (Z.compare_spec e1 e2); [destruct (Z.compare_spec (Zpos m1) (Zpos m2))| |];
    split; intros; try reflexivity; try discriminate; lia.
Qed.

(** The ratio [N / D] scaled by [2^e], against a number with exponent
    [e1 >= e]. *)
Lemma ratio_le (N D e K e1 : Z) : 0 < D -> e <= e1 ->
  (inject_Z N / inject_Z D * 2 ^ e <= F2Q K e1)%Q <-> N <= K * (2 ^ (e1 - e) * D).
Proof.
  intros HD He. unfold F2Q.
  replace e1 with (e + (e1 - e)) at 1 by lia.
  rewrite pow2_add, <- (pow2_inject (e1 - e)) by lia.
  pose proof (pow2_pos e) as P.
  assert (PD : (0 < inject_Z D)%Q) by (rewrite (Zlt_Qlt 0 D) in HD; exact HD).
  rewrite Zle_Qle, !inject_Z_mult.
  set (n := inject_Z N) in *. set (d := inject_Z D) in *.
  set (k := inject_Z K) in *. set (t := inject_Z (2 ^ (e1 - e))) in *.
  set (p := (2 ^ e)%Q) in *.
  split; intros H.
  - assert (H1 : (n / d <= k * t)%Q).
    { apply (Qmult_le_r _ _ p P). lra. }
    assert (H2 : (n / d * d <= k * t * d)%Q) by (apply Qmult_le_compat_r; lra).
    assert (E : (n / d * d == n)%Q) by (field; lra).
    lra.
  - assert (H1 : (n / d <= k * t)%Q).
    { apply (Qmult_le_r _ _ d PD).
      assert (E : (n / d * d == n)%Q) by (field; lra). lra. }
    assert (H2 : (n / d * p <= k * t * p)%Q) by (apply Qmult_le_compat_r; lra).
    lra.
Qed.

Lemma ratio_ge (N D e K e1 : Z) : 0 < D -> e <= e1 ->
  (F2Q K e1 <= inject_Z N / inject_Z D * 2 ^ e)%Q <-> K * (2 ^ (e1 - e) * D) <= N.
Proof.
  intros HD He. unfold F2Q.
  replace e1 with (e + (e1 - e)) at 1 by lia.
  rewrite pow2_add, <- (pow2_inject (e1 - e)) by lia.
  pose proof (pow2_pos e) as P.
  assert (PD : (0 < inject_Z D)%Q) by (rewrite (Zlt_Qlt 0 D) in HD; exact HD).
  rewrite Zle_Qle, !inject_Z_mult.
  set (n := inject_Z N) in *. set (d := inject_Z D) in *.
  set (k := inject_Z K) in *. set (t := inject_Z (2 ^ (e1 - e))) in *.
  set (p := (2 ^ e)%Q) in *.
  split; intros H.
  - assert (H1 : (k * t <= n / d)%Q).
    { apply (Qmult_le_r _ _ p P). lra. }
    assert (H2 : (k * t * d <= n / d * d)%Q) by (apply Qmult_le_compat_r; lra).
    assert (E : (n / d * d == n)%Q) by (field; lra).
    lra.
  - assert (H1 : (k * t <= n / d)%Q).
    { apply (Qmult_le_r _ _ d PD).
      assert (E : (n / d * d == n)%Q) by (field; lra). lra. }
    assert (H2 : (k * t * p <= n / d * p)%Q) by (apply Qmult_le_compat_r; lra).
    lra.
Qed.

Lemma bounded_fexp (mc : positive) (ec : Z) :
  bounded prec emax mc ec = true -> ec = fexp prec emax (Zdigits2 (Zpos mc) + ec).
Proof. rewrite bounded_spec, fexp_eq. lia. Qed.

Lemma binary_round_aux_rounded (s : bool) (m e : Z) (l : location) (N D : Z) (x : Q) :
  0 < N -> 0 < D -> m = N / D -> l = loc_of (N mod D) D ->
  e <= fexp prec emax (Zdigits2 m + e) ->
  (x == inject_Z N / inject_Z D * 2 ^ e)%Q ->
  rounded (binary_round_aux prec emax s m e l) s x.
Proof.
  intros HN HD Hm Hl H Hx.
  destruct (round_core s m e l N D HD ltac:(lia) Hm Hl H)
    as (M & HM & Hnorm & Hle & Hge & ->).
  set (d := Zdigits2 m + e) in *.
  set (e1 := fexp prec emax d) in *.
  set (D1 := 2 ^ (e1 - e) * D) in *.
  assert (Hm0 : 0 <= m) by (subst m; apply Z.div_pos; lia).
  assert (He1 : -1074 <= e1) by (subst e1; rewrite fexp_eq; lia).
  pose proof (Z.div_mod N D ltac:(lia)) as EN.
  pose proof (Z.mod_pos_bound N D HD) as RN.
  rewrite <- Hm in EN.
  (* the magnitude of x *)
  assert (Xup : (x < 2 ^ d)%Q).
  { apply Qlt_le_trans with (F2Q (m + 1) e).
    - rewrite Hx. apply Qnot_le_lt. intros C.
      apply (ratio_ge N D e (m + 1) e HD ltac:(lia)) in C.
      rewrite Z.sub_diag in C. change (2 ^ 0) with 1 in C. nia.
    - unfold d. rewrite (Z.add_comm (Zdigits2 m) e), pow2_add.
      rewrite <- (pow2_inject (Zdigits2 m)) by apply Zdigits2_nonneg.
      rewrite Qmult_comm. apply (F2Q_le (m + 1) (2 ^ Zdigits2 m) e).
      pose proof (Zdigits2_upper m Hm0). lia. }
  assert (Xlow : 0 < m -> (2 ^ (d - 1) <= x)%Q).
  { intros Hmp. apply Qle_trans with (F2Q m e).
    - apply F2Q_mag. exact Hmp.
    - rewrite Hx. apply (ratio_ge N D e m e HD ltac:(lia)).
      rewrite Z.sub_diag. change (2 ^ 0) with 1. nia. }
  assert (Hm_zero : m = 0 -> e1 = -1074).
  { intros ->. subst e1 d. cbn [Zdigits2] in *. rewrite fexp_eq in *. lia. }
  assert (He : e <= e1) by exact H.
  split; [|split].
  - (* shape *)
    unfold round_result, signed.
    destruct M as [|p|p]; [left; reflexivity| |lia].
    destruct (Z.eqb_spec (Zpos p) 9007199254740992) as [E|E].
    + destruct (Z.leb_spec (e1 + 1) 971); [|right; left; reflexivity].
      right; right. eexists _, _. split; [reflexivity|].
      apply bounded_spec. cbn [Zdigits2 digits2_pos]. lia.
    + destruct (Z.leb_spec e1 971); [|right; left; reflexivity].
      right; right. eexists _, _. split; [reflexivity|].
      apply bounded_spec.
      assert (Zpos p < 2 ^ 53) by (change (2 ^ 53) with 9007199254740992; lia).
      assert (Zdigits2 (Zpos p) <= 53) by (apply Zdigits2_le_iff; lia).
      split; [assumption|split; [lia|]].
      destruct (Z.eqb_spec e1 (-1074)); [right; assumption|left].
      apply Zdigits2_unique; [lia|]. split; [apply Hnorm; lia|assumption].
  - (* x is at least c *)
    intros mc ec Hc Hcx.
    pose proof (bounded_fexp mc ec Hc) as Hec.
    pose proof (proj1 (bounded_spec mc ec) Hc) as (Hcd & Hce & _).
    destruct (F2Q_mag (Zpos mc) ec ltac:(lia)) as [Cl Cu].
    assert (Hd : Zdigits2 (Zpos mc) + ec <= d).
    { assert (2 ^ (Zdigits2 (Zpos mc) + ec - 1) < 2 ^ d)%Q by lra.
      apply pow2_lt_inv in H0. lia. }
    assert (Hee : ec <= e1) by (rewrite Hec; apply fexp_mono; exact Hd).
    assert (Mpos : 0 < M).
    { destruct (Z.eqb_spec ec e1) as [E|E].
      - subst ec. rewrite Hx in Hcx.
        apply (ratio_ge N D e (Zpos mc) e1 HD He) in Hcx.
        specialize (Hge _ Hcx). lia.
      - specialize (Hnorm ltac:(lia)). lia. }
    unfold round_result. destruct M as [|p|p]; [lia| |lia].
    destruct (Z.eqb_spec (Zpos p) 9007199254740992) as [E|E].
    + destruct (Z.leb_spec (e1 + 1) 971); [|reflexivity].
      cbn [SFabs]. apply SFleb_finite_pos. lia.
    + destruct (Z.leb_spec e1 971); [|reflexivity].
      cbn [SFabs]. apply SFleb_finite_pos.
      destruct (Z.eqb_spec ec e1) as [E'|E']; [right|left; lia].
      split; [exact E'|]. subst ec. rewrite Hx in Hcx.
      apply (ratio_ge N D e (Zpos mc) e1 HD He) in Hcx.
      exact (Hge _ Hcx).
  - (* x is at most c *)
    intros mc ec Hc Hcx.
    pose proof (bounded_fexp mc ec Hc) as Hec.
    pose proof (proj1 (bounded_spec mc ec) Hc) as (Hcd & Hce & _).
    destruct (F2Q_mag (Zpos mc) ec ltac:(lia)) as [Cl Cu].
    unfold round_result. destruct M as [|p|p]; [reflexivity| |lia].
    assert (Hee : e1 <= ec).
    { destruct (Z.eqb_spec m 0) as [Z0|NZ]; [rewrite (Hm_zero Z0); lia|].
      specialize (Xlow ltac:(lia)).
      assert (2 ^ (d - 1) < 2 ^ (Zdigits2 (Zpos mc) + ec))%Q by lra.
      apply pow2_lt_inv in H0.
      rewrite Hec. apply fexp_mono. lia. }
    assert (HK : Zpos p <= Zpos mc * 2 ^ (ec - e1)).
    { apply Hle. rewrite Hx in Hcx.
      apply (proj1 (ratio_le N D e (Zpos mc * 2 ^ (ec - e1)) e1 HD He)).
      rewrite F2Q_scale by lia. replace (e1 + (ec - e1)) with ec by lia.
      exact Hcx. }
    assert (Hmc : Zpos mc < 2 ^ 53) by (apply Zdigits2_le_iff; lia).
    destruct (Z.eqb_spec (Zpos p) 9007199254740992) as [E|E].
    + assert (Hlt : e1 < ec).
      { destruct (Z.eqb_spec e1 ec) as [E'|]; [|lia].
        rewrite E', Z.sub_diag in HK. change (2 ^ 0) with 1 in HK.
        change (2 ^ 53) with 9007199254740992 in Hmc. lia. }
      destruct (Z.leb_spec (e1 + 1) 971); [|lia].
      cbn [SFabs]. apply SFleb_finite_pos.
      destruct (Z.eqb_spec (e1 + 1) ec) as [E'|]; [right|left; lia].
      split; [exact E'|].
      replace (ec - e1) with 1 in HK by lia. change (2 ^ 1) with 2 in HK. lia.
    + destruct (Z.leb_spec e1 971); [|lia].
      cbn [SFabs]. apply SFleb_finite_pos.
      destruct (Z.eqb_spec e1 ec) as [E'|]; [right|left; lia].
      split; [exact E'|].
      rewrite E', Z.sub_diag in HK. change (2 ^ 0) with 1 in HK. lia.
Qed.

Lemma rounded_ext (y : spec_float) (s : bool) (x x' : Q) :
  (x == x')%Q -> rounded y s x -> rounded y s x'.
Proof.
  intros E (Hs & Hge & Hle). split; [exact Hs|split].
  - intros mc ec Hc H. apply Hge; [exact Hc|]. rewrite E. exact H.
  - intros mc ec Hc H. apply Hle; [exact Hc|]. rewrite E. exact H.
Qed.

(** A value of the format is not changed by rounding. *)
Lemma rounded_exact (y : spec_float) (s : bool) (x : Q) (mc : positive) (ec : Z) :
  rounded y s x -> bounded prec emax mc ec = true -> (x == F2Q (Zpos mc) ec)%Q ->
  y = S754_finite s mc ec.
Proof.
  intros (Hs & Hge & Hle) Hc E.
  specialize (Hge mc ec Hc ltac:(rewrite E; apply Qle_refl)).
  specialize (Hle mc ec Hc ltac:(rewrite E; apply Qle_refl)).
  destruct Hs as [-> | [-> | (m & e & -> & Hb)]]; try discriminate.
  cbn [SFabs] in Hge, Hle.
  apply SFleb_finite_pos in Hge, Hle.
  assert (e = ec) by lia. assert (Zpos m = Zpos mc) by lia.
  congruence.
Qed.

(** ** Multiplication *)

Lemma Zdigits2_mul (a b : positive) :
  Zdigits2 (Zpos a) + Zdigits2 (Zpos b) - 1 <= Zdigits2 (Zpos (a * b)).
Proof.
  pose proof (Zdigits2_lower (Zpos a) ltac:(lia)) as La.
  pose proof (Zdigits2_lower (Zpos b) ltac:(lia)) as Lb.
  pose proof (Zdigits2_upper (Zpos (a * b)) ltac:(lia)) as U.
  assert (Pa : 1 <= Zdigits2 (Zpos a)) by (cbn; lia).
  assert (Pb : 1 <= Zdigits2 (Zpos b)) by (cbn; lia).
  assert (P : 2 ^ (Zdigits2 (Zpos a) - 1 + (Zdigits2 (Zpos b) - 1)) <= Zpos (a * b)).
  { rewrite Z.pow_add_r by lia. rewrite Pos2Z.inj_mul. nia. }
  destruct (Z.leb_spec (Zdigits2 (Zpos a) + Zdigits2 (Zpos b) - 1) (Zdigits2 (Zpos (a * b))));
    [assumption|].
  assert (2 ^ Zdigits2 (Zpos (a * b))
          <= 2 ^ (Zdigits2 (Zpos a) - 1 + (Zdigits2 (Zpos b) - 1)))
    by (apply Z.pow_le_mono_r; lia).
  lia.
Qed.

Lemma SFmul_rounded (sx : bool) (mx : positive) (ex : Z) (sy : bool) (my : positive) (ey : Z) :
  bounded prec emax mx ex = true -> bounded prec emax my ey = true ->
  rounded (SFmul prec emax (S754_finite sx mx ex) (S754_finite sy my ey)) (xorb sx sy)
    (F2Q (Zpos mx) ex * F2Q (Zpos my) ey).
Proof.
  intros Bx By. cbn [SFmul].
  apply bounded_spec in Bx, By.
  pose proof (Zdigits2_mul mx my) as Hd.
  assert (Pa : 1 <= Zdigits2 (Zpos mx)) by (cbn; lia).
  assert (Pb : 1 <= Zdigits2 (Zpos my)) by (cbn; lia).
  apply (binary_round_aux_rounded _ _ _ _ (Zpos (mx * my)) 1).
  - lia.
  - lia.
  - rewrite Z.div_1_r. reflexivity.
  - rewrite Z.mod_1_r. reflexivity.
  - rewrite fexp_eq. lia.
  - unfold F2Q. rewrite Pos2Z.inj_mul, inject_Z_mult, pow2_add.
    change (inject_Z 1) with 1%Q. field.
Qed.

(** ** Division *)

Lemma new_location_loc_of (D r : Z) : 0 < D -> 0 <= r ->
  new_location D r = loc_of r D.
Proof.
  intros HD Hr. unfold new_location, new_location_even, new_location_odd, loc_of.
  destruct (Z.even D) eqn:Ev; [reflexivity|].
  destruct (Z.eqb_spec r 0); [reflexivity|]. f_equal.
  assert (Od : Z.odd D = true) by (rewrite <- Z.negb_even, Ev; reflexivity).
  apply Z.odd_spec in Od. destruct Od as [k Hk].
  destruct (Z.compare_spec (2 * r + 1) D); symmetry.
  - apply Z.compare_lt_iff. lia.
  - apply Z.compare_lt_iff. lia.
  - apply Z.compare_gt_iff. lia.
Qed.

Lemma SFdiv_rounded (sx : bool) (mx : positive) (ex : Z) (sy : bool) (my : positive) (ey : Z) :
  rounded (SFdiv prec emax (S754_finite sx mx ex) (S754_finite sy my ey)) (xorb sx sy)
    (F2Q (Zpos mx) ex / F2Q (Zpos my) ey).
Proof.
  cbn [SFdiv]. unfold SFdiv_core_binary.
  set (d1 := Zdigits2 (Zpos mx)). set (d2 := Zdigits2 (Zpos my)).
  set (t := d1 + ex - (d2 + ey)).
  set (e' := Z.min (fexp prec emax t) (ex - ey)).
  set (k := ex - ey - e').
  assert (Hk : 0 <= k) by (subst k e'; lia).
  set (m' := match k with Zpos _ => Z.shiftl (Zpos mx) k | Z0 => Zpos mx | Zneg _ => 0 end).
  assert (Hm' : m' = Zpos mx * 2 ^ k).
  { subst m'. destruct k as [|p|p]; [cbn; lia| |lia].
    rewrite Z.shiftl_mul_pow2 by lia. reflexivity. }
  clearbody m'.
  destruct (Z.div_eucl m' (Zpos my)) as [q r] eqn:E.
  assert (Hq : q = m' / Zpos my) by (unfold Z.div; rewrite E; reflexivity).
  assert (Hr : r = m' mod Zpos my) by (unfold Z.modulo; rewrite E; reflexivity).
  assert (P2 : 0 < 2 ^ k) by (apply Z.pow_pos_nonneg; lia).
  pose proof (Z.mod_pos_bound m' (Zpos my) ltac:(lia)) as Rb.
  apply (binary_round_aux_rounded _ _ _ _ m' (Zpos my)).
  - nia.
  - lia.
  - exact Hq.
  - rewrite new_location_loc_of by lia. rewrite Hr. reflexivity.
  - (* the quotient is not too short *)
    assert (Hq0 : 0 <= q) by (rewrite Hq; apply Z.div_pos; nia).
    pose proof (Zdigits2_lower (Zpos mx) ltac:(lia)) as L1. fold d1 in L1.
    pose proof (Zdigits2_upper (Zpos my) ltac:(lia)) as U2. fold d2 in U2.
    assert (P1 : 1 <= d1) by (subst d1; cbn; lia).
    assert (Pd2 : 1 <= d2) by (subst d2; cbn; lia).
    assert (Hdq : d1 + k - d2 <= Zdigits2 q).
    { destruct (Z.leb_spec (d1 + k - d2) 0) as [C|C];
        [pose proof (Zdigits2_nonneg q); lia|].
      destruct (Z.leb_spec (d1 + k - d2) (Zdigits2 q)); [assumption|].
      pose proof (Zdigits2_upper q Hq0) as Uq.
      assert (2 ^ Zdigits2 q <= 2 ^ (d1 + k - d2 - 1)) by (apply Z.pow_le_mono_r; lia).
      assert (Hlt : q < 2 ^ (d1 + k - d2 - 1)) by lia.
      (* then m' < 2^(d1+k-d2-1) * my + my <= ... *)
      assert (m' < (q + 1) * Zpos my).
      { pose proof (Z.div_mod m' (Zpos my) ltac:(lia)). rewrite <- Hq in *. nia. }
      assert ((q + 1) * Zpos my <= 2 ^ (d1 + k - d2 - 1) * 2 ^ d2) by nia.
      rewrite <- Z.pow_add_r in H2 by lia.
      replace (d1 + k - d2 - 1 + d2) with ((d1 - 1) + k) in H2 by lia.
      rewrite Z.pow_add_r in H2 by lia. nia. }
    apply Z.le_trans with (fexp prec emax t).
    + subst e'. lia.
    + apply fexp_mono. subst t k. lia.
  - unfold F2Q. rewrite Hm', inject_Z_mult, pow2_inject by lia.
    assert (E1 : (2 ^ ex == 2 ^ k * 2 ^ e' * 2 ^ ey)%Q).
    { rewrite <- !pow2_add. replace (k + e' + ey) with ex by lia. reflexivity. }
    rewrite E1. field. split.
    + intros C. discriminate C.
    + pose proof (pow2_pos ey). lra.
Qed.

Lemma iter_xO (d m : positive) : Zpos (Pos.iter xO m d) = Zpos m * 2 ^ Zpos d.
Proof.
  induction d as [|d IH] using Pos.peano_ind.
  - cbn. lia.
  - rewrite Pos.iter_succ, Pos2Z.inj_xO, IH, Pos2Z.inj_succ, Z.pow_succ_r by lia. ring.
Qed.

Lemma shl_align_spec (m : positive) (e e' : Z) :
  let '(mz, ez) := shl_align m e e' in
  ez = Z.min e e' /\ Zpos mz = Zpos m * 2 ^ (e - ez).
Proof.
  unfold shl_align. destruct (e' - e) as [|d|d] eqn:E.
  - split; [lia|]. rewrite Z.sub_diag. cbn. lia.
  - split; [lia|]. rewrite Z.sub_diag. cbn. lia.
  - split; [lia|]. rewrite iter_xO. f_equal. f_equal. lia.
Qed.

Lemma Zdigits2_shift (m k : Z) : 0 < m -> 0 <= k -> Zdigits2 (m * 2 ^ k) = Zdigits2 m + k.
Proof.
  intros Hm Hk.
  pose proof (Zdigits2_lower m Hm) as L.
  pose proof (Zdigits2_upper m ltac:(lia)) as U.
  assert (P : 1 <= Zdigits2 m) by (destruct m; cbn; lia).
  assert (P2 : 0 < 2 ^ k) by (apply Z.pow_pos_nonneg; lia).
  apply Zdigits2_unique; [nia|].
  replace (Zdigits2 m + k - 1) with (Zdigits2 m - 1 + k) by lia.
  rewrite !Z.pow_add_r by lia. nia.
Qed.

Lemma binary_round_rounded (s : bool) (m : positive) (e : Z) :
  rounded (binary_round prec emax s m e) s (F2Q (Zpos m) e).
Proof.
  unfold binary_round.
  pose proof (shl_align_spec m e (fexp prec emax (Zpos (digits2_pos m) + e))) as H.
  destruct (shl_align m e _) as [mz ez]. destruct H as [Hez Hmz].
  assert (Hk : 0 <= e - ez) by lia.
  assert (Hd : Zdigits2 (Zpos mz) + ez = Zpos (digits2_pos m) + e).
  { rewrite Hmz, Zdigits2_shift by lia. cbn [Zdigits2]. lia. }
  apply (binary_round_aux_rounded _ _ _ _ (Zpos mz) 1).
  - lia.
  - lia.
  - rewrite Z.div_1_r. reflexivity.
  - rewrite Z.mod_1_r. reflexivity.
  - rewrite Hd. lia.
  - change (inject_Z 1) with 1%Q. rewrite Hmz.
    assert (E := F2Q_scale (Zpos m) ez (e - ez) Hk).
    replace (ez + (e - ez)) with e in E by lia.
    rewrite <- E. unfold F2Q. field.
Qed.

Lemma binary_normalize_pos (m : positive) (e : Z) (sz : bool) :
  rounded (binary_normalize prec emax (Zpos m) e sz) false (F2Q (Zpos m) e).
Proof. apply binary_round_rounded. Qed.

Lemma binary_normalize_neg (m : positive) (e : Z) (sz : bool) :
  rounded (binary_normalize prec emax (Zneg m) e sz) true (F2Q (Zpos m) e).
Proof. apply binary_round_rounded. Qed.

Lemma F2Q_opp (m e : Z) : (F2Q (- m) e == - F2Q m e)%Q.
Proof. unfold F2Q. rewrite inject_Z_opp. ring. Qed.

Lemma F2Q_add (a b e : Z) : (F2Q (a + b) e == F2Q a e + F2Q b e)%Q.
Proof. unfold F2Q. rewrite inject_Z_plus. ring. Qed.

Lemma F2Q_pos (m e : Z) : 0 < m -> (0 < F2Q m e)%Q.
Proof.
  intros H. unfold F2Q. apply Qmult_lt_0_compat; [|apply pow2_pos].
  change 0%Q with (inject_Z 0). rewrite <- Zlt_Qlt. exact H.
Qed.

Lemma F2Q_cond_Zopp (s : bool) (m : positive) (e ez : Z) : ez <= e ->
  (F2Q (cond_Zopp s (Zpos m * 2 ^ (e - ez))) ez == SF2Q (S754_finite s m e))%Q.
Proof.
  intros H. cbn [SF2Q]. assert (E := F2Q_scale (Zpos m) ez (e - ez) ltac:(lia)).
  replace (ez + (e - ez)) with e in E by lia.
  destruct s; cbn [cond_Zopp]; [rewrite F2Q_opp|]; rewrite E; reflexivity.
Qed.

(** Addition of two finite numbers: the exact sum, rounded. *)
Lemma SFadd_finite (sx : bool) (mx : positive) (ex : Z) (sy : bool) (my : positive) (ey : Z) :
  exists S ez,
    SFadd prec emax (S754_finite sx mx ex) (S754_finite sy my ey)
    = binary_normalize prec emax S ez false /\
    (F2Q S ez == SF2Q (S754_finite sx mx ex) + SF2Q (S754_finite sy my ey))%Q.
Proof.
  cbn [SFadd].
  pose proof (shl_align_spec mx ex (Z.min ex ey)) as Hx.
  pose proof (shl_align_spec my ey (Z.min ex ey)) as Hy.
  destruct (shl_align mx ex _) as [mx' ex'], (shl_align my ey _) as [my' ey'].
  destruct Hx as [Ex Mx], Hy as [Ey My]. cbn [fst].
  eexists _, _. split; [reflexivity|].
  rewrite F2Q_add, Mx, My.
  replace ex' with (Z.min ex ey) by lia. replace ey' with (Z.min ex ey) by lia.
  rewrite !F2Q_cond_Zopp by lia. reflexivity.
Qed.

Lemma SFsub_finite (sx : bool) (mx : positive) (ex : Z) (sy : bool) (my : positive) (ey : Z) :
  exists S ez,
    SFsub prec emax (S754_finite sx mx ex) (S754_finite sy my ey)
    = binary_normalize prec emax S ez false /\
    (F2Q S ez == SF2Q (S754_finite sx mx ex) - SF2Q (S754_finite sy my ey))%Q.
Proof.
  cbn [SFsub].
  pose proof (shl_align_spec mx ex (Z.min ex ey)) as Hx.
  pose proof (shl_align_spec my ey (Z.min ex ey)) as Hy.
  destruct (shl_align mx ex _) as [mx' ex'], (shl_align my ey _) as [my' ey'].
  destruct Hx as [Ex Mx], Hy as [Ey My]. cbn [fst].
  eexists _, _. split; [reflexivity|].
  unfold Z.sub at 1. rewrite F2Q_add, F2Q_opp, Mx, My.
  replace ex' with (Z.min ex ey) by lia. replace ey' with (Z.min ex ey) by lia.
  rewrite !F2Q_cond_Zopp by lia. reflexivity.
Qed.

(** [binary_normalize] of a number by the sign of its value. *)
Lemma binary_normalize_rounded (S ez : Z) (sz : bool) :
  (0 < F2Q S ez -> rounded (binary_normalize prec emax S ez sz) false (F2Q S ez))%Q /\
  (F2Q S ez < 0 -> rounded (binary_normalize prec emax S ez sz) true (- F2Q S ez))%Q /\
  (F2Q S ez == 0 -> binary_normalize prec emax S ez sz = S754_zero sz)%Q.
Proof.
  destruct S as [|p|p].
  - assert (E : (F2Q 0 ez == 0)%Q) by (unfold F2Q; ring).
    split; [|split]; intros H; try reflexivity; rewrite E in H; lra.
  - pose proof (F2Q_pos (Zpos p) ez ltac:(lia)) as P.
    split; [|split]; intros H; try lra. apply binary_round_rounded.
  - pose proof (F2Q_pos (Zpos p) ez ltac:(lia)) as P.
    assert (E : (F2Q (Zneg p) ez == - F2Q (Zpos p) ez)%Q)
      by (rewrite <- F2Q_opp; reflexivity).
    split; [|split]; intros H; try (rewrite E in H; lra).
    apply (rounded_ext _ _ (F2Q (Zpos p) ez)); [rewrite E; ring|].
    apply binary_round_rounded.
Qed.


(** ** The order of the numbers of the format *)

(** A number of the format is its own rounding. *)
Lemma rounded_self (s : bool) (m : positive) (e : Z) :
  bounded prec emax m e = true -> rounded (S754_finite s m e) s (F2Q (Zpos m) e).
Proof.
  intros B.
  pose proof (bounded_fexp m e B) as He.
  pose proof (proj1 (bounded_spec m e) B) as (Hd & Hr & _).
  assert (E : binary_round_aux prec emax s (Zpos m) e loc_Exact = S754_finite s m e).
  { destruct (round_core s (Zpos m) e loc_Exact (Zpos m) 1) as (M & HM & _ & Hle & Hge & ->).
    - lia.
    - lia.
    - rewrite Z.div_1_r. reflexivity.
    - rewrite Z.mod_1_r. reflexivity.
    - rewrite <- He. lia.
    - rewrite <- He in Hle, Hge. rewrite Z.sub_diag in Hle, Hge.
      change (2 ^ 0 * 1) with 1 in Hle, Hge.
      assert (M = Zpos m) by (specialize (Hle (Zpos m)); specialize (Hge (Zpos m)); lia).
      subst M. rewrite <- He. unfold round_result.
      assert (Zpos m < 2 ^ 53) by (apply Zdigits2_le_iff; lia).
      change (2 ^ 53) with 9007199254740992 in H.
      destruct (Z.eqb_spec (Zpos m) 9007199254740992); [lia|].
      destruct (Z.leb_spec e 971); [reflexivity|lia]. }
  rewrite <- E.
  apply (binary_round_aux_rounded s (Zpos m) e loc_Exact (Zpos m) 1).
  - lia.
  - lia.
  - rewrite Z.div_1_r. reflexivity.
  - rewrite Z.mod_1_r. reflexivity.
  - rewrite <- He. lia.
  - unfold F2Q. change (inject_Z 1) with 1%Q. field.
Qed.

(** On numbers of the format the comparison of the language is the
    comparison of the values. *)
Lemma SFleb_F2Q (m1 : positive) (e1 : Z) (m2 : positive) (e2 : Z) :
  bounded prec emax m1 e1 = true -> bounded prec emax m2 e2 = true ->
  (SFleb (S754_finite false m1 e1) (S754_finite false m2 e2) = true <->
   (F2Q (Zpos m1) e1 <= F2Q (Zpos m2) e2)%Q).
Proof.
  intros B1 B2.
  assert (Hback : forall a ea b eb, bounded prec emax a ea = true ->
            bounded prec emax b eb = true ->
            (F2Q (Zpos a) ea <= F2Q (Zpos b) eb)%Q ->
            SFleb (S754_finite false a ea) (S754_finite false b eb) = true).
  { intros a ea b eb Ba Bb H.
    destruct (rounded_self false b eb Bb) as (_ & Hge & _).
    exact (Hge a ea Ba H). }
  split; [|apply Hback; assumption].
  intros H.
  destruct (Qlt_le_dec (F2Q (Zpos m2) e2) (F2Q (Zpos m1) e1)) as [C|C]; [|exact C].
  exfalso.
  pose proof (Hback m2 e2 m1 e1 B2 B1 ltac:(lra)) as H'.
  apply SFleb_finite_pos in H, H'.
  assert (e1 = e2) by lia. assert (Zpos m1 = Zpos m2) by lia.
  subst e2. replace m2 with m1 in C by congruence. lra.
Qed.

Lemma SFltb_F2Q (m1 : positive) (e1 : Z) (m2 : positive) (e2 : Z) :
  bounded prec emax m1 e1 = true -> bounded prec emax m2 e2 = true ->
  (SFltb (S754_finite false m1 e1) (S754_finite false m2 e2) = true <->
   (F2Q (Zpos m1) e1 < F2Q (Zpos m2) e2)%Q).
Proof.
  intros B1 B2.
  pose proof (SFleb_F2Q m2 e2 m1 e1 B2 B1) as L.
  rewrite SFleb_finite_pos in L. rewrite SFltb_finite_pos.
  split; intros H.
  - apply Qnot_le_lt. intros C. apply L in C. lia.
  - destruct (Z.lt_trichotomy e1 e2) as [C|[C|C]]; [left; exact C| |].
    + destruct (Z.lt_trichotomy (Zpos m1) (Zpos m2)) as [D|[D|D]].
      * right. split; assumption.
      * exfalso. subst e2. replace m2 with m1 in H by congruence. lra.
      * exfalso. assert (F2Q (Zpos m2) e2 <= F2Q (Zpos m1) e1)%Q by (apply L; lia). lra.
    + exfalso. assert (F2Q (Zpos m2) e2 <= F2Q (Zpos m1) e1)%Q by (apply L; lia). lra.
Qed.

(** ** Integers *)

Lemma F2Q_int (z : Z) : (F2Q z 0 == inject_Z z)%Q.
Proof. unfold F2Q. change (2 ^ 0)%Q with 1%Q. ring. Qed.

(** The number of the format that is the integer [z], for [z] below
    [2^53]. *)
Lemma int_bounded (z : Z) : 0 < z < 2 ^ 53 ->
  exists m e,
    bounded prec emax m e = true /\ (F2Q (Zpos m) e == inject_Z z)%Q /\
    -52 <= e <= 0 /\ Zpos m = z * 2 ^ (- e).
Proof.
  intros Hz.
  pose proof (Zdigits2_lower z ltac:(lia)) as L.
  pose proof (Zdigits2_upper z ltac:(lia)) as U.
  assert (P : 1 <= Zdigits2 z) by (destruct z; cbn; lia).
  assert (D : Zdigits2 z <= 53) by (apply Zdigits2_le_iff; lia).
  set (k := 53 - Zdigits2 z).
  assert (P2 : 0 < 2 ^ k) by (apply Z.pow_pos_nonneg; lia).
  exists (Z.to_pos (z * 2 ^ k)), (- k).
  assert (E : Zpos (Z.to_pos (z * 2 ^ k)) = z * 2 ^ k) by (apply Z2Pos.id; nia).
  rewrite E. split; [|split; [|split]].
  - apply bounded_spec. rewrite E, Zdigits2_shift by lia. lia.
  - rewrite F2Q_scale by lia. replace (- k + k) with 0 by lia. apply F2Q_int.
  - lia.
  - rewrite Z.opp_involutive. reflexivity.
Qed.

Lemma of_Z_rounded (z : Z) : 0 < z -> rounded (of_Z z) false (inject_Z z).
Proof.
  intros Hz. destruct z as [|p|p]; try lia.
  apply (rounded_ext _ _ (F2Q (Zpos p) 0)); [apply F2Q_int|].
  apply binary_normalize_pos.
Qed.

Lemma of_Z_exact (z : Z) (m : positive) (e : Z) :
  0 < z -> bounded prec emax m e = true -> (F2Q (Zpos m) e == inject_Z z)%Q ->
  of_Z z = S754_finite false m e.
Proof.
  intros Hz B E.
  apply (rounded_exact _ _ (inject_Z z)); [apply of_Z_rounded; exact Hz|exact B|].
  symmetry. exact E.
Qed.

(** A value that is an integer, read off the mantissa. *)
Lemma F2Q_is_int (m e z : Z) : (F2Q m e == inject_Z z)%Q ->
  (0 <= e -> z = m * 2 ^ e) /\ (e <= 0 -> m = z * 2 ^ (- e)).
Proof.
  intros H. split; intros He.
  - apply inject_Z_injective. rewrite <- H. unfold F2Q.
    rewrite inject_Z_mult, pow2_inject by lia. reflexivity.
  - apply inject_Z_injective. rewrite inject_Z_mult, pow2_inject by lia.
    rewrite <- H. unfold F2Q.
    rewrite <- Qmult_assoc, <- pow2_add. replace (e + - e) with 0 by lia.
    change (2 ^ 0)%Q with 1%Q. ring.
Qed.

Lemma truncate_int (m : positive) (e z : Z) :
  (F2Q (Zpos m) e == inject_Z z)%Q -> truncate (S754_finite false m e) = z.
Proof.
  intros H. destruct (F2Q_is_int _ _ _ H) as [H1 H2]. cbn [truncate].
  destruct (Z.leb_spec 0 e) as [C|C].
  - symmetry. exact (H1 C).
  - rewrite (H2 ltac:(lia)). apply Z.div_mul.
    apply Z.pow_nonzero; lia.
Qed.


(** ** Printing with a fixed number of decimals *)

Ltac Qconcrete :=
  first [ unfold Qlt, Z.lt; vm_compute; reflexivity
        | unfold Qle, Z.le; vm_compute; discriminate
        | unfold Qeq; vm_compute; reflexivity ].

Lemma toFixed_finite (s : bool) (m : positive) (e digits : Z) :
  le (lit 1e21) (S754_finite false m e) = false ->
  toFixed (S754_finite s m e) digits =
  match decimalOf m e digits with
  | Zpos p => div (S754_finite s p 0) (S754_finite false (Z.to_pos (10 ^ digits)) 0)
  | _ => S754_zero s
  end.
Proof. intros H. unfold toFixed. cbn [SFabs]. rewrite H. reflexivity. Qed.

Lemma toFixed_rounded (s : bool) (m : positive) (e digits : Z) :
  0 <= digits ->
  le (lit 1e21) (S754_finite false m e) = false ->
  0 < decimalOf m e digits ->
  rounded (toFixed (S754_finite s m e) digits) s
    (inject_Z (decimalOf m e digits) / inject_Z (10 ^ digits)).
Proof.
  intros Hd H21 Hn. rewrite toFixed_finite by exact H21.
  destruct (decimalOf m e digits) as [|p|p]; try lia.
  assert (P : 0 < 10 ^ digits) by (apply Z.pow_pos_nonneg; lia).
  pose proof (SFdiv_rounded s p 0 false (Z.to_pos (10 ^ digits)) 0) as R.
  rewrite xorb_false_r in R.
  eapply rounded_ext; [|exact R].
  rewrite !F2Q_int, Z2Pos.id by exact P. reflexivity.
Qed.

Lemma decimalOf_ge (m : positive) (e digits A : Z) : 0 <= digits ->
  (inject_Z A <= F2Q (Zpos m) e * inject_Z (10 ^ digits))%Q ->
  A <= decimalOf m e digits.
Proof.
  intros Hd H. unfold decimalOf, F2Q in *.
  assert (P : 0 < 10 ^ digits) by (apply Z.pow_pos_nonneg; lia).
  destruct (Z.leb_spec 0 e) as [C|C].
  - rewrite <- pow2_inject, <- !inject_Z_mult, <- Zle_Qle in H by lia. exact H.
  - assert (P2 : 0 < 2 ^ (- e)) by (apply Z.pow_pos_nonneg; lia).
    assert (H' : A * 2 ^ (- e) <= Zpos m * 10 ^ digits).
    { rewrite Zle_Qle, !inject_Z_mult, pow2_inject by lia.
      pose proof (pow2_pos e) as Pe. pose proof (pow2_pos (- e)) as Pn.
      assert (E : (2 ^ e * 2 ^ (- e) == 1)%Q).
      { rewrite <- pow2_add. replace (e + - e) with 0 by lia. reflexivity. }
      assert (H1 : (inject_Z A * 2 ^ (- e)
                    <= inject_Z (Zpos m) * 2 ^ e * inject_Z (10 ^ digits) * 2 ^ (- e))%Q)
        by (apply Qmult_le_compat_r; lra).
      assert (E2 : (inject_Z (Zpos m) * 2 ^ e * inject_Z (10 ^ digits) * 2 ^ (- e)
                    == inject_Z (Zpos m) * inject_Z (10 ^ digits) * (2 ^ e * 2 ^ (- e)))%Q)
        by ring.
      rewrite E2, E in H1. lra. }
    apply Z.div_le_lower_bound; [apply Z.pow_pos_nonneg; lia|].
    replace (- e + 1) with (Z.succ (- e)) by lia. rewrite Z.pow_succ_r by lia. nia.
Qed.

Lemma decimalOf_le (m : positive) (e digits B : Z) : 0 <= digits ->
  (F2Q (Zpos m) e * inject_Z (10 ^ digits) <= inject_Z B)%Q ->
  decimalOf m e digits <= B.
Proof.
  intros Hd H. unfold decimalOf, F2Q in *.
  assert (P : 0 < 10 ^ digits) by (apply Z.pow_pos_nonneg; lia).
  destruct (Z.leb_spec 0 e) as [C|C].
  - rewrite <- pow2_inject, <- !inject_Z_mult, <- Zle_Qle in H by lia. exact H.
  - assert (P2 : 0 < 2 ^ (- e)) by (apply Z.pow_pos_nonneg; lia).
    assert (H' : Zpos m * 10 ^ digits <= B * 2 ^ (- e)).
    { rewrite Zle_Qle, !inject_Z_mult, pow2_inject by lia.
      pose proof (pow2_pos e) as Pe. pose proof (pow2_pos (- e)) as Pn.
      assert (E : (2 ^ e * 2 ^ (- e) == 1)%Q).
      { rewrite <- pow2_add. replace (e + - e) with 0 by lia. reflexivity. }
      assert (H1 : (inject_Z (Zpos m) * 2 ^ e * inject_Z (10 ^ digits) * 2 ^ (- e)
                    <= inject_Z B * 2 ^ (- e))%Q)
        by (apply Qmult_le_compat_r; lra).
      assert (E2 : (inject_Z (Zpos m) * 2 ^ e * inject_Z (10 ^ digits) * 2 ^ (- e)
                    == inject_Z (Zpos m) * inject_Z (10 ^ digits) * (2 ^ e * 2 ^ (- e)))%Q)
        by ring.
      rewrite E2, E in H1. lra. }
    assert (decimalOf_lt : (2 * Zpos m * 10 ^ digits + 2 ^ (- e)) / 2 ^ (- e + 1) < B + 1).
    { apply Z.div_lt_upper_bound; [apply Z.pow_pos_nonneg; lia|].
      replace (- e + 1) with (Z.succ (- e)) by lia. rewrite Z.pow_succ_r by lia. nia. }
    lia.
Qed.

(** Comparisons that fail on numbers that are not [NaN]. *)
Lemma SFltb_false_SFleb (x y : num) :
  x <> NaN -> y <> NaN -> SFltb x y = false -> SFleb y x = true.
Proof.
  intros Hx Hy. unfold SFltb, SFleb. rewrite (SFcompare_antisym x y).
  destruct (SFcompare x y) as [[ | | ]|] eqn:E; cbn; try congruence.
  intros _. apply compare_none in E. tauto.
Qed.

(** A number of the format between two positive numbers of the format
    is finite and positive, and its value lies between theirs. *)
Lemma between_finite (a : num) (m1 : positive) (e1 : Z) (m2 : positive) (e2 : Z) :
  isNumber a = true ->
  bounded prec emax m1 e1 = true -> bounded prec emax m2 e2 = true ->
  SFleb (S754_finite false m1 e1) a = true ->
  SFleb a (S754_finite false m2 e2) = true ->
  exists m e, a = S754_finite false m e /\ bounded prec emax m e = true /\
    (F2Q (Zpos m1) e1 <= F2Q (Zpos m) e <= F2Q (Zpos m2) e2)%Q.
Proof.
  intros Ha B1 B2 H1 H2.
  destruct a as [s|s| |s m e]; try discriminate.
  - destruct s; discriminate.
  - destruct s; [discriminate|].
    exists m, e. split; [reflexivity|]. split; [exact Ha|].
    split; [apply SFleb_F2Q in H1|apply SFleb_F2Q in H2]; assumption.
Qed.


(** ** Stakes and settlement *)

(** A stake that passes the bounds of [validateColorBet] still lies in
    [1, 100000] once it has been printed with two decimals. *)
Lemma validated_stake (a : num) :
  isNumber a = true -> ColorEngine.isNaN a = false ->
  (a <? ColorEngine.MIN_BET_AMOUNT)%js = false ->
  (a >? ColorEngine.MAX_BET_AMOUNT)%js = false ->
  isNumber (toFixed a 2) = true /\
  (toFixed a 2 <? ColorEngine.MIN_BET_AMOUNT)%js = false /\
  (toFixed a 2 >? ColorEngine.MAX_BET_AMOUNT)%js = false.
Proof.
  intros Ha Hnan Hmin Hmax.
  assert (Hn : a <> NaN) by (intros ->; discriminate Hnan).
  change ColorEngine.MIN_BET_AMOUNT with (S754_finite false 4503599627370496 (-52)) in *.
  change ColorEngine.MAX_BET_AMOUNT with (S754_finite false 6871947673600000 (-36)) in *.
  unfold lt, gt in *.
  apply SFltb_false_SFleb in Hmin; [|exact Hn|discriminate].
  apply SFltb_false_SFleb in Hmax; [|discriminate|exact Hn].
  destruct (between_finite a 4503599627370496 (-52) 6871947673600000 (-36)
              Ha eq_refl eq_refl Hmin Hmax)
    as (m & e & -> & B & Hlo & Hhi).
  assert (E1 : (F2Q 4503599627370496 (-52) == 1)%Q) by Qconcrete.
  assert (E5 : (F2Q 6871947673600000 (-36) == 100000)%Q) by Qconcrete.
  rewrite E1 in Hlo. rewrite E5 in Hhi.
  assert (H21 : le (lit 1e21) (S754_finite false m e) = false).
  { destruct (le (lit 1e21) (S754_finite false m e)) eqn:C; [|reflexivity].
    change (lit 1e21) with (S754_finite false 7629394531250000 17) in C.
    apply SFleb_F2Q in C; [|reflexivity|exact B].
    assert (100000 < F2Q 7629394531250000 17)%Q by Qconcrete. lra. }
  assert (Hn1 : 100 <= decimalOf m e 2).
  { apply decimalOf_ge; [lia|]. change (inject_Z (10 ^ 2)) with 100%Q.
    change (inject_Z 100) with 100%Q. lra. }
  assert (Hn2 : decimalOf m e 2 <= 10000000).
  { apply decimalOf_le; [lia|]. change (inject_Z (10 ^ 2)) with 100%Q.
    change (inject_Z 10000000) with 10000000%Q. lra. }
  destruct (toFixed_rounded false m e 2 ltac:(lia) H21 ltac:(lia)) as (Hs & Hge & Hle).
  change (inject_Z (10 ^ 2)) with 100%Q in Hge, Hle.
  assert (Q1 : (100 <= inject_Z (decimalOf m e 2))%Q)
    by (change 100%Q with (inject_Z 100); rewrite <- Zle_Qle; exact Hn1).
  assert (Q2 : (inject_Z (decimalOf m e 2) <= 10000000)%Q)
    by (change 10000000%Q with (inject_Z 10000000); rewrite <- Zle_Qle; exact Hn2).
  specialize (Hge 4503599627370496%positive (-52) eq_refl).
  specialize (Hle 6871947673600000%positive (-36) eq_refl).
  rewrite E1 in Hge. rewrite E5 in Hle.
  assert (G1 : (1 <= inject_Z (decimalOf m e 2) / 100)%Q).
  { apply Qle_shift_div_l; [reflexivity|]. lra. }
  assert (G2 : (inject_Z (decimalOf m e 2) / 100 <= 100000)%Q).
  { apply Qle_shift_div_r; [reflexivity|]. lra. }
  specialize (Hge G1). specialize (Hle G2).
  destruct Hs as [E | [E | (mb & eb & E & Bb)]]; rewrite E in Hge, Hle |- *;
    try discriminate.
  cbn [SFabs] in Hge, Hle.
  split; [exact Bb|].
  split; apply le_lt_false; assumption.
Qed.


(** ** Roundings between two numbers of the format *)

Lemma rounded_between (y : num) (s : bool) (x : Q)
  (m1 : positive) (e1 : Z) (m2 : positive) (e2 : Z) :
  rounded y s x ->
  bounded prec emax m1 e1 = true -> bounded prec emax m2 e2 = true ->
  (F2Q (Zpos m1) e1 <= x)%Q -> (x <= F2Q (Zpos m2) e2)%Q ->
  exists m e, y = S754_finite s m e /\ bounded prec emax m e = true /\
    (F2Q (Zpos m1) e1 <= F2Q (Zpos m) e <= F2Q (Zpos m2) e2)%Q.
Proof.
  intros (Hs & Hge & Hle) B1 B2 H1 H2.
  specialize (Hge m1 e1 B1 H1). specialize (Hle m2 e2 B2 H2).
  destruct Hs as [-> | [-> | (m & e & -> & B)]]; try discriminate.
  cbn [SFabs] in Hge, Hle.
  exists m, e. split; [reflexivity|split; [exact B|]].
  split; [apply SFleb_F2Q in Hge|apply SFleb_F2Q in Hle]; assumption.
Qed.

(** The rounding of an integer is an integer. *)
Lemma rounded_integer (s : bool) (m : positive) (e : Z) (x : Q) (n : Z) :
  rounded (S754_finite s m e) s x -> bounded prec emax m e = true ->
  (x == inject_Z n)%Q -> 0 < n ->
  exists k, (F2Q (Zpos m) e == inject_Z k)%Q.
Proof.
  intros (_ & Hge & Hle) B Hx Hn. cbn [SFabs] in Hge, Hle.
  destruct (Z.leb_spec 0 e) as [C|C].
  - exists (Zpos m * 2 ^ e). unfold F2Q.
    rewrite inject_Z_mult, pow2_inject by lia. reflexivity.
  - set (t := 2 ^ (- e)).
    assert (Pt : 0 < t) by (apply Z.pow_pos_nonneg; lia).
    pose proof (Z.div_mod (Zpos m) t ltac:(lia)) as Em.
    pose proof (Z.mod_pos_bound (Zpos m) t Pt) as Rm.
    set (k := Zpos m / t) in *. set (r := Zpos m mod t) in *.
    assert (Hval : forall j, (F2Q (j * t) e == inject_Z j)%Q).
    { intros j. unfold t. rewrite F2Q_scale by lia.
      replace (e + - e) with 0 by lia. apply F2Q_int. }
    destruct (Z.eqb_spec r 0) as [Z0|NZ].
    { exists k. rewrite <- (Hval k). replace (Zpos m) with (k * t) by lia. reflexivity. }
    exfalso.
    assert (Hlow : (inject_Z k < F2Q (Zpos m) e)%Q).
    { rewrite <- (Hval k). apply F2Q_lt. lia. }
    assert (Hup : (F2Q (Zpos m) e < inject_Z (k + 1))%Q).
    { rewrite <- (Hval (k + 1)). apply F2Q_lt. lia. }
    assert (Hk52 : k + 1 < 2 ^ 53).
    { pose proof (proj1 (bounded_spec m e) B) as (Hd & He & _).
      assert (Zpos m < 2 ^ 53) by (apply Zdigits2_le_iff; lia).
      assert (0 <= k) by (apply Z.div_pos; lia).
      assert (2 <= t).
      { unfold t. replace (- e) with (Z.succ (- e - 1)) by lia.
        rewrite Z.pow_succ_r by lia.
        assert (0 < 2 ^ (- e - 1)) by (apply Z.pow_pos_nonneg; lia). lia. }
      nia. }
    assert (Hk0 : 0 <= k) by (apply Z.div_pos; lia).
    destruct (Z.le_gt_cases (k + 1) n) as [Hc|Hc].
    + destruct (int_bounded (k + 1) ltac:(lia)) as (mc & ec & Bc & Ec & _).
      specialize (Hge mc ec Bc).
      assert (Hq : (F2Q (Zpos mc) ec <= x)%Q).
      { rewrite Ec, Hx, <- Zle_Qle. exact Hc. }
      specialize (Hge Hq). apply SFleb_F2Q in Hge; [|exact Bc|exact B].
      rewrite Ec in Hge. lra.
    + assert (1 <= k) by lia.
      destruct (int_bounded k ltac:(lia)) as (mc & ec & Bc & Ec & _).
      specialize (Hle mc ec Bc).
      assert (Hq : (x <= F2Q (Zpos mc) ec)%Q).
      { rewrite Ec, Hx, <- Zle_Qle. lia. }
      specialize (Hle Hq). apply SFleb_F2Q in Hle; [|exact B|exact Bc].
      rewrite Ec in Hle. lra.
Qed.


(** ** The generator *)

Lemma holds_of_Z (z : Z) : 0 <= z < 2 ^ 31 -> holds (of_Z z) z.
Proof.
  intros Hz. destruct (Z.eqb_spec z 0) as [->|NZ]; [reflexivity|].
  destruct (int_bounded z) as (m & e & B & E & _).
  { change (2 ^ 53) with 9007199254740992. change (2 ^ 31) with 2147483648 in Hz. lia. }
  rewrite (of_Z_exact z m e ltac:(lia) B E). cbn [holds].
  split; [exact B|split; [exact E|lia]].
Qed.

(** The remainder of an integer by [2^31]. *)
Lemma rem_MODULUS (mS : positive) (eS kS : Z) :
  bounded prec emax mS eS = true -> (F2Q (Zpos mS) eS == inject_Z kS)%Q -> 0 < kS ->
  holds (rem (S754_finite false mS eS) Engine.MODULUS) (kS mod 2 ^ 31).
Proof.
  intros B E Hk.
  change Engine.MODULUS with (S754_finite false 4503599627370496 (-21)).
  cbn [rem]. set (e := Z.min eS (-21)).
  assert (He : e <= -21) by (subst e; lia).
  assert (P : 0 < 2 ^ (- e)) by (apply Z.pow_pos_nonneg; lia).
  assert (EA : Zpos mS * 2 ^ (eS - e) = kS * 2 ^ (- e)).
  { apply (F2Q_is_int _ e kS); [|lia].
    rewrite F2Q_scale by (subst e; lia). replace (e + (eS - e)) with eS by lia. exact E. }
  assert (EB : 4503599627370496 * 2 ^ (-21 - e) = 2 ^ 31 * 2 ^ (- e)).
  { replace (- e) with (21 + (-21 - e)) by lia. rewrite Z.pow_add_r by lia.
    change (2 ^ 31 * (2 ^ 21 * 2 ^ (-21 - e))) with (2147483648 * (2097152 * 2 ^ (-21 - e))).
    lia. }
  rewrite EA, EB, Z.mul_mod_distr_r by lia.
  set (z' := kS mod 2 ^ 31).
  pose proof (Z.mod_pos_bound kS (2 ^ 31) ltac:(reflexivity)) as Hz'. fold z' in Hz'.
  assert (Ev : (F2Q (z' * 2 ^ (- e)) e == inject_Z z')%Q).
  { rewrite F2Q_scale by lia. replace (e + - e) with 0 by lia. apply F2Q_int. }
  destruct (Z.eqb_spec z' 0) as [Z0|NZ].
  - rewrite Z0. reflexivity.
  - destruct (binary_normalize_rounded (z' * 2 ^ (- e)) e false) as (Hpos & _ & _).
    assert (Hq : (0 < F2Q (z' * 2 ^ (- e)) e)%Q) by (apply F2Q_pos; nia).
    specialize (Hpos Hq).
    destruct (int_bounded z') as (m' & e' & B' & E' & _).
    { change (2 ^ 53) with 9007199254740992. change (2 ^ 31) with 2147483648 in Hz'. lia. }
    rewrite (rounded_exact _ _ _ m' e' Hpos B') by (rewrite Ev, E'; reflexivity).
    cbn [holds]. split; [exact B'|split; [exact E'|lia]].
Qed.

(** The quotient of a state in [0 .. 2^31 - 1] by the modulus. *)
Lemma draw_of_state (s' : num) (z' : Z) :
  holds s' z' -> 0 <= z' < 2 ^ 31 -> unitDraw (s' / Engine.MODULUS)%js.
Proof.
  intros H' Hz'.
  change Engine.MODULUS with (S754_finite false 4503599627370496 (-21)).
  destruct s' as [[|]|[|]| |[|] m' e']; try contradiction.
  - exact I.
  - destruct H' as (B' & E' & P').
    pose proof (SFdiv_rounded false m' e' false 4503599627370496 (-21)) as R.
    cbn [xorb] in R. fold (div (S754_finite false m' e')
                             (S754_finite false 4503599627370496 (-21))) in R.
    destruct R as (Sh & _ & Hle).
    specialize (Hle 9007199250546688%positive (-53) eq_refl).
    assert (Hq : (F2Q (Zpos m') e' / F2Q 4503599627370496 (-21)
                  <= F2Q 9007199250546688 (-53))%Q).
    { rewrite E'.
      assert (E31 : (F2Q 4503599627370496 (-21) == 2147483648)%Q) by Qconcrete.
      assert (Ec : (F2Q 9007199250546688 (-53) == 2147483647 / 2147483648)%Q)
        by Qconcrete.
      rewrite E31, Ec.
      assert (inject_Z z' <= 2147483647)%Q.
      { change 2147483647%Q with (inject_Z 2147483647). rewrite <- Zle_Qle.
        change (2 ^ 31) with 2147483648 in Hz'. lia. }
      unfold Qdiv. apply Qmult_le_compat_r; [exact H|]. Qconcrete. }
    specialize (Hle Hq).
    destruct Sh as [E | [E | (md & ed & E & Bd)]]; rewrite E in Hle |- *;
      try discriminate; try exact I.
    cbn [SFabs] in Hle. split; [exact Bd|exact Hle].
Qed.

Lemma unitDraw_range (r : num) :
  unitDraw r -> (lit 0 <=? r)%js = true /\ (r <? lit 1)%js = true.
Proof.
  destruct r as [[|]|[|]| |[|] m e]; try contradiction.
  - split; reflexivity.
  - intros [B Hle]. split; [reflexivity|].
    change (lit 1) with (S754_finite false 4503599627370496 (-52)).
    unfold lt. apply SFltb_finite_pos. apply SFleb_finite_pos in Hle. lia.
Qed.

(** The state after one call, from a state in [0 .. 2^31 - 1]. *)
Lemma next_state (s : num) (z : Z) :
  holds s z -> 0 <= z < 2 ^ 31 ->
  exists z', 0 <= z' < 2 ^ 31 /\
    holds ((Engine.MULTIPLIER * s + Engine.INCREMENT) mod Engine.MODULUS)%js z'.
Proof.
  intros Hs Hz.
  change Engine.MULTIPLIER with (S754_finite false 4628478406164480 (-22)).
  change Engine.INCREMENT with (S754_finite false 6786735522447360 (-39)).
  destruct s as [[|]|[|]| |[|] m e]; try contradiction.
  - (* the state 0 *)
    exists 12345. split; [split; [lia|reflexivity]|].
    vm_compute. split; [reflexivity|split; reflexivity].
  - destruct Hs as (B & E & Pz).
    (* the product *)
    pose proof (SFmul_rounded false 4628478406164480 (-22) false m e eq_refl B) as RP.
    cbn [xorb] in RP.
    fold (mul (S754_finite false 4628478406164480 (-22)) (S754_finite false m e)) in RP.
    assert (EM : (F2Q 4628478406164480 (-22) == inject_Z 1103515245)%Q) by Qconcrete.
    assert (ExP : (F2Q 4628478406164480 (-22) * F2Q (Zpos m) e
                   == inject_Z (1103515245 * z))%Q)
      by (rewrite EM, E, inject_Z_mult; reflexivity).
    apply (rounded_ext _ _ _ _ ExP) in RP.
    destruct (rounded_between _ _ _ 4628478406164480 (-22) 4503599627370496 10
                RP eq_refl eq_refl) as (mP & eP & EP & BP & HP1 & HP2).
    { rewrite EM, <- Zle_Qle. lia. }
    { assert (E62 : (F2Q 4503599627370496 10 == inject_Z (2 ^ 62))%Q) by Qconcrete.
      rewrite E62, <- Zle_Qle. change (2 ^ 31) with 2147483648 in Hz.
      change (2 ^ 62) with 4611686018427387904. lia. }
    rewrite EP in RP |- *.
    destruct (rounded_integer false mP eP _ (1103515245 * z) RP BP ltac:(reflexivity)
                ltac:(lia)) as [kP EkP].
    rewrite EkP, EM in HP1.
    (* the sum *)
    destruct (SFadd_finite false mP eP false 6786735522447360 (-39))
      as (Sg & ez & ES & EV).
    fold (add (S754_finite false mP eP) (S754_finite false 6786735522447360 (-39))) in ES.
    rewrite ES. cbn [SF2Q] in EV.
    assert (EI : (F2Q 6786735522447360 (-39) == inject_Z 12345)%Q) by Qconcrete.
    rewrite EkP, EI, <- inject_Z_plus in EV.
    assert (HkP : 1103515245 <= kP) by (rewrite <- Zle_Qle in HP1; exact HP1).
    destruct (binary_normalize_rounded Sg ez false) as (RS & _ & _).
    assert (PS : (0 < F2Q Sg ez)%Q).
    { rewrite EV. change 0%Q with (inject_Z 0). rewrite <- Zlt_Qlt. lia. }
    specialize (RS PS). apply (rounded_ext _ _ _ _ EV) in RS.
    assert (E62 : (F2Q 4503599627370496 10 == inject_Z (2 ^ 62))%Q) by Qconcrete.
    rewrite EkP, E62, <- Zle_Qle in HP2.
    destruct (rounded_between _ _ _ 4503599627370496 (-52) 4503599627370496 11
                RS eq_refl eq_refl) as (mS & eS & ESf & BS & HS1 & HS2).
    { assert (E1 : (F2Q 4503599627370496 (-52) == inject_Z 1)%Q) by Qconcrete.
      rewrite E1, <- Zle_Qle. lia. }
    { assert (E63 : (F2Q 4503599627370496 11 == inject_Z (2 ^ 63))%Q) by Qconcrete.
      rewrite E63, <- Zle_Qle. change (2 ^ 62) with 4611686018427387904 in HP2.
      change (2 ^ 63) with 9223372036854775808. lia. }
    rewrite ESf in RS |- *.
    destruct (rounded_integer false mS eS _ (kP + 12345) RS BS ltac:(reflexivity)
                ltac:(lia)) as [kS EkS].
    assert (HkS : 0 < kS).
    { assert (E1 : (F2Q 4503599627370496 (-52) == inject_Z 1)%Q) by Qconcrete.
      rewrite EkS, E1, <- Zle_Qle in HS1. lia. }
    exists (kS mod 2 ^ 31).
    split; [apply Z.mod_pos_bound; reflexivity|].
    apply rem_MODULUS; assumption.
Qed.

(** One call of the generator in a state that holds an integer of
    [0 .. 2^31 - 1]: the number returned is in [0, 1), and the new state
    holds such an integer again. *)
Lemma prng_step (s : num) (z : Z) :
  holds s z -> 0 <= z < 2 ^ 31 ->
  unitDraw (fst (Engine.prng s)) /\
  exists z', 0 <= z' < 2 ^ 31 /\ holds (snd (Engine.prng s)) z'.
Proof.
  intros Hs Hz. unfold Engine.prng. cbn [fst snd].
  destruct (next_state s z Hs Hz) as (z' & Hz' & H').
  split; [exact (draw_of_state _ _ H' Hz')|].
  exists z'. split; assumption.
Qed.


Lemma draws_in_range (n : nat) :
  forall (s : num) (z : Z) (r : num),
  holds s z -> 0 <= z < 2 ^ 31 -> In r (draws n s) ->
  (lit 0 <=? r)%js = true /\ (r <? lit 1)%js = true.
Proof.
  induction n as [|n IH]; intros s z r Hs Hz Hin; [contradiction|].
  cbn [draws] in Hin.
  destruct (prng_step s z Hs Hz) as (D & z' & Hz' & Hs').
  destruct (Engine.prng s) as [r0 s']. cbn [fst snd] in *.
  destruct Hin as [<- | Hin]; [exact (unitDraw_range _ D)|].
  exact (IH s' z' r Hs' Hz' Hin).
Qed.

(** *** A negative seed *)

Lemma signed_true_lt (y b : num) :
  signed true y -> (lit 0 <? b)%js = true -> (y <? b)%js = true.
Proof.
  intros [-> | [-> | (m & e & -> & _)]] Hb;
    destruct b as [[|]|[|]| |[|] mb eb]; try discriminate; reflexivity.
Qed.

Lemma rounded_signed (y : num) (s : bool) (x : Q) : rounded y s x -> signed s y.
Proof. intros [H _]. exact H. Qed.

(** The first number drawn from a generator seeded with a negative
    32-bit integer is [-0] or negative. *)
Lemma first_draw_negative (z : Z) :
  - 2 ^ 31 <= z < 0 -> signed true (fst (Engine.prng (of_Z z))).
Proof.
  intros Hz. unfold Engine.prng. cbn [fst].
  change Engine.MULTIPLIER with (S754_finite false 4628478406164480 (-22)).
  change Engine.INCREMENT with (S754_finite false 6786735522447360 (-39)).
  change Engine.MODULUS with (S754_finite false 4503599627370496 (-21)).
  change (2 ^ 31) with 2147483648 in Hz.
  (* the seed *)
  destruct z as [|p|p]; try lia.
  assert (Rs : rounded (of_Z (Zneg p)) true (inject_Z (Zpos p))).
  { apply (rounded_ext _ _ (F2Q (Zpos p) 0)); [apply F2Q_int|].
    apply binary_normalize_neg. }
  destruct (int_bounded (Zpos p)) as (m & e & B & E & _).
  { change (2 ^ 53) with 9007199254740992. lia. }
  rewrite (rounded_exact _ _ _ m e Rs B) by (symmetry; exact E).
  (* the product *)
  pose proof (SFmul_rounded false 4628478406164480 (-22) true m e eq_refl B) as RP.
  cbn [xorb] in RP.
  fold (mul (S754_finite false 4628478406164480 (-22)) (S754_finite true m e)) in RP.
  assert (EM : (F2Q 4628478406164480 (-22) == inject_Z 1103515245)%Q) by Qconcrete.
  assert (ExP : (F2Q 4628478406164480 (-22) * F2Q (Zpos m) e
                 == inject_Z (1103515245 * Zpos p))%Q)
    by (rewrite EM, E, inject_Z_mult; reflexivity).
  apply (rounded_ext _ _ _ _ ExP) in RP.
  assert (E62 : (F2Q 4503599627370496 10 == inject_Z (2 ^ 62))%Q) by Qconcrete.
  destruct (rounded_between _ _ _ 4628478406164480 (-22) 4503599627370496 10
              RP eq_refl eq_refl) as (mP & eP & EP & BP & HP1 & HP2).
  { rewrite EM, <- Zle_Qle. lia. }
  { rewrite E62, <- Zle_Qle. change (2 ^ 62) with 4611686018427387904. lia. }
  rewrite EP.
  (* the sum *)
  destruct (SFadd_finite true mP eP false 6786735522447360 (-39))
    as (Sg & ez & ES & EV).
  fold (add (S754_finite true mP eP) (S754_finite false 6786735522447360 (-39))) in ES.
  rewrite ES. cbn [SF2Q] in EV.
  assert (EI : (F2Q 6786735522447360 (-39) == 12345)%Q) by Qconcrete.
  assert (EM' : (F2Q 4628478406164480 (-22) == 1103515245)%Q) by Qconcrete.
  assert (E62' : (F2Q 4503599627370496 10 == 4611686018427387904)%Q) by Qconcrete.
  rewrite EM' in HP1. rewrite E62' in HP2.
  destruct (binary_normalize_rounded Sg ez false) as (_ & RS & _).
  assert (NS : (F2Q Sg ez < 0)%Q) by (rewrite EV, EI; lra).
  specialize (RS NS).
  destruct (rounded_between _ _ _ 4503599627370496 (-52) 4503599627370496 10
              RS eq_refl eq_refl) as (mS & eS & ESf & BS & _).
  { assert (E1 : (F2Q 4503599627370496 (-52) == 1)%Q) by Qconcrete.
    rewrite E1, EV, EI. lra. }
  { rewrite E62', EV, EI. lra. }
  rewrite ESf.
  (* the remainder and the quotient *)
  cbn [rem]. set (e' := Z.min eS (-21)).
  set (r := (Zpos mS * 2 ^ (eS - e')) mod (4503599627370496 * 2 ^ (-21 - e'))).
  assert (Hr : 0 <= r).
  { apply Z.mod_pos_bound.
    assert (0 < 2 ^ (-21 - e')) by (apply Z.pow_pos_nonneg; subst e'; lia). lia. }
  assert (Hrem : signed true (binary_normalize prec emax (- r) e' true)).
  { destruct r as [|q|q]; [left; reflexivity| |lia].
    cbn [Z.opp]. apply (rounded_signed _ _ (F2Q (Zpos q) e')).
    apply binary_normalize_neg. }
  destruct Hrem as [-> | [-> | (mr & er & -> & Br)]].
  - left. reflexivity.
  - right. left. reflexivity.
  - pose proof (SFdiv_rounded true mr er false 4503599627370496 (-21)) as RD.
    exact (rounded_signed _ _ _ RD).
Qed.


(** ** Seeds *)

Lemma wrap32_range (z : Z) : - 2 ^ 31 <= wrap32 z < 2 ^ 31.
Proof.
  unfold wrap32. pose proof (Z.mod_pos_bound (z + 2 ^ 31) (2 ^ 32) ltac:(reflexivity)).
  change (2 ^ 32) with (2 * 2 ^ 31) in *. lia.
Qed.

Lemma wrap32_small (z : Z) : - 2 ^ 31 <= z < 2 ^ 31 -> wrap32 z = z.
Proof.
  intros H. unfold wrap32. rewrite Z.mod_small; [lia|].
  change (2 ^ 32) with (2 * 2 ^ 31). lia.
Qed.

Lemma wrap32_congr (a b : Z) : a mod 2 ^ 32 = b mod 2 ^ 32 -> wrap32 a = wrap32 b.
Proof.
  intros H. unfold wrap32. f_equal.
  rewrite (Z.add_mod a), (Z.add_mod b), H by discriminate. reflexivity.
Qed.

Lemma wrap32_mod (z : Z) : wrap32 z mod 2 ^ 32 = z mod 2 ^ 32.
Proof.
  unfold wrap32.
  rewrite <- (Zminus_mod_idemp_l ((z + 2 ^ 31) mod 2 ^ 32)).
  rewrite Z.mod_mod by discriminate.
  rewrite Zminus_mod_idemp_l. f_equal. lia.
Qed.

Lemma wrap32_shift (z : Z) : exists k, wrap32 z = z + k * 2 ^ 32.
Proof.
  exists (- ((z + 2 ^ 31) / 2 ^ 32)). unfold wrap32.
  rewrite Z.mod_eq by discriminate. ring.
Qed.

Lemma ToInt32_of_Z (h : Z) : 0 <= h < 2 ^ 31 -> ToInt32 (of_Z h) = h.
Proof.
  intros Hh. unfold ToInt32.
  destruct (Z.eqb_spec h 0) as [->|NZ]; [reflexivity|].
  destruct (int_bounded h) as (m & e & B & E & _).
  { change (2 ^ 53) with 9007199254740992. change (2 ^ 31) with 2147483648 in Hh. lia. }
  rewrite (of_Z_exact h m e ltac:(lia) B E), (truncate_int m e h E).
  apply wrap32_small. lia.
Qed.

Lemma lxor_negative (a h : Z) :
  - 2 ^ 31 <= a < 0 -> 0 <= h < 2 ^ 31 -> - 2 ^ 31 <= Z.lxor a h < 0.
Proof.
  intros Ha Hh.
  set (a' := Z.lnot a).
  assert (Ha' : 0 <= a' < 2 ^ 31) by (unfold a', Z.lnot; lia).
  assert (E : a = Z.lnot a') by (unfold a'; rewrite Z.lnot_involutive; reflexivity).
  rewrite E, <- Z.lnot_lxor_l.
  set (t := Z.lxor a' h).
  assert (T0 : 0 <= t) by (apply Z.lxor_nonneg; lia).
  assert (T1 : t < 2 ^ 31).
  { destruct (Z.eqb_spec t 0) as [->|NZ]; [reflexivity|].
    apply Z.log2_lt_pow2; [lia|].
    pose proof (Z.log2_lxor a' h ltac:(lia) ltac:(lia)) as L. fold t in L.
    assert (La : Z.log2 a' < 31).
    { destruct (Z.eqb_spec a' 0) as [->|]; [reflexivity|]. apply Z.log2_lt_pow2; lia. }
    assert (Lh : Z.log2 h < 31).
    { destruct (Z.eqb_spec h 0) as [->|]; [reflexivity|]. apply Z.log2_lt_pow2; lia. }
    lia. }
  unfold Z.lnot. lia.
Qed.

Lemma lt_0_not_negative (b : num) : (lit 0 <? b)%js = true -> (b <? lit 0)%js = false.
Proof.
  destruct b as [[|]|[|]| |[|] m e]; intros H; try discriminate H; reflexivity.
Qed.

(** ** The hash of a round id *)

Lemma polyHash_congr (str : string) :
  forall a b, a mod 2 ^ 32 = b mod 2 ^ 32 ->
  wrap32 (polyHash a str) = wrap32 (polyHash b str).
Proof.
  induction str as [|c rest IH]; intros a b H; cbn [polyHash].
  - apply wrap32_congr. exact H.
  - apply IH.
    rewrite (Z.add_mod (31 * a)), (Z.add_mod (31 * b)) by discriminate.
    rewrite (Z.mul_mod 31 a), (Z.mul_mod 31 b), H by discriminate. reflexivity.
Qed.

Lemma hashString_from_polyHash (str : string) :
  forall a, Engine.hashString_from (wrap32 a) str = wrap32 (polyHash a str).
Proof.
  induction str as [|c rest IH]; intros a; cbn [Engine.hashString_from polyHash].
  - reflexivity.
  - rewrite IH. apply polyHash_congr.
    destruct (wrap32_shift a) as [k Hk].
    destruct (wrap32_shift (wrap32 a * 2 ^ 5)) as [k' Hk'].
    rewrite Hk', Hk. change (2 ^ 5) with 32.
    replace ((a + k * 2 ^ 32) * 32 + k' * 2 ^ 32 - (a + k * 2 ^ 32) + Engine.charCode c)
      with (31 * a + Engine.charCode c + (31 * k + k') * 2 ^ 32) by ring.
    apply Z_mod_plus_full.
Qed.

Lemma hashString_from_0 (str : string) :
  Engine.hashString_from 0 str = wrap32 (polyHash 0 str).
Proof. exact (hashString_from_polyHash str 0). Qed.

Lemma hashString_range (str : string) : 0 <= Engine.hashString str <= 2 ^ 31.
Proof.
  unfold Engine.hashString. rewrite hashString_from_0.
  pose proof (wrap32_range (polyHash 0 str)). lia.
Qed.


(** ** The crash engine *)

Lemma draw_win (Math_log Math_exp Math_cos : num -> num)
  (lossBias maxWin : num) (finalSeed : Z) :
  (fst (Engine.prng (Engine.createDeterministicPRNG (of_Z finalSeed))) <? lossBias)%js = false ->
  snd (fst (Engine.drawOutcome Math_log Math_exp Math_cos lossBias maxWin finalSeed)) =
  fst (Engine.generateWinMultiplier Math_log Math_exp maxWin
         (snd (Engine.prng (Engine.createDeterministicPRNG (of_Z finalSeed))))).
Proof.
  unfold Engine.drawOutcome, bind, ret.
  destruct (Engine.prng _) as [r s]. cbn [fst snd]. intros ->.
  destruct (Engine.generateWinMultiplier _ _ _ _) as [m s']. reflexivity.
Qed.

Lemma finalSeed_negative (roundId : string) (options : Engine.Options) :
  ToInt32 (baseSeedOf options) < 0 ->
  Engine.hashString roundId < 2 ^ 31 ->
  - 2 ^ 31 <= Engine.finalSeedOf roundId (Engine.opt_customSeed options) < 0.
Proof.
  intros Hseed Hhash.
  unfold Engine.finalSeedOf, Engine.xor32. fold (baseSeedOf options).
  pose proof (hashString_range roundId) as Hr.
  rewrite (ToInt32_of_Z (Engine.hashString roundId)) by lia.
  apply lxor_negative; [|lia].
  pose proof (wrap32_range (truncate (baseSeedOf options))) as Hw.
  unfold ToInt32 in *. lia.
Qed.

(** The hash of a string is the absolute value of the polynomial
    [c_1 * 31^(n-1) + ... + c_n] over its code units, reduced to a signed
    32-bit integer: reducing after every character, as the loop does,
    loses nothing.  It lies between 0 and 2^31, both included. *)
Theorem hash_is_the_wrapped_polynomial (str : string) :
  Engine.hashString str = Z.abs (wrap32 (polyHash 0 str)) /\
  0 <= Engine.hashString str <= 2 ^ 31.
Proof.
  split.
  - unfold Engine.hashString. rewrite hashString_from_0. reflexivity.
  - apply hashString_range.
Qed.

(** A generator created from an integer seed in [0, 2^31) returns numbers
    in [0, 1) only, however often it is called. *)
Theorem draws_of_a_nonnegative_seed_are_in_the_unit_interval
  (seed : Z) (n : nat) (r : num) :
  0 <= seed < 2 ^ 31 ->
  In r (draws n (Engine.createDeterministicPRNG (of_Z seed))) ->
  (lit 0 <=? r)%js = true /\ (r <? lit 1)%js = true.
Proof.
  intros Hseed Hin.
  apply (draws_in_range n (of_Z seed) seed r); [|exact Hseed|exact Hin].
  apply holds_of_Z. exact Hseed.
Qed.

Lemma draws_of_a_nonnegative_seed_are_in_the_unit_interval_witness :
  (lit 0 <=? lit 0.17589852772653103)%js = true /\
  (lit 0.17589852772653103 <? lit 1)%js = true.
Proof.
  apply (draws_of_a_nonnegative_seed_are_in_the_unit_interval 3583 3).
  - lia.
  - vm_compute. left. reflexivity.
Defined.

(** When the 32-bit value of the base seed is negative, as it is for the
    configured seed 0xABCD1234, and the hash of the round id is below
    2^31, the seed of the round is negative and the round is a loss round
    for every loss bias in (0, 1]: the first number drawn is not above
    zero. *)
Theorem negative_base_seed_gives_loss_rounds
  (Math_log Math_exp Math_cos : num -> num) (now : Clock)
  (options : Engine.Options) :
  ToInt32 (baseSeedOf options) < 0 ->
  Engine.hashString (Engine.roundIdOf now options) < 2 ^ 31 ->
  (lit 0 <? Engine.lossBiasOf options)%js = true ->
  (Engine.lossBiasOf options >? lit 1)%js = false ->
  (Engine.maxWinMultiplierOf options <? lit 1.0)%js = false ->
  exists g,
    Engine.generateCrashMultiplier Math_log Math_exp Math_cos now options = Ok g /\
    Engine.seed g < 0 /\
    Engine.isLossRound g = true /\
    Engine.roundType g = "loss".
Proof.
  intros Hseed Hhash Hpos Hle Hmax.
  destruct (generate_returns Math_log Math_exp Math_cos now options
              (lt_0_not_negative _ Hpos) Hle Hmax) as [g Hg].
  exists g. split; [exact Hg|].
  destruct (generate_fields _ _ _ _ _ _ Hg) as (_ & Hl & Htype & _ & _ & Hs).
  pose proof (finalSeed_negative (Engine.roundIdOf now options) options Hseed Hhash) as Hneg.
  assert (E : fst (fst (Engine.outcomeOf Math_log Math_exp Math_cos now options)) = true).
  { unfold Engine.outcomeOf. rewrite draw_isLoss.
    apply signed_true_lt; [|exact Hpos].
    apply first_draw_negative. exact Hneg. }
  rewrite E in Hl, Htype.
  split; [rewrite Hs; lia|]. split; assumption.
Qed.

Lemma negative_base_seed_gives_loss_rounds_witness :
  exists g,
    Engine.generateCrashMultiplier RefMath.log RefMath.exp RefMath.cos 0
      (r1_options (lit 0.8) None) = Ok g /\
    Engine.seed g < 0 /\
    Engine.isLossRound g = true /\
    Engine.roundType g = "loss".
Proof.
  apply (negative_base_seed_gives_loss_rounds RefMath.log RefMath.exp RefMath.cos 0
           (r1_options (lit 0.8) None));
    vm_compute; reflexivity.
Defined.

(** The multiplier of a win round, before it is printed, does not exceed
    the maximum multiplier of the call whenever it is a number. *)
Theorem win_multiplier_is_capped
  (Math_log Math_exp Math_cos : num -> num) (now : Clock)
  (options : Engine.Options) (g : Engine.GameResult) :
  Engine.generateCrashMultiplier Math_log Math_exp Math_cos now options = Ok g ->
  Engine.isLossRound g = false ->
  let raw := Engine.rawMultiplier Math_log Math_exp Math_cos now options in
  raw <> NaN ->
  (raw <=? Engine.maxWinMultiplierOf options)%js = true.
Proof.
  intros Hg Hwin raw.
  destruct (generate_fields _ _ _ _ _ _ Hg) as (_ & Hl & _).
  rewrite Hwin in Hl. symmetry in Hl.
  unfold Engine.outcomeOf in Hl. rewrite draw_isLoss in Hl.
  subst raw. unfold Engine.rawMultiplier, Engine.outcomeOf.
  rewrite (draw_win _ _ _ _ _ _ Hl).
  unfold Engine.generateWinMultiplier, bind, ret.
  destruct (Engine.prng _) as [randomValue s']. cbn [fst].
  intros Hnum. exact (proj1 (Math_min_spec _ _ Hnum)).
Qed.

Lemma win_multiplier_is_capped_witness :
  exists g,
    Engine.generateCrashMultiplier RefMath.log RefMath.exp RefMath.cos 0
      (r1_options (lit 0.8) (Some (lit 14))) = Ok g /\
    Engine.isLossRound g = false /\
    (Engine.rawMultiplier RefMath.log RefMath.exp RefMath.cos 0
       (r1_options (lit 0.8) (Some (lit 14))) <=? lit 100)%js = true.
Proof.
  destruct (generate_returns RefMath.log RefMath.exp RefMath.cos 0
              (r1_options (lit 0.8) (Some (lit 14))))
    as [g Hg]; [vm_compute; reflexivity ..|].
  assert (Hwin : Engine.isLossRound g = false).
  { destruct (generate_fields _ _ _ _ _ _ Hg) as (_ & Hl & _).
    rewrite Hl. vm_compute. reflexivity. }
  exists g. split; [exact Hg|split; [exact Hwin|]].
  apply (win_multiplier_is_capped _ _ _ _ _ _ Hg Hwin).
  vm_compute. discriminate.
Defined.


(** A number of the format in [1.1, 2.0] is still in [1.1, 2.0] once it
    has been printed with four decimals. *)
Lemma printed_loss_multiplier (a : num) :
  isNumber a = true ->
  (lit 1.1 <=? a)%js = true -> (a <=? lit 2.0)%js = true ->
  (lit 1.1 <=? toFixed a 4)%js = true /\ (toFixed a 4 <=? lit 2.0)%js = true.
Proof.
  intros Ha Hmin Hmax.
  change (lit 1.1) with (S754_finite false 4953959590107546 (-52)) in *.
  change (lit 2.0) with (S754_finite false 4503599627370496 (-51)) in *.
  unfold le in *.
  destruct (between_finite a 4953959590107546 (-52) 4503599627370496 (-51)
              Ha eq_refl eq_refl Hmin Hmax)
    as (m & e & -> & B & Hlo & Hhi).
  assert (E1 : (11000 <= F2Q 4953959590107546 (-52) * 10000)%Q) by Qconcrete.
  assert (E2 : (F2Q 4503599627370496 (-51) == 2)%Q) by Qconcrete.
  rewrite E2 in Hhi.
  assert (H21 : le (lit 1e21) (S754_finite false m e) = false).
  { destruct (le (lit 1e21) (S754_finite false m e)) eqn:C; [|reflexivity].
    change (lit 1e21) with (S754_finite false 7629394531250000 17) in C.
    apply SFleb_F2Q in C; [|reflexivity|exact B].
    assert (2 < F2Q 7629394531250000 17)%Q by Qconcrete. lra. }
  assert (Hn1 : 11000 <= decimalOf m e 4).
  { apply decimalOf_ge; [lia|]. change (inject_Z (10 ^ 4)) with 10000%Q.
    change (inject_Z 11000) with 11000%Q. lra. }
  assert (Hn2 : decimalOf m e 4 <= 20000).
  { apply decimalOf_le; [lia|]. change (inject_Z (10 ^ 4)) with 10000%Q.
    change (inject_Z 20000) with 20000%Q. lra. }
  destruct (Z.eqb_spec (decimalOf m e 4) 11000) as [E|NE].
  - rewrite (toFixed_finite false m e 4 H21), E. split; vm_compute; reflexivity.
  - destruct (toFixed_rounded false m e 4 ltac:(lia) H21 ltac:(lia)) as (Hs & Hge & Hle).
    change (inject_Z (10 ^ 4)) with 10000%Q in Hge, Hle.
    assert (Q1 : (11001 <= inject_Z (decimalOf m e 4))%Q)
      by (change 11001%Q with (inject_Z 11001); rewrite <- Zle_Qle; lia).
    assert (Q2 : (inject_Z (decimalOf m e 4) <= 20000)%Q)
      by (change 20000%Q with (inject_Z 20000); rewrite <- Zle_Qle; exact Hn2).
    specialize (Hge 4953959590107546%positive (-52) eq_refl).
    specialize (Hle 4503599627370496%positive (-51) eq_refl).
    rewrite E2 in Hle.
    assert (G1 : (F2Q 4953959590107546 (-52) <= inject_Z (decimalOf m e 4) / 10000)%Q).
    { apply Qle_shift_div_l; [reflexivity|].
      assert (F2Q 4953959590107546 (-52) * 10000 <= 11001)%Q by Qconcrete. lra. }
    assert (G2 : (inject_Z (decimalOf m e 4) / 10000 <= 2)%Q).
    { apply Qle_shift_div_r; [reflexivity|]. lra. }
    specialize (Hge G1). specialize (Hle G2).
    destruct Hs as [E | [E | (mb & eb & E & Bb)]]; rewrite E in Hge, Hle |- *;
      try discriminate.
    cbn [SFabs] in Hge, Hle. split; assumption.
Qed.

Lemma drawn_loss_multiplier (Math_log Math_exp Math_cos : num -> num)
  (lossBias maxWin : num) (finalSeed : Z) :
  let outcome := Engine.drawOutcome Math_log Math_exp Math_cos lossBias maxWin finalSeed in
  fst (fst outcome) = true ->
  snd (fst outcome) <> NaN ->
  (lit 1.1 <=? snd (fst outcome))%js = true /\ (snd (fst outcome) <=? lit 2.0)%js = true.
Proof.
  intros outcome Hl. subst outcome. rewrite draw_isLoss in Hl.
  rewrite (draw_loss _ _ _ _ _ _ Hl).
  unfold Engine.generateLossMultiplier, bind, ret.
  destruct (Engine.generateNormalDistribution _ _ _) as [normalValue s'].
  cbn [fst]. apply clamp_bounds. vm_compute. reflexivity.
Qed.

(** The multiplier that a loss round reports, printed with four
    decimals, lies in [1.1, 2.0] whenever the multiplier drawn is a
    number of the format other than [NaN]. *)
Theorem loss_round_reports_a_bounded_multiplier
  (Math_log Math_exp Math_cos : num -> num) (now : Clock)
  (options : Engine.Options) (g : Engine.GameResult) :
  Engine.generateCrashMultiplier Math_log Math_exp Math_cos now options = Ok g ->
  Engine.isLossRound g = true ->
  let raw := Engine.rawMultiplier Math_log Math_exp Math_cos now options in
  isNumber raw = true -> raw <> NaN ->
  (lit 1.1 <=? Engine.crashMultiplier g)%js = true /\
  (Engine.crashMultiplier g <=? lit 2.0)%js = true.
Proof.
  intros Hg Hloss raw Hnum Hnan.
  destruct (generate_fields _ _ _ _ _ _ Hg) as (Hm & Hl & _).
  rewrite Hloss in Hl. symmetry in Hl. rewrite Hm. fold raw.
  apply printed_loss_multiplier; [exact Hnum| |];
    apply (drawn_loss_multiplier _ _ _ _ _ _ Hl Hnan).
Qed.

Lemma loss_round_reports_a_bounded_multiplier_witness :
  exists g,
    Engine.generateCrashMultiplier RefMath.log RefMath.exp RefMath.cos 0
      (r1_options (lit 0.8) (Some (lit 0))) = Ok g /\
    Engine.crashMultiplier g = lit 1.2653 /\
    (lit 1.1 <=? Engine.crashMultiplier g)%js = true /\
    (Engine.crashMultiplier g <=? lit 2.0)%js = true.
Proof.
  destruct (generate_returns RefMath.log RefMath.exp RefMath.cos 0
              (r1_options (lit 0.8) (Some (lit 0))))
    as [g Hg]; [vm_compute; reflexivity ..|].
  assert (Hloss : Engine.isLossRound g = true).
  { destruct (generate_fields _ _ _ _ _ _ Hg) as (_ & Hl & _).
    rewrite Hl. vm_compute. reflexivity. }
  exists g. split; [exact Hg|]. split.
  - destruct (generate_fields _ _ _ _ _ _ Hg) as (Hm & _).
    rewrite Hm. vm_compute. reflexivity.
  - apply (loss_round_reports_a_bounded_multiplier _ _ _ _ _ _ Hg Hloss).
    + vm_compute. reflexivity.
    + vm_compute. discriminate.
Defined.


(** ** Batches of rounds *)

Lemma add_of_Z (a b : Z) :
  0 < a -> 0 < b -> a + b < 2 ^ 53 -> (of_Z a + of_Z b)%js = of_Z (a + b).
Proof.
  intros Ha Hb Hab.
  destruct (int_bounded a ltac:(lia)) as (ma & ea & Ba & Ea & _).
  destruct (int_bounded b ltac:(lia)) as (mb & eb & Bb & Eb & _).
  destruct (int_bounded (a + b) ltac:(lia)) as (mc & ec & Bc & Ec & _).
  rewrite (of_Z_exact a ma ea Ha Ba Ea), (of_Z_exact b mb eb Hb Bb Eb),
    (of_Z_exact (a + b) mc ec ltac:(lia) Bc Ec).
  destruct (SFadd_finite false ma ea false mb eb) as (S & ez & Heq & HF).
  unfold add. rewrite Heq. cbn [SF2Q] in HF. rewrite Ea, Eb, <- inject_Z_plus in HF.
  assert (P : (0 < F2Q S ez)%Q).
  { rewrite HF. change 0%Q with (inject_Z 0). rewrite <- Zlt_Qlt. lia. }
  apply (rounded_exact _ _ (F2Q S ez)).
  - apply binary_normalize_rounded. exact P.
  - exact Bc.
  - rewrite HF, Ec. reflexivity.
Qed.

Lemma batch_seed_negative (i : nat) :
  Z.of_nat i < 1412623820 ->
  ToInt32 (Engine.SEED + of_Z (Z.of_nat i))%js < 0.
Proof.
  intros Hi. destruct i as [|i]; [vm_compute; reflexivity|].
  change Engine.SEED with (of_Z 2882343476).
  rewrite add_of_Z by (change (2 ^ 53) with 9007199254740992; lia).
  set (t := 2882343476 + Z.of_nat (S i)).
  assert (Ht : 2882343476 < t < 4294967296) by (unfold t; lia).
  destruct (int_bounded t) as (m & e & B & E & _).
  { change (2 ^ 53) with 9007199254740992. lia. }
  unfold ToInt32.
  rewrite (of_Z_exact t m e ltac:(lia) B E), (truncate_int m e t E).
  unfold wrap32.
  replace ((t + 2 ^ 31) mod 2 ^ 32) with (t + 2 ^ 31 - 2 ^ 32).
  - change (2 ^ 31) with 2147483648. change (2 ^ 32) with 4294967296. lia.
  - apply (Z.mod_unique _ _ 1);
      change (2 ^ 31) with 2147483648; change (2 ^ 32) with 4294967296; lia.
Qed.

Lemma trips_of_nat (n : nat) :
  Z.of_nat n < 2 ^ 53 -> Engine.trips (of_Z (Z.of_nat n)) = Some n.
Proof.
  intros Hn. destruct n as [|n]; [reflexivity|].
  set (z := Z.of_nat (S n)) in *.
  assert (Hz : 0 < z) by (unfold z; lia).
  destruct (int_bounded z ltac:(lia)) as (m & e & B & E & He & Hm).
  rewrite (of_Z_exact z m e Hz B E). cbn [Engine.trips].
  assert (C : (S754_finite false m e <=? lit 9007199254740992)%js = true).
  { change (lit 9007199254740992) with (S754_finite false 4503599627370496 1).
    apply SFleb_F2Q; [exact B|reflexivity|].
    assert (E53 : (F2Q 4503599627370496 1 == inject_Z (2 ^ 53))%Q) by Qconcrete.
    rewrite E, E53, <- Zle_Qle. lia. }
  rewrite C. f_equal. rewrite <- (Nat2Z.id (S n)). fold z. f_equal.
  destruct (Z.leb_spec 0 e) as [G|G].
  - replace e with 0 in * by lia. rewrite Hm. cbn. lia.
  - rewrite Hm.
    assert (P : 0 < 2 ^ (- e)) by (apply Z.pow_pos_nonneg; lia).
    replace (z * 2 ^ (- e) + 2 ^ (- e) - 1) with (z * 2 ^ (- e) + (2 ^ (- e) - 1)) by ring.
    rewrite Z.div_add_l by lia. rewrite Z.div_small by lia. lia.
Qed.

Lemma generate_metadata (Math_log Math_exp Math_cos : num -> num)
  (now : Clock) (options : Engine.Options) (g : Engine.GameResult) :
  Engine.generateCrashMultiplier Math_log Math_exp Math_cos now options = Ok g ->
  Engine.meta_roundId (Engine.metadata g) = Engine.roundIdOf now options.
Proof.
  unfold Engine.generateCrashMultiplier.
  destruct (_ || _)%bool; [discriminate|].
  destruct (Engine.maxWinMultiplierOf options <? Engine.MIN_MULTIPLIER)%js; [discriminate|].
  destruct (Engine.drawOutcome _ _ _ _ _ _) as [[isLoss raw] s].
  destruct (Engine.generateCrashCurve _ _ _ _ _) as [curve s'].
  intros H; injection H as <-. reflexivity.
Qed.

Section BatchLoop.

Variables Math_log Math_exp Math_cos : num -> num.
Variable clock : nat -> Clock.

#[local] Abbreviation roundOf := (Engine.batchRound Math_log Math_exp Math_cos clock).

Lemma batchLoop_ok (options : Engine.Options) (indices : list nat) :
  (forall i, In i indices -> exists g, roundOf options i = Ok g) ->
  forall rounds, exists new,
    Engine.batchLoop Math_log Math_exp Math_cos clock options indices rounds
    = Ok (rounds ++ new) /\
    Forall2 (fun i g => roundOf options i = Ok g) indices new.
Proof.
  induction indices as [|i rest IH]; intros Hall rounds; cbn [Engine.batchLoop].
  - exists []. rewrite app_nil_r. split; [reflexivity|constructor].
  - destruct (Hall i (or_introl eq_refl)) as [g Hg]. rewrite Hg.
    destruct (IH (fun j Hj => Hall j (or_intror Hj)) (rounds ++ [g])) as (new & E & F).
    exists (g :: new). rewrite E, <- app_assoc. split; [reflexivity|].
    constructor; assumption.
Qed.

Lemma batch_rounds (options : Engine.Options) (n : nat) :
  Z.of_nat n < 2 ^ 53 ->
  (Engine.lossBiasOf options <? lit 0)%js = false ->
  (Engine.lossBiasOf options >? lit 1)%js = false ->
  (Engine.maxWinMultiplierOf options <? lit 1.0)%js = false ->
  exists rounds,
    Engine.generateRoundBatch Math_log Math_exp Math_cos clock
      (of_Z (Z.of_nat n)) options = Some (Ok rounds) /\
    Forall2 (fun i g => roundOf options i = Ok g) (seq 0 n) rounds.
Proof.
  intros Hn H1 H2 H3. unfold Engine.generateRoundBatch.
  rewrite (trips_of_nat n Hn).
  destruct (batchLoop_ok options (seq 0 n)) with (rounds := @nil Engine.GameResult)
    as (new & E & F).
  - intros i _. apply generate_returns; assumption.
  - exists new. split; [rewrite E; reflexivity|exact F].
Qed.

End BatchLoop.

Lemma Forall2_seq_nth {A : Type} (P : nat -> A -> Prop) (l : list A) :
  forall start n, Forall2 P (seq start n) l ->
  List.length l = n /\
  forall i, (i < n)%nat -> exists a, nth_error l i = Some a /\ P (start + i)%nat a.
Proof.
  induction l as [|a l IH]; intros start n F.
  - inversion F as [E|]. destruct n; [|discriminate]. split; [reflexivity|].
    intros i Hi. inversion Hi.
  - destruct n as [|n]; [inversion F|]. cbn [seq] in F.
    inversion F as [|? ? ? ? Pa F']; subst.
    destruct (IH _ _ F') as [Hlen Hnth]. split; [cbn; f_equal; exact Hlen|].
    intros [|i] Hi.
    + exists a. rewrite Nat.add_0_r. split; [reflexivity|exact Pa].
    + destruct (Hnth i ltac:(apply Nat.succ_lt_mono; exact Hi)) as (b & Hb & Pb).
      exists b. split; [exact Hb|].
      replace (start + S i)%nat with (S start + i)%nat by apply Nat.add_succ_comm.
      exact Pb.
Qed.

(** A batch of [n] rounds with a valid configuration is a list of [n]
    results; the round at index [i] has the id [batch_<time>_<i>] and the
    seed [(SEED + i) ^ hash(id)]. *)
Theorem batch_has_one_round_per_index
  (Math_log Math_exp Math_cos : num -> num) (clock : nat -> Clock)
  (options : Engine.Options) (n : nat) :
  Z.of_nat n < 2 ^ 53 ->
  (Engine.lossBiasOf options <? lit 0)%js = false ->
  (Engine.lossBiasOf options >? lit 1)%js = false ->
  (Engine.maxWinMultiplierOf options <? lit 1.0)%js = false ->
  exists rounds,
    Engine.generateRoundBatch Math_log Math_exp Math_cos clock
      (of_Z (Z.of_nat n)) options = Some (Ok rounds) /\
    List.length rounds = n /\
    forall i, (i < n)%nat -> exists g,
      nth_error rounds i = Some g /\
      Engine.meta_roundId (Engine.metadata g) = Engine.batchRoundId clock i /\
      Engine.seed g =
        Engine.xor32 (Engine.SEED + of_Z (Z.of_nat i))%js
          (of_Z (Engine.hashString (Engine.batchRoundId clock i))).
Proof.
  intros Hn H1 H2 H3.
  destruct (batch_rounds Math_log Math_exp Math_cos clock options n Hn H1 H2 H3)
    as (rounds & E & F).
  exists rounds. split; [exact E|].
  destruct (Forall2_seq_nth _ _ _ _ F) as [Hlen Hnth]. split; [exact Hlen|].
  intros i Hi. destruct (Hnth i Hi) as (g & Hg & Pg). cbn [Nat.add] in Pg.
  exists g. split; [exact Hg|]. unfold Engine.batchRound in Pg. split.
  - rewrite (generate_metadata _ _ _ _ _ _ Pg). reflexivity.
  - destruct (generate_fields _ _ _ _ _ _ Pg) as (_ & _ & _ & _ & _ & Hs).
    rewrite Hs. reflexivity.
Qed.

Lemma batch_has_one_round_per_index_witness :
  exists rounds,
    Engine.generateRoundBatch RefMath.log RefMath.exp RefMath.cos (fun _ => 0)
      (of_Z (Z.of_nat 2)) (r1_options (lit 0.8) None) = Some (Ok rounds) /\
    List.length rounds = 2%nat /\
    forall i, (i < 2)%nat -> exists g,
      nth_error rounds i = Some g /\
      Engine.meta_roundId (Engine.metadata g) = Engine.batchRoundId (fun _ => 0) i /\
      Engine.seed g =
        Engine.xor32 (Engine.SEED + of_Z (Z.of_nat i))%js
          (of_Z (Engine.hashString (Engine.batchRoundId (fun _ => 0) i))).
Proof.
  apply (batch_has_one_round_per_index RefMath.log RefMath.exp RefMath.cos (fun _ => 0)
           (r1_options (lit 0.8) None) 2);
    vm_compute; reflexivity.
Defined.

(** With the configured seed every round of a batch is a loss round: for
    a loss bias in (0, 1], fewer than 1412623820 rounds and round ids
    whose hash is below 2^31, the seed of every round of the batch is
    negative and every round is categorized as a loss. *)
Theorem batch_rounds_are_loss_rounds
  (Math_log Math_exp Math_cos : num -> num) (clock : nat -> Clock)
  (options : Engine.Options) (n : nat) :
  Z.of_nat n <= 1412623820 ->
  (lit 0 <? Engine.lossBiasOf options)%js = true ->
  (Engine.lossBiasOf options >? lit 1)%js = false ->
  (Engine.maxWinMultiplierOf options <? lit 1.0)%js = false ->
  (forall i, (i < n)%nat ->
     Engine.hashString (Engine.batchRoundId clock i) < 2 ^ 31) ->
  exists rounds,
    Engine.generateRoundBatch Math_log Math_exp Math_cos clock
      (of_Z (Z.of_nat n)) options = Some (Ok rounds) /\
    List.length rounds = n /\
    Forall (fun g => Engine.seed g < 0 /\ Engine.isLossRound g = true) rounds.
Proof.
  intros Hn Hpos H2 H3 Hhash.
  destruct (batch_rounds Math_log Math_exp Math_cos clock options n
              ltac:(change (2 ^ 53) with 9007199254740992; lia)
              (lt_0_not_negative _ Hpos) H2 H3)
    as (rounds & E & F).
  exists rounds. split; [exact E|].
  destruct (Forall2_seq_nth _ _ _ _ F) as [Hlen Hnth]. split; [exact Hlen|].
  apply Forall_forall. intros g Hin.
  destruct (In_nth_error _ _ Hin) as [i Hi].
  assert (Hlt : (i < n)%nat).
  { rewrite <- Hlen. apply nth_error_Some. rewrite Hi. discriminate. }
  destruct (Hnth i Hlt) as (g' & Hg' & Pg). cbn [Nat.add] in Pg.
  rewrite Hi in Hg'. injection Hg' as <-.
  unfold Engine.batchRound in Pg.
  destruct (generate_fields _ _ _ _ _ _ Pg) as (_ & Hl & _ & _ & _ & Hs).
  set (o := Engine.batchOptions clock options i) in *.
  pose proof (finalSeed_negative (Engine.roundIdOf (clock (2 * i + 1)%nat) o) o
                (batch_seed_negative i ltac:(lia)) (Hhash i Hlt)) as Hneg.
  split; [rewrite Hs; lia|].
  rewrite Hl. unfold Engine.outcomeOf. rewrite draw_isLoss.
  apply signed_true_lt; [|exact Hpos].
  apply first_draw_negative. exact Hneg.
Qed.

Lemma batch_rounds_are_loss_rounds_witness :
  exists rounds,
    Engine.generateRoundBatch RefMath.log RefMath.exp RefMath.cos (fun _ => 0)
      (of_Z (Z.of_nat 2)) (r1_options (lit 0.8) None) = Some (Ok rounds) /\
    List.length rounds = 2%nat /\
    Forall (fun g => Engine.seed g < 0 /\ Engine.isLossRound g = true) rounds.
Proof.
  apply (batch_rounds_are_loss_rounds RefMath.log RefMath.exp RefMath.cos (fun _ => 0)
           (r1_options (lit 0.8) None) 2).
  - lia.
  - vm_compute. reflexivity.
  - vm_compute. reflexivity.
  - vm_compute. reflexivity.
  - intros i Hi.
    assert (E : i = 0%nat \/ i = 1%nat) by lia.
    destruct E as [-> | ->]; vm_compute; reflexivity.
Defined.


(** ** Validation of a bet *)

Lemma lower_upper (c : ascii) : ColorEngine.lower (ColorEngine.upper c) = ColorEngine.lower c.
Proof. destruct c as [[|] [|] [|] [|] [|] [|] [|] [|]]; vm_compute; reflexivity. Qed.

Lemma upper_lower (c : ascii) : ColorEngine.upper (ColorEngine.lower c) = ColorEngine.upper c.
Proof. destruct c as [[|] [|] [|] [|] [|] [|] [|] [|]]; vm_compute; reflexivity. Qed.

Lemma toLowerCase_toUpperCase (s : string) :
  ColorEngine.toLowerCase (ColorEngine.toUpperCase s) = ColorEngine.toLowerCase s.
Proof.
  induction s as [|c s IH]; cbn [ColorEngine.toLowerCase ColorEngine.toUpperCase];
    [reflexivity|]. rewrite lower_upper, IH. reflexivity.
Qed.

Lemma toUpperCase_toLowerCase (s : string) :
  ColorEngine.toUpperCase (ColorEngine.toLowerCase s) = ColorEngine.toUpperCase s.
Proof.
  induction s as [|c s IH]; cbn [ColorEngine.toLowerCase ColorEngine.toUpperCase];
    [reflexivity|]. rewrite upper_lower, IH. reflexivity.
Qed.

Lemma lookup_key (c : ColorEngine.Color) : ColorEngine.lookup (ColorEngine.key c) = Some c.
Proof. destruct c; reflexivity. Qed.

Lemma lookup_Some (k : string) (c : ColorEngine.Color) :
  ColorEngine.lookup k = Some c -> k = ColorEngine.key c.
Proof.
  unfold ColorEngine.lookup. intros H. apply find_some in H as [_ H].
  apply String.eqb_eq in H. symmetry. exact H.
Qed.

(** The colour test of [validateColorBet] passes exactly when the colour
    in lower case is a key of [COLOR_PROPERTIES]. *)
Lemma colorErrors_nil (color : string) :
  ColorEngine.colorErrors color = [] <->
  exists c, ColorEngine.toLowerCase color = ColorEngine.key c.
Proof.
  unfold ColorEngine.colorErrors, ColorEngine.COLORS. split.
  - destruct (String.eqb_spec (ColorEngine.toUpperCase color) "RED") as [E|_];
      [intros _; exists ColorEngine.red|
       destruct (String.eqb_spec (ColorEngine.toUpperCase color) "GREEN") as [E|_];
       [intros _; exists ColorEngine.green|
        destruct (String.eqb_spec (ColorEngine.toUpperCase color) "VIOLET") as [E|_];
        [intros _; exists ColorEngine.violet|discriminate]]];
      rewrite <- toLowerCase_toUpperCase, E; reflexivity.
  - intros [c E]. rewrite <- toUpperCase_toLowerCase, E. destruct c; reflexivity.
Qed.

Lemma amountErrors_nil (amount : option num) :
  ColorEngine.amountErrors amount = [] <->
  exists a, amount = Some a /\
    (ColorEngine.MIN_BET_AMOUNT <=? a)%js = true /\
    (a <=? ColorEngine.MAX_BET_AMOUNT)%js = true.
Proof.
  unfold ColorEngine.amountErrors. split.
  - destruct amount as [a|]; [|discriminate].
    destruct (ColorEngine.isNaN a) eqn:N; [discriminate|].
    assert (Hn : a <> NaN) by (intros ->; discriminate N).
    destruct (a <? ColorEngine.MIN_BET_AMOUNT)%js eqn:L; [discriminate|].
    destruct (a >? ColorEngine.MAX_BET_AMOUNT)%js eqn:G; [discriminate|].
    intros _. exists a. split; [reflexivity|].
    split; apply SFltb_false_SFleb; try assumption; discriminate.
  - intros (a & -> & L & G).
    assert (N : ColorEngine.isNaN a = false) by (destruct a; try reflexivity; discriminate L).
    rewrite N, (le_lt_false _ _ L).
    change (a >? ColorEngine.MAX_BET_AMOUNT)%js with (ColorEngine.MAX_BET_AMOUNT <? a)%js.
    rewrite (le_lt_false _ _ G). reflexivity.
Qed.

Lemma validateColorBet_Valid (now : Clock) (betData : ColorEngine.BetRequest)
  (bet : ColorEngine.ValidatedBet) :
  ColorEngine.validateColorBet now betData = ColorEngine.Valid bet ->
  ColorEngine.colorErrors (ColorEngine.requestColor betData) = [] /\
  ColorEngine.amountErrors (ColorEngine.requestAmount betData) = [] /\
  exists a, ColorEngine.requestAmount betData = Some a /\
    bet = ColorEngine.mkValidatedBet
            (ColorEngine.toLowerCase (ColorEngine.requestColor betData))
            (toFixed a 2) now.
Proof.
  unfold ColorEngine.validateColorBet.
  destruct (ColorEngine.colorErrors _ ++ ColorEngine.amountErrors _) as [|e l] eqn:E;
    [|destruct (ColorEngine.requestAmount betData); discriminate].
  apply app_eq_nil in E as [E1 E2].
  destruct (ColorEngine.requestAmount betData) as [a|]; [|discriminate].
  intros H; injection H as <-.
  split; [exact E1|split; [exact E2|]]. exists a. split; reflexivity.
Qed.

(** For a request whose colour is a string of code units below 256, the
    engine accepts the bet exactly when the colour, in lower case, is
    one of the three configured colours and the amount is a number
    between the minimum and the maximum bet.  (On a colour that is no
    string the call throws, and a string with a unit from 256 on is
    outside the model, see [toUpperCase].) *)
Theorem validateColorBet_accepts_exactly (now : Clock)
  (betData : ColorEngine.BetRequest) :
  ColorEngine.isValid (ColorEngine.validateColorBet now betData) = true <->
  In (ColorEngine.toLowerCase (ColorEngine.requestColor betData))
     ["red"; "green"; "violet"] /\
  exists a, ColorEngine.requestAmount betData = Some a /\
    (lit 1 <=? a)%js = true /\ (a <=? lit 100000)%js = true.
Proof.
  split.
  - destruct (ColorEngine.validateColorBet now betData) as [bet|errs] eqn:V;
      [intros _|discriminate].
    apply validateColorBet_Valid in V as (Hc & Ha & _).
    split; [|exact (proj1 (amountErrors_nil _) Ha)].
    apply colorErrors_nil in Hc as [c ->].
    destruct c; cbn; tauto.
  - intros [Hc Ha].
    assert (E1 : ColorEngine.colorErrors (ColorEngine.requestColor betData) = []).
    { apply colorErrors_nil.
      destruct Hc as [H|[H|[H|[]]]];
        [exists ColorEngine.red|exists ColorEngine.green|exists ColorEngine.violet];
        symmetry; exact H. }
    pose proof (proj2 (amountErrors_nil _) Ha) as E2.
    destruct Ha as (a & Ea & _).
    unfold ColorEngine.validateColorBet. rewrite E1, E2, Ea. reflexivity.
Qed.


(** ** Settlement of accepted wagers *)

Lemma calculateColorPayout_ok (color : string) (amount : num) (winningColor : string)
  (w : ColorEngine.Color) :
  (amount <? ColorEngine.MIN_BET_AMOUNT)%js = false ->
  (amount >? ColorEngine.MAX_BET_AMOUNT)%js = false ->
  ColorEngine.lookup winningColor = Some w ->
  exists p,
    ColorEngine.calculateColorPayout (ColorEngine.mkBetData color amount) winningColor
    = Ok p /\
    ColorEngine.isWin p = String.eqb color winningColor.
Proof.
  intros H1 H2 Hw. unfold ColorEngine.calculateColorPayout.
  cbn [ColorEngine.color ColorEngine.amount]. rewrite H1, H2, Hw.
  eexists. split; reflexivity.
Qed.

Lemma validated_payable (now : Clock) (betData : ColorEngine.BetRequest)
  (bet : ColorEngine.ValidatedBet) :
  ColorEngine.validateColorBet now betData = ColorEngine.Valid bet ->
  wellFormed betData = true ->
  (exists c, ColorEngine.validColor bet = ColorEngine.key c) /\
  (ColorEngine.validAmount bet <? ColorEngine.MIN_BET_AMOUNT)%js = false /\
  (ColorEngine.validAmount bet >? ColorEngine.MAX_BET_AMOUNT)%js = false.
Proof.
  intros V W.
  apply validateColorBet_Valid in V as (Hc & Ha & a & Ea & ->).
  cbn [ColorEngine.validColor ColorEngine.validAmount].
  split; [exact (proj1 (colorErrors_nil _) Hc)|].
  apply amountErrors_nil in Ha as (a' & Ea' & L & G).
  rewrite Ea in Ea'. injection Ea' as <-.
  unfold wellFormed in W. rewrite Ea in W.
  apply validated_stake.
  - exact W.
  - destruct a; try reflexivity; discriminate L.
  - exact (le_lt_false _ _ L).
  - exact (le_lt_false _ _ G).
Qed.

Lemma settleBets_all (now : Clock) (winningColor : string) (w : ColorEngine.Color)
  (bets : list Controller.Bet) :
  ColorEngine.lookup winningColor = Some w ->
  Forall payable bets ->
  forall totalPayout, exists bets' total,
    Controller.settleBets now winningColor bets totalPayout = (bets', Ok total) /\
    Forall2 (settles winningColor) bets bets'.
Proof.
  intros Hw. induction bets as [|bet rest IH]; intros Hall totalPayout;
    cbn [Controller.settleBets].
  - exists [], totalPayout. split; [reflexivity|constructor].
  - inversion Hall as [|? ? [H1 H2] Hrest]; subst.
    destruct (calculateColorPayout_ok (Controller.color bet) (Controller.amount bet)
                winningColor w H1 H2 Hw) as (p & Ep & Hp).
    rewrite Ep.
    destruct (IH Hrest (if ColorEngine.isWin p
                        then (totalPayout + ColorEngine.payout p)%js
                        else totalPayout)) as (rest' & total & E & F).
    rewrite E. exists (Controller.settled now bet p :: rest'), total.
    split; [reflexivity|]. constructor; [|exact F].
    unfold settles, Controller.settled.
    cbn [Controller.betId Controller.color Controller.amount Controller.betResult].
    rewrite Hp. repeat split; reflexivity.
Qed.

Lemma processColorRoundPayouts_all (now : Clock) (round : Controller.ColorRound)
  (w : ColorEngine.Color) :
  ColorEngine.lookup (Controller.winningColor round) = Some w ->
  Forall payable (Controller.bets round) ->
  exists round',
    Controller.processColorRoundPayouts now round = (round', Ok tt) /\
    Controller.roundId round' = Controller.roundId round /\
    Forall2 (settles (Controller.winningColor round))
      (Controller.bets round) (Controller.bets round').
Proof.
  intros Hw Hall. unfold Controller.processColorRoundPayouts.
  destruct (Controller.bets round) as [|bet rest] eqn:B.
  - exists round. rewrite B. repeat split. constructor.
  - destruct (settleBets_all now _ w (bet :: rest) Hw Hall (lit 0))
      as (bets' & total & E & F).
    rewrite E. eexists. split; [reflexivity|]. split; [reflexivity|exact F].
Qed.

Lemma placeColorBet_spec (validatedAt now : Clock) (random : num)
  (betData : ColorEngine.BetRequest) (g : Controller.Game) (r : Controller.ActiveRound) :
  Controller.currentRound g = Some r ->
  wellFormed betData = true ->
  let result := fst (Controller.placeColorBet validatedAt now random betData g) in
  let g' := snd (Controller.placeColorBet validatedAt now random betData g) in
  exists r',
    Controller.currentRound g' = Some r' /\
    Controller.roundId (Controller.round r') = Controller.roundId (Controller.round r) /\
    Controller.winningColor (Controller.round r')
      = Controller.winningColor (Controller.round r) /\
    match result with
    | Controller.Placed bet _ _ =>
        payable bet /\
        Controller.bets (Controller.round r') = Controller.bets (Controller.round r) ++ [bet]
    | _ => Controller.bets (Controller.round r') = Controller.bets (Controller.round r)
    end.
Proof.
  intros Hr W. unfold Controller.placeColorBet. rewrite Hr.
  destruct (Controller.isActive g);
    [|exists r; cbn [fst snd]; repeat split; exact Hr].
  destruct (ColorEngine.validateColorBet validatedAt betData) as [bet|errs] eqn:V;
    [|exists r; cbn [fst snd]; repeat split; exact Hr].
  destruct (validated_payable _ _ _ V W) as (_ & H1 & H2).
  cbn [fst snd Controller.currentRound Controller.color Controller.amount].
  eexists. split; [reflexivity|].
  unfold Controller.countBet, Controller.withBet.
  cbn [Controller.round Controller.roundId Controller.winningColor Controller.bets].
  destruct (String.eqb (ColorEngine.validColor bet) "total");
    cbn [Controller.roundId Controller.winningColor Controller.bets];
    repeat split; assumption.
Qed.

Lemma placeAll_spec (calls : list PlaceCall) :
  forall (g : Controller.Game) (r : Controller.ActiveRound),
  Controller.currentRound g = Some r ->
  Forall (fun c => wellFormed (callRequest c) = true) calls ->
  exists r',
    Controller.currentRound (snd (placeAll calls g)) = Some r' /\
    Controller.roundId (Controller.round r') = Controller.roundId (Controller.round r) /\
    Controller.winningColor (Controller.round r')
      = Controller.winningColor (Controller.round r) /\
    Forall payable (fst (placeAll calls g)) /\
    Controller.bets (Controller.round r')
      = Controller.bets (Controller.round r) ++ fst (placeAll calls g).
Proof.
  induction calls as [|c rest IH]; intros g r Hr Hall; cbn [placeAll].
  - exists r. cbn [fst snd]. rewrite app_nil_r. repeat split; [exact Hr|constructor].
  - inversion Hall as [|? ? Hc Hrest]; subst.
    destruct (placeColorBet_spec (callValidatedAt c) (callNow c) (callRandom c)
                (callRequest c) g r Hr Hc) as (r1 & Hr1 & Hid1 & Hw1 & Hres).
    destruct (Controller.placeColorBet _ _ _ _ g) as [result g1].
    cbn [fst snd] in Hr1, Hres.
    destruct (IH g1 r1 Hr1 Hrest) as (r2 & Hr2 & Hid2 & Hw2 & Hp2 & Hb2).
    destruct (placeAll rest g1) as [placed g2]. cbn [fst snd] in *.
    exists r2. split; [exact Hr2|]. split; [congruence|]. split; [congruence|].
    destruct result as [bet id m|errs|e].
    + destruct Hres as [Hp Hb]. split; [constructor; assumption|].
      rewrite Hb2, Hb, <- app_assoc. reflexivity.
    + split; [exact Hp2|]. rewrite Hb2, Hres. reflexivity.
    + split; [exact Hp2|]. rewrite Hb2, Hres. reflexivity.
Qed.

(** Every wager that [placeColorBet] accepts is settled when the round
    ends: after any sequence of bet requests on a round that started
    without wagers and has a configured winning colour,
    [endColorTradingRound] succeeds, closes the round and returns it with
    exactly the accepted wagers, in the order of their placement, each
    marked as a win or a loss. *)
Theorem accepted_wagers_are_settled (now : Clock) (calls : list PlaceCall)
  (g : Controller.Game) (r : Controller.ActiveRound) (w : ColorEngine.Color) :
  Controller.currentRound g = Some r ->
  Controller.bets (Controller.round r) = [] ->
  ColorEngine.lookup (Controller.winningColor (Controller.round r)) = Some w ->
  Forall (fun c => wellFormed (callRequest c) = true) calls ->
  exists completed g',
    Controller.endColorTradingRound now (Controller.roundId (Controller.round r))
      (snd (placeAll calls g)) = (Controller.Ended completed, g') /\
    Controller.currentRound g' = None /\
    Controller.isActive g' = false /\
    Forall2 (settles (Controller.winningColor (Controller.round r)))
      (fst (placeAll calls g)) (Controller.bets (Controller.round completed)).
Proof.
  intros Hr Hb Hw Hall.
  destruct (placeAll_spec calls g r Hr Hall) as (r' & Hr' & Hid & Hwc & Hp & Hbets).
  rewrite Hb in Hbets. cbn [app] in Hbets.
  unfold Controller.endColorTradingRound. rewrite Hr', <- Hid, String.eqb_refl.
  cbn [negb].
  destruct (processColorRoundPayouts_all now (Controller.round r') w)
    as (round' & E & _ & F).
  - rewrite Hwc. exact Hw.
  - rewrite Hbets. exact Hp.
  - rewrite E. eexists. eexists. split; [reflexivity|].
    cbn [Controller.currentRound Controller.isActive Controller.round].
    split; [reflexivity|]. split; [reflexivity|].
    rewrite Hbets, Hwc in F. exact F.
Qed.


Lemma accepted_wagers_are_settled_witness :
  exists completed g',
    Controller.endColorTradingRound 3 "color_round_1" (snd (placeAll threeRequests openGame))
    = (Controller.Ended completed, g') /\
    Controller.currentRound g' = None /\
    Controller.isActive g' = false /\
    Forall2 (settles "red")
      (fst (placeAll threeRequests openGame))
      (Controller.bets (Controller.round completed)).
Proof.
  apply (accepted_wagers_are_settled 3 threeRequests openGame openRound ColorEngine.red).
  - reflexivity.
  - reflexivity.
  - reflexivity.
  - repeat constructor.
Defined.

(** ** The preview of a bet *)

Lemma potentialOutcomesOf_ok (bet : ColorEngine.ValidatedBet) (colors : list ColorEngine.Color) :
  (ColorEngine.validAmount bet <? ColorEngine.MIN_BET_AMOUNT)%js = false ->
  (ColorEngine.validAmount bet >? ColorEngine.MAX_BET_AMOUNT)%js = false ->
  exists outcomes,
    Controller.potentialOutcomesOf bet (map ColorEngine.key colors) = Ok outcomes /\
    map (fun o => (fst o, Controller.wouldWin (snd o))) outcomes =
    map (fun c => (ColorEngine.key c,
                   String.eqb (ColorEngine.validColor bet) (ColorEngine.key c))) colors.
Proof.
  intros H1 H2. induction colors as [|c rest IH]; cbn [map Controller.potentialOutcomesOf].
  - exists []. split; reflexivity.
  - destruct (calculateColorPayout_ok (ColorEngine.validColor bet)
                (ColorEngine.validAmount bet) (ColorEngine.key c) c H1 H2 (lookup_key c))
      as (p & Ep & Hp).
    rewrite Ep. destruct IH as (outcomes & E & M). rewrite E.
    eexists. split; [reflexivity|].
    cbn [map fst snd Controller.wouldWin]. rewrite Hp, M. reflexivity.
Qed.

(** For a request whose colour is a string of code units below 256, the
    preview of a bet never fails: the request is either turned down
    with the errors of the engine, or answered with the validated bet on
    one of the three colours and an outcome for each colour in the order
    red, green, violet, the bet winning on its own colour alone.  (On a
    colour that is no string the engine throws and the preview ends in
    its [catch] block.) *)
Theorem preview_lists_an_outcome_per_colour (now : Clock)
  (betData : ColorEngine.BetRequest) :
  wellFormed betData = true ->
  match Controller.validateColorBet now betData with
  | Controller.Preview bet potentialOutcomes _ =>
      In (ColorEngine.validColor bet) ["red"; "green"; "violet"] /\
      map (fun o => (fst o, Controller.wouldWin (snd o))) potentialOutcomes =
      map (fun c => (c, String.eqb (ColorEngine.validColor bet) c))
        ["red"; "green"; "violet"]
  | Controller.NotValid errors =>
      errors <> [] /\
      ColorEngine.validateColorBet now betData = ColorEngine.Invalid errors
  | Controller.PreviewError _ => False
  end.
Proof.
  intros W. unfold Controller.validateColorBet.
  destruct (ColorEngine.validateColorBet now betData) as [bet|errs] eqn:V.
  - destruct (validated_payable _ _ _ V W) as ([c Hc] & H1 & H2).
    destruct (potentialOutcomesOf_ok bet ColorEngine.Object_keys H1 H2)
      as (outcomes & E & M).
    unfold ColorEngine.getAvailableColors. rewrite E. split.
    + rewrite Hc. destruct c; cbn; tauto.
    + exact M.
  - split; [|reflexivity].
    unfold ColorEngine.validateColorBet in V.
    destruct (ColorEngine.colorErrors _ ++ ColorEngine.amountErrors _) as [|e l] eqn:E.
    + apply app_eq_nil in E as [_ E].
      destruct (ColorEngine.requestAmount betData); [discriminate V|discriminate E].
    + destruct (ColorEngine.requestAmount betData); injection V as <-; discriminate.
Qed.

Lemma preview_lists_an_outcome_per_colour_witness :
  match Controller.validateColorBet 0 (ColorEngine.mkBetRequest "Violet" (Some (lit 50))) with
  | Controller.Preview bet potentialOutcomes _ =>
      In (ColorEngine.validColor bet) ["red"; "green"; "violet"] /\
      map (fun o => (fst o, Controller.wouldWin (snd o))) potentialOutcomes =
      map (fun c => (c, String.eqb (ColorEngine.validColor bet) c))
        ["red"; "green"; "violet"]
  | Controller.NotValid errors =>
      errors <> [] /\
      ColorEngine.validateColorBet 0 (ColorEngine.mkBetRequest "Violet" (Some (lit 50)))
      = ColorEngine.Invalid errors
  | Controller.PreviewError _ => False
  end.
Proof.
  apply (preview_lists_an_outcome_per_colour 0
           (ColorEngine.mkBetRequest "Violet" (Some (lit 50)))).
  reflexivity.
Defined.


(** ** The history of the controller *)

Lemma of_Z_gtb (a b : Z) :
  0 < a < 2 ^ 53 -> 0 < b < 2 ^ 53 -> (of_Z a >? of_Z b)%js = (b <? a).
Proof.
  intros Ha Hb.
  destruct (int_bounded a Ha) as (ma & ea & Ba & Ea & _).
  destruct (int_bounded b Hb) as (mb & eb & Bb & Eb & _).
  rewrite (of_Z_exact a ma ea ltac:(lia) Ba Ea), (of_Z_exact b mb eb ltac:(lia) Bb Eb).
  unfold gt. pose proof (SFltb_F2Q mb eb ma ea Bb Ba) as H.
  rewrite Ea, Eb, <- Zlt_Qlt in H.
  destruct (Z.ltb_spec b a) as [L|L].
  - apply H. exact L.
  - destruct (SFltb _ _); [|reflexivity]. pose proof (proj1 H eq_refl). lia.
Qed.

(** A history of at most [n] events stays one: the new event is appended,
    and the oldest one is dropped when the list was full.  A list that
    is missing is created, and the lists of the other game types are not
    touched. *)
Theorem history_keeps_the_newest_events (n : nat)
  (gameHistory : Controller.History) (gameType : string)
  (eventData : Controller.HistoryEvent) :
  let old := match gameHistory gameType with Some l => l | None => [] end in
  let history := Controller.addToHistory (of_Z (Z.of_nat n)) gameHistory gameType eventData in
  (0 < n)%nat -> Z.of_nat n + 1 < 2 ^ 53 -> (List.length old <= n)%nat ->
  history gameType =
    Some (if (List.length old <? n)%nat then old ++ [eventData]
          else tl old ++ [eventData]) /\
  (exists kept, history gameType = Some kept /\ (List.length kept <= n)%nat) /\
  forall k, k <> gameType -> history k = gameHistory k.
Proof.
  intros old history Hn Hb Hlen. subst history. unfold Controller.addToHistory.
  fold old. rewrite String.eqb_refl.
  assert (E : (of_Z (Z.of_nat (List.length (old ++ [eventData]))) >? of_Z (Z.of_nat n))%js
              = negb (List.length old <? n)%nat).
  { rewrite of_Z_gtb by (rewrite ?length_app; cbn [List.length]; lia).
    rewrite length_app. cbn [List.length].
    destruct (Nat.ltb_spec (List.length old) n), (Z.ltb_spec (Z.of_nat n)
      (Z.of_nat (List.length old + 1))); try reflexivity; lia. }
  rewrite E.
  assert (T : (List.length old <? n)%nat = false -> tl (old ++ [eventData]) = tl old ++ [eventData]).
  { intros F. apply Nat.ltb_ge in F. destruct old; [cbn in F; lia|reflexivity]. }
  split; [|split].
  - destruct (List.length old <? n)%nat eqn:L; cbn [negb]; [reflexivity|].
    rewrite T by reflexivity. reflexivity.
  - destruct (List.length old <? n)%nat eqn:L; cbn [negb].
    + eexists. split; [reflexivity|]. apply Nat.ltb_lt in L.
      rewrite length_app. cbn [List.length]. lia.
    + eexists. split; [reflexivity|]. rewrite T by reflexivity.
      apply Nat.ltb_ge in L. rewrite length_app. cbn [List.length].
      destruct old; cbn [tl List.length] in *; lia.
  - intros k Hk. destruct (String.eqb_spec k gameType); [contradiction|reflexivity].
Qed.

Lemma history_keeps_the_newest_events_witness :
  let history :=
    Controller.addToHistory (of_Z (Z.of_nat 1))
      (Controller.addToHistory (of_Z (Z.of_nat 1)) Controller.newHistory "crash"
         (Controller.mkHistoryEvent "round_start" "r1"))
      "crash" (Controller.mkHistoryEvent "round_crash" "r1") in
  history "crash" = Some [Controller.mkHistoryEvent "round_crash" "r1"] /\
  (exists kept, history "crash" = Some kept /\ (List.length kept <= 1)%nat) /\
  forall k, k <> "crash" ->
    history k =
    Controller.addToHistory (of_Z (Z.of_nat 1)) Controller.newHistory "crash"
      (Controller.mkHistoryEvent "round_start" "r1") k.
Proof.
  apply (history_keeps_the_newest_events 1
           (Controller.addToHistory (of_Z (Z.of_nat 1)) Controller.newHistory "crash"
              (Controller.mkHistoryEvent "round_start" "r1"))
           "crash" (Controller.mkHistoryEvent "round_crash" "r1")).
  - lia.
  - reflexivity.
  - vm_compute. lia.
Defined.

Lemma processColorRoundPayouts_roundId (now : Clock) (round : Controller.ColorRound) :
  Controller.roundId (fst (Controller.processColorRoundPayouts now round))
  = Controller.roundId round.
Proof.
  unfold Controller.processColorRoundPayouts.
  destruct (Controller.bets round) as [|b l]; [reflexivity|].
  destruct (Controller.settleBets now (Controller.winningColor round) (b :: l) (lit 0))
    as [bets' [totalPayout|e]]; reflexivity.
Qed.

(** The end of a colour round is filed under the key ['color_trading']
    of the history, while the status of the platform counts the list
    under ['colorTrading']: when [GAME_HISTORY_SIZE] is at least 1 (or
    is not a number), ending the round [id] makes its [round_end] event
    the newest entry of the list under ['color_trading'], and leaves the
    list under ['colorTrading'] and the history sizes that [getStatus]
    reports as they were. *)
Theorem round_end_is_filed_under_another_key (now : Clock) (id : string)
  (g g' : Controller.Game) (completed : Controller.ActiveRound) :
  (lit 1 >? Controller.historySize g)%js = false ->
  Controller.endColorTradingRound now id g = (Controller.Ended completed, g') ->
  Controller.historySizes g' = Controller.historySizes g /\
  Controller.gameHistory g' "colorTrading" = Controller.gameHistory g "colorTrading" /\
  exists before,
    Controller.gameHistory g' "color_trading"
    = Some (before ++ [Controller.mkHistoryEvent "round_end" id]).
Proof.
  intros Hsize. unfold Controller.endColorTradingRound.
  destruct (Controller.currentRound g) as [current|]; [|discriminate].
  destruct (String.eqb_spec (Controller.roundId (Controller.round current)) id)
    as [Hid|Hid]; cbn [negb]; [|discriminate].
  pose proof (processColorRoundPayouts_roundId now (Controller.round current)) as Hkeep.
  destruct (Controller.processColorRoundPayouts now (Controller.round current))
    as [settledRound [u|e]]; [|discriminate].
  cbn [fst] in Hkeep. rewrite Hkeep, Hid.
  intros H. injection H as _ <-.
  cbn [Controller.gameHistory Controller.historySize].
  unfold Controller.historySizes, Controller.addToHistory, Controller.COLOR_TRADING.
  split; [reflexivity|]. split; [reflexivity|].
  cbv beta. change (String.eqb "color_trading" "color_trading") with true. cbv iota.
  destruct (Controller.gameHistory g "color_trading") as [[|old l]|].
  - exists []. cbn [app List.length].
    change (of_Z (Z.of_nat 1)) with (lit 1). rewrite Hsize. reflexivity.
  - cbn [app tl].
    destruct (of_Z _ >? _)%js; [exists l|exists (old :: l)]; reflexivity.
  - exists []. cbn [app List.length].
    change (of_Z (Z.of_nat 1)) with (lit 1). rewrite Hsize. reflexivity.
Qed.

Lemma round_end_is_filed_under_another_key_witness :
  (lit 1 >? Controller.historySize openGame)%js = false /\
  Controller.historySizes (snd (Controller.endColorTradingRound 0 "color_round_1" openGame))
  = Controller.historySizes openGame /\
  Controller.gameHistory (snd (Controller.endColorTradingRound 0 "color_round_1" openGame))
    "colorTrading" = Controller.gameHistory openGame "colorTrading" /\
  exists before,
    Controller.gameHistory (snd (Controller.endColorTradingRound 0 "color_round_1" openGame))
      "color_trading"
    = Some (before ++ [Controller.mkHistoryEvent "round_end" "color_round_1"]).
Proof.
  split; [reflexivity|].
  eapply (round_end_is_filed_under_another_key 0 "color_round_1" openGame).
  - reflexivity.
  - reflexivity.
Defined.


(** ** The life cycle of a round *)

Lemma call_rank (Math_log Math_exp Math_cos : num -> num) (m : Rounds.Method)
  (now : Clock) (r : Rounds.Round) :
  let r' := snd (Rounds.call Math_log Math_exp Math_cos m now r) in
  (rank (Rounds.state r) <= rank (Rounds.state r') <= S (rank (Rounds.state r)))%nat /\
  (Rounds.state r = Rounds.COMPLETED -> r' = r).
Proof.
  destruct m; unfold Rounds.call, Rounds.start, Rounds.end_, Rounds.complete.
  - destruct (Rounds.state r) eqn:S; cbn [Rounds.RoundState_eqb negb snd];
      try (rewrite S; cbn; split; [lia|reflexivity]).
    destruct (Engine.generateCrashMultiplier _ _ _ _ _); cbn [snd Rounds.state];
      [|rewrite S]; cbn; split; (lia || discriminate).
  - destruct (Rounds.state r) eqn:S; cbn [Rounds.RoundState_eqb negb snd Rounds.state];
      try (rewrite S; cbn; split; [lia|reflexivity]).
    cbn. split; [lia|discriminate].
  - destruct (Rounds.state r) eqn:S; cbn [Rounds.RoundState_eqb negb snd Rounds.state];
      try (rewrite S; cbn; split; [lia|reflexivity]).
    cbn. split; [lia|discriminate].
Qed.

(** A round only moves forward through idle, running, crashed and
    completed, whatever methods are called on it and in whatever order,
    and a completed round is never changed again. *)
Theorem round_only_moves_forward (Math_log Math_exp Math_cos : num -> num)
  (ms : list (Rounds.Method * Clock)) (r : Rounds.Round) :
  (rank (Rounds.state r)
   <= rank (Rounds.state (callAll Math_log Math_exp Math_cos ms r)))%nat /\
  callAll Math_log Math_exp Math_cos ms (Rounds.setState r Rounds.COMPLETED)
  = Rounds.setState r Rounds.COMPLETED.
Proof.
  split.
  - revert r. induction ms as [|[m now] rest IH]; intros r; cbn [callAll]; [lia|].
    pose proof (proj1 (call_rank Math_log Math_exp Math_cos m now r)) as H.
    cbv zeta in H. specialize (IH (snd (Rounds.call Math_log Math_exp Math_cos m now r))).
    lia.
  - generalize (Rounds.setState r Rounds.COMPLETED), (eq_refl :
      Rounds.state (Rounds.setState r Rounds.COMPLETED) = Rounds.COMPLETED).
    intros c Hc. induction ms as [|[m now] rest IH]; cbn [callAll]; [reflexivity|].
    rewrite (proj2 (call_rank Math_log Math_exp Math_cos m now c) Hc). exact IH.
Qed.

(** A round started with the configured seed is a loss round: for a loss
    bias in (0, 1], a maximum multiplier of at least 1 and a round id
    whose hash is below 2^31, [start] succeeds on an idle round, the
    round is running, its seed is negative and its category is
    ['loss']. *)
Theorem started_round_is_a_loss_round (Math_log Math_exp Math_cos : num -> num)
  (now : Clock) (r : Rounds.Round) :
  Rounds.state r = Rounds.IDLE ->
  (lit 0 <? Rounds.lossBias r)%js = true ->
  (Rounds.lossBias r >? lit 1)%js = false ->
  (Rounds.maxWinMultiplier r <? lit 1.0)%js = false ->
  Engine.hashString (Rounds.roundId r) < 2 ^ 31 ->
  exists r' seed,
    Rounds.start Math_log Math_exp Math_cos now r = (true, r') /\
    Rounds.state r' = Rounds.RUNNING /\
    Rounds.roundType r' = Some "loss" /\
    Rounds.metadata_seed r' = Some seed /\ seed < 0.
Proof.
  intros Hs Hpos Hle Hmax Hhash.
  set (options := Engine.mkOptions (Some (Rounds.lossBias r))
                    (Some (Rounds.maxWinMultiplier r)) (Some (Rounds.roundId r)) None).
  destruct (generate_returns Math_log Math_exp Math_cos now options
              (lt_0_not_negative _ Hpos) Hle Hmax) as [g Hg].
  destruct (generate_fields _ _ _ _ _ _ Hg) as (_ & _ & Htype & _ & _ & Hseed).
  assert (Hneg : - 2 ^ 31 <= Engine.finalSeedOf (Rounds.roundId r) None < 0).
  { apply (finalSeed_negative (Rounds.roundId r) options); [vm_compute; reflexivity|exact Hhash]. }
  assert (E : fst (fst (Engine.outcomeOf Math_log Math_exp Math_cos now options)) = true).
  { unfold Engine.outcomeOf. rewrite draw_isLoss.
    apply signed_true_lt; [|exact Hpos].
    apply first_draw_negative. exact Hneg. }
  rewrite E in Htype.
  unfold Rounds.start. rewrite Hs. cbn [Rounds.RoundState_eqb negb].
  fold options. rewrite Hg.
  eexists. exists (Engine.seed g). split; [reflexivity|].
  cbn [Rounds.state Rounds.roundType Rounds.metadata_seed].
  split; [reflexivity|]. split; [rewrite Htype; reflexivity|].
  split; [reflexivity|]. rewrite Hseed. cbn [Engine.roundIdOf Engine.opt_roundId
    Engine.opt_customSeed options]. lia.
Qed.

Lemma started_round_is_a_loss_round_witness :
  exists r' seed,
    Rounds.start RefMath.log RefMath.exp RefMath.cos 0 (Rounds.newRound "r1" None None)
    = (true, r') /\
    Rounds.state r' = Rounds.RUNNING /\
    Rounds.roundType r' = Some "loss" /\
    Rounds.metadata_seed r' = Some seed /\ seed < 0.
Proof.
  apply (started_round_is_a_loss_round RefMath.log RefMath.exp RefMath.cos 0
           (Rounds.newRound "r1" None None));
    vm_compute; reflexivity.
Defined.

(** ** The history of rounds *)

Lemma truncate_neg_of_Z (n : Z) : 0 <= n < 2 ^ 53 -> truncate (- of_Z n)%js = - n.
Proof.
  intros Hn. destruct (Z.eqb_spec n 0) as [->|NZ]; [reflexivity|].
  destruct (int_bounded n ltac:(lia)) as (m & e & B & E & _).
  rewrite (of_Z_exact n m e ltac:(lia) B E).
  pose proof (truncate_int m e n E) as T. cbn [truncate neg SFopp negb] in *.
  rewrite T. reflexivity.
Qed.

(** [getRoundHistory] with a limit [n >= 1] returns the [n] newest
    rounds, the newest first (all of them when there are fewer); with
    the limit 0 it returns the whole history, not an empty list. *)
Theorem getRoundHistory_newest_first {A : Type} (roundHistory : list A) (n : nat) :
  Z.of_nat n < 2 ^ 53 ->
  Rounds.getRoundHistory roundHistory (of_Z (Z.of_nat n)) =
  match n with
  | O => rev roundHistory
  | _ => firstn n (rev roundHistory)
  end.
Proof.
  intros Hn. unfold Rounds.getRoundHistory, Rounds.sliceStart.
  assert (F : match (- of_Z (Z.of_nat n))%js with
              | S754_infinity _ => False | _ => True end).
  { destruct n as [|n]; [exact I|].
    destruct (int_bounded (Z.of_nat (S n)) ltac:(lia)) as (m & e & B & E & _).
    rewrite (of_Z_exact (Z.of_nat (S n)) m e ltac:(lia) B E). exact I. }
  pose proof (truncate_neg_of_Z (Z.of_nat n) ltac:(lia)) as T.
  destruct (- of_Z (Z.of_nat n))%js as [s|s| |s m e] eqn:D; try contradiction;
    rewrite T; clear T F D.
  all: destruct n as [|n];
    [cbn [Z.of_nat Z.opp Z.ltb Z.compare]; rewrite Z.min_l by lia; reflexivity|].
  all: replace (- Z.of_nat (S n) <? 0) with true by (symmetry; apply Z.ltb_lt; lia).
  all: rewrite firstn_rev; f_equal; f_equal; lia.
Qed.

Lemma getRoundHistory_newest_first_witness :
  Rounds.getRoundHistory ["a"; "b"; "c"] (of_Z (Z.of_nat 0)) = ["c"; "b"; "a"].
Proof.
  apply (getRoundHistory_newest_first ["a"; "b"; "c"] 0). reflexivity.
Defined.


(** ** The colour engine on a seed that is not negative *)

Lemma lxor_nonneg_small (a b : Z) :
  0 <= a < 2 ^ 31 -> 0 <= b < 2 ^ 31 -> 0 <= Z.lxor a b < 2 ^ 31.
Proof.
  intros Ha Hb.
  assert (T0 : 0 <= Z.lxor a b) by (apply Z.lxor_nonneg; lia).
  split; [exact T0|].
  destruct (Z.eqb_spec (Z.lxor a b) 0) as [->|NZ]; [reflexivity|].
  apply Z.log2_lt_pow2; [lia|].
  pose proof (Z.log2_lxor a b ltac:(lia) ltac:(lia)) as L.
  assert (La : Z.log2 a < 31).
  { destruct (Z.eqb_spec a 0) as [->|]; [reflexivity|]. apply Z.log2_lt_pow2; lia. }
  assert (Lb : Z.log2 b < 31).
  { destruct (Z.eqb_spec b 0) as [->|]; [reflexivity|]. apply Z.log2_lt_pow2; lia. }
  lia.
Qed.

Lemma lxor_int32 (a b : Z) :
  - 2 ^ 31 <= a < 2 ^ 31 -> - 2 ^ 31 <= b < 2 ^ 31 -> - 2 ^ 31 <= Z.lxor a b < 2 ^ 31.
Proof.
  intros Ha Hb.
  destruct (Z.ltb_spec a 0) as [NA|PA], (Z.ltb_spec b 0) as [NB|PB].
  - rewrite <- (Z.lnot_involutive a), <- (Z.lnot_involutive b), Z.lxor_lnot_lnot.
    pose proof (lxor_nonneg_small (Z.lnot a) (Z.lnot b)
                  ltac:(unfold Z.lnot; lia) ltac:(unfold Z.lnot; lia)). lia.
  - pose proof (lxor_negative a b ltac:(lia) ltac:(lia)). lia.
  - rewrite Z.lxor_comm. pose proof (lxor_negative b a ltac:(lia) ltac:(lia)). lia.
  - pose proof (lxor_nonneg_small a b ltac:(lia) ltac:(lia)). lia.
Qed.

Lemma array_get_of_Z {A : Type} (l : list A) (q : Z) :
  0 <= q < 2 ^ 53 -> array_get l (of_Z q) = nth_error l (Z.to_nat q).
Proof.
  intros Hq. destruct (Z.eqb_spec q 0) as [->|NZ]; [reflexivity|].
  destruct (int_bounded q ltac:(lia)) as (m & e & B & E & He & Hm).
  rewrite (of_Z_exact q m e ltac:(lia) B E). cbn [array_get].
  destruct (Z.leb_spec 0 e) as [G|G].
  - replace e with 0 in * by lia. rewrite Hm. cbn [Z.opp Z.pow Z.pow_pos Pos.iter Z.mul].
    do 2 f_equal. lia.
  - assert (P : 0 < 2 ^ (- e)) by (apply Z.pow_pos_nonneg; lia).
    rewrite Hm, Z.mod_mul, Z.div_mul by lia. reflexivity.
Qed.

(** The index [Math.floor(r * N)] computed from a draw [r] of the
    generator is one of [0 .. N - 1]. *)
Lemma draw_index (r : num) (N : Z) :
  unitDraw r -> 0 < N < 2 ^ 22 ->
  exists i, Z.of_nat i < N /\
    forall (A : Type) (l : list A),
      array_get l (Math_floor (r * of_Z N)%js) = nth_error l i.
Proof.
  intros D HN.
  assert (HN' : 0 < N < 4194304) by exact HN.
  destruct (int_bounded N) as (mN & eN & BN & EN & _).
  { change (2 ^ 53) with 9007199254740992. lia. }
  rewrite (of_Z_exact N mN eN ltac:(lia) BN EN).
  destruct r as [[|]|[|]| |[|] m e]; try contradiction.
  - exists 0%nat. split; [lia|]. intros A l. reflexivity.
  - destruct D as [B Hle].
    pose proof (SFmul_rounded false m e false mN eN B BN) as RP.
    cbn [xorb] in RP.
    fold (mul (S754_finite false m e) (S754_finite false mN eN)) in RP.
    apply SFleb_F2Q in Hle; [|exact B|reflexivity].
    set (z := 2147483647 * N).
    destruct (int_bounded z) as (mU & eU & BU & EU & HeU & HmU).
    { unfold z. change (2 ^ 53) with 9007199254740992. lia. }
    assert (BU' : bounded prec emax mU (eU - 31) = true).
    { apply bounded_spec. apply bounded_spec in BU as (Hd & _ & [Hd53 | Hmin]); [|lia].
      split; [exact Hd|]. split; [lia|]. left. exact Hd53. }
    assert (EU' : (F2Q (Zpos mU) (eU - 31) == F2Q z (-31))%Q).
    { rewrite HmU, (F2Q_scale z (eU - 31) (- eU)) by lia.
      replace (eU - 31 + - eU) with (-31) by lia. reflexivity. }
    assert (Ec : (F2Q 9007199250546688 (-53) == F2Q 2147483647 (-31))%Q) by Qconcrete.
    assert (Up : (F2Q (Zpos m) e * F2Q (Zpos mN) eN <= F2Q (Zpos mU) (eU - 31))%Q).
    { rewrite EU', EN. apply (Qle_trans _ (F2Q 2147483647 (-31) * inject_Z N)).
      - apply Qmult_le_compat_r; [rewrite <- Ec; exact Hle|].
        change 0%Q with (inject_Z 0). rewrite <- Zle_Qle. lia.
      - unfold z, F2Q. rewrite inject_Z_mult. apply Qle_lteq. right. ring. }
    assert (EUlt : (F2Q (Zpos mU) (eU - 31) < inject_Z N)%Q).
    { rewrite EU', <- (F2Q_int N), <- (F2Q_scale N (-31) 31) by lia.
      apply F2Q_lt. unfold z. change (2 ^ 31) with 2147483648. lia. }
    pose proof (proj1 (bounded_spec m e) B) as (_ & He & _).
    assert (Lo : (F2Q 1 (-1074) <= F2Q (Zpos m) e * F2Q (Zpos mN) eN)%Q).
    { apply (Qle_trans _ (F2Q (Zpos m) e)).
      - apply (Qle_trans _ (F2Q 1 e)); [|apply F2Q_le; lia].
        unfold F2Q. apply Qmult_le_l; [reflexivity|]. apply pow2_le. lia.
      - rewrite EN. rewrite <- (Qmult_1_r (F2Q (Zpos m) e)) at 1.
        apply Qmult_le_l; [apply F2Q_pos; lia|].
        change 1%Q with (inject_Z 1). rewrite <- Zle_Qle. lia. }
    destruct (rounded_between _ _ _ 1 (-1074) mU (eU - 31) RP eq_refl BU' Lo Up)
      as (my & ey & Ey & By & _ & Hy).
    rewrite Ey. cbn [Math_floor].
    assert (Hlt : (F2Q (Zpos my) ey < inject_Z N)%Q)
      by (apply (Qle_lt_trans _ _ _ Hy EUlt)).
    destruct (Z.leb_spec 0 ey) as [G|G].
    + exists (Z.to_nat (Zpos my * 2 ^ ey)). split.
      * unfold F2Q in Hlt. rewrite <- pow2_inject, <- inject_Z_mult in Hlt by lia.
        rewrite <- Zlt_Qlt in Hlt. lia.
      * intros A l. cbn [array_get].
        destruct (Z.leb_spec 0 ey); [reflexivity|lia].
    + set (d := 2 ^ (- ey)).
      assert (P : 0 < d) by (apply Z.pow_pos_nonneg; lia).
      assert (Hm : Zpos my < N * d).
      { apply (F2Q_lt _ _ ey).
        apply (Qlt_le_trans _ (inject_Z N)); [exact Hlt|].
        unfold d. rewrite (F2Q_scale N ey (- ey)) by lia.
        replace (ey + - ey) with 0 by lia. rewrite F2Q_int. apply Qle_refl. }
      assert (Hq : 0 <= Zpos my / d < N).
      { split; [apply Z.div_pos; lia|]. apply Z.div_lt_upper_bound; lia. }
      exists (Z.to_nat (Zpos my / d)). split; [lia|].
      intros A l. apply array_get_of_Z.
      change (2 ^ 53) with 9007199254740992. lia.
Qed.

Lemma selectFallback_Some (s : num) (z : Z) :
  holds s z -> 0 <= z < 2 ^ 31 ->
  exists c, fst (ColorEngine.selectFallback s) = Some c.
Proof.
  intros Hs Hz. unfold ColorEngine.selectFallback, bind, ret, ColorEngine.prng.
  destruct (prng_step s z Hs Hz) as (D & _).
  destruct (Engine.prng s) as [r s']. cbn [fst] in *.
  destruct (draw_index r 190 D ltac:(split; reflexivity)) as (i & Hi & E).
  change (Z.of_nat (List.length ColorEngine.weightedColors)) with 190.
  rewrite E.
  destruct (nth_error ColorEngine.weightedColors i) as [c|] eqn:N; [exists c; reflexivity|].
  apply nth_error_None in N.
  change (List.length ColorEngine.weightedColors) with 190%nat in N. lia.
Qed.

Lemma selectColorByProbability_Some (colors : list ColorEngine.Color) (s : num) :
  colors <> [] -> exists c, fst (ColorEngine.selectColorByProbability colors s) = Some c.
Proof.
  intros Hne. unfold ColorEngine.selectColorByProbability, bind, ret.
  destruct (ColorEngine.prng s) as [r s']. cbn [fst].
  destruct (ColorEngine.selectLoop r (lit 0) colors) as [c|]; [exists c; reflexivity|].
  destruct colors as [|c rest]; [contradiction|]. exists c. reflexivity.
Qed.

Lemma selectWinningColor_Some (recentWinners : list string) (s : num) :
  exists c, fst (ColorEngine.selectWinningColor recentWinners s) = Some c.
Proof.
  unfold ColorEngine.selectWinningColor.
  destruct (_ <=? List.length recentWinners)%nat;
    [|apply selectColorByProbability_Some; discriminate].
  destruct (_ <=? ColorEngine.countConsecutiveWins _ _)%nat;
    [|apply selectColorByProbability_Some; discriminate].
  apply selectColorByProbability_Some.
  unfold ColorEngine.Object_keys. cbn [filter ColorEngine.key].
  destruct (String.eqb_spec "red" (last recentWinners EmptyString)) as [<-|_];
    cbn [negb]; discriminate.
Qed.

Lemma selectLosingColor_Some (recentWinners : list string) (s : num) (z : Z) :
  holds s z -> 0 <= z < 2 ^ 31 ->
  exists c, fst (ColorEngine.selectLosingColor recentWinners s) = Some c.
Proof.
  intros Hs Hz. unfold ColorEngine.selectLosingColor.
  destruct (ColorEngine.findLeastRecentColor _ _) as [least|];
    [|exact (selectFallback_Some s z Hs Hz)].
  unfold bind, ret, ColorEngine.prng.
  destruct (prng_step s z Hs Hz) as (_ & z' & Hz' & Hs').
  destruct (Engine.prng s) as [r s']. cbn [snd] in Hs'.
  destruct (r <? lit 0.7)%js; [exists least; reflexivity|].
  exact (selectFallback_Some s' z' Hs' Hz').
Qed.

(** For a loss bias in [0, 1] and a seed of the round that is not
    negative, [generateWinningColor] returns a result: no draw of the
    generator leads outside the table of colours. *)
Theorem colour_is_drawn_for_a_nonnegative_seed (BASE_SEED : num) (now : Clock)
  (options : ColorEngine.Options) :
  let roundId :=
    match ColorEngine.opt_roundId options with
    | Some r => r
    | None => Date_now_toString now
    end in
  let lossBias :=
    match ColorEngine.opt_lossBias options with
    | Some b => b
    | None => ColorEngine.LOSS_BIAS
    end in
  (lossBias <? lit 0)%js = false -> (lossBias >? lit 1)%js = false ->
  0 <= ColorEngine.finalSeedOf BASE_SEED roundId (ColorEngine.opt_customSeed options) ->
  exists result,
    ColorEngine.generateWinningColor BASE_SEED now options = Ok result.
Proof.
  intros roundId lossBias H1 H2 Hseed.
  unfold ColorEngine.generateWinningColor. fold roundId. fold lossBias.
  rewrite H1, H2. cbn [orb].
  set (finalSeed := ColorEngine.finalSeedOf BASE_SEED roundId
                      (ColorEngine.opt_customSeed options)) in *.
  assert (Hr : 0 <= finalSeed < 2 ^ 31).
  { split; [exact Hseed|]. unfold finalSeed, ColorEngine.finalSeedOf, Engine.xor32.
    apply lxor_int32; apply wrap32_range. }
  unfold ColorEngine.createColorPRNG, ColorEngine.prng.
  destruct (prng_step (of_Z finalSeed) finalSeed (holds_of_Z _ Hr) Hr)
    as (_ & z' & Hz' & Hs').
  destruct (Engine.prng (of_Z finalSeed)) as [r s]. cbn [snd] in Hs'.
  destruct (r <? lossBias)%js.
  - destruct (selectLosingColor_Some
                (match ColorEngine.opt_recentWinners options with
                 | Some l => l | None => [] end) s z' Hs' Hz') as [c Hc].
    destruct (ColorEngine.selectLosingColor _ s) as [selected s'].
    cbn [fst] in Hc. rewrite Hc. eexists. reflexivity.
  - destruct (selectWinningColor_Some
                (match ColorEngine.opt_recentWinners options with
                 | Some l => l | None => [] end) s) as [c Hc].
    destruct (ColorEngine.selectWinningColor _ s) as [selected s'].
    cbn [fst] in Hc. rewrite Hc. eexists. reflexivity.
Qed.

Lemma colour_is_drawn_for_a_nonnegative_seed_witness :
  exists result,
    ColorEngine.generateWinningColor (lit 0) 0
      (ColorEngine.mkOptions (Some "r1") (Some (lit 0.65)) (Some (lit 0)) None)
    = Ok result.
Proof.
  apply (colour_is_drawn_for_a_nonnegative_seed (lit 0) 0
           (ColorEngine.mkOptions (Some "r1") (Some (lit 0.65)) (Some (lit 0)) None)).
  - reflexivity.
  - reflexivity.
  - vm_compute. discriminate.
Defined.


(** ** The timeline of a colour round *)

Lemma randomColor_Some (s : num) (z : Z) :
  holds s z -> 0 <= z < 2 ^ 31 ->
  exists c z',
    fst (ColorEngine.randomColor s) = Some (ColorEngine.key c) /\
    0 <= z' < 2 ^ 31 /\ holds (snd (ColorEngine.randomColor s)) z'.
Proof.
  intros Hs Hz. unfold ColorEngine.randomColor, bind, ret, ColorEngine.prng.
  destruct (prng_step s z Hs Hz) as (D & z' & Hz' & Hs').
  destruct (Engine.prng s) as [r s']. cbn [fst snd] in *.
  destruct (draw_index r 3 D ltac:(split; reflexivity)) as (i & Hi & E).
  change (Z.of_nat (List.length ColorEngine.Object_keys)) with 3.
  rewrite E.
  destruct (nth_error ColorEngine.Object_keys i) as [c|] eqn:N.
  - exists c, z'. split; [reflexivity|split; assumption].
  - apply nth_error_None in N. cbn in N. lia.
Qed.

Lemma displayColorAt_Some (winningColor : string) (w : ColorEngine.Color)
  (totalSteps revealStartStep step s : num) (z : Z) :
  ColorEngine.lookup winningColor = Some w ->
  holds s z -> 0 <= z < 2 ^ 31 ->
  exists k c z',
    fst (ColorEngine.displayColorAt winningColor totalSteps revealStartStep step s)
    = Some k /\
    ColorEngine.lookup k = Some c /\
    0 <= z' < 2 ^ 31 /\
    holds (snd (ColorEngine.displayColorAt winningColor totalSteps revealStartStep step s)) z'.
Proof.
  intros Hw Hs Hz. unfold ColorEngine.displayColorAt.
  destruct (step <? revealStartStep)%js.
  - destruct (randomColor_Some s z Hs Hz) as (c & z' & E & Hz' & Hs').
    exists (ColorEngine.key c), c, z'.
    split; [exact E|]. split; [apply lookup_key|]. split; assumption.
  - unfold bind, ret, ColorEngine.prng.
    destruct (prng_step s z Hs Hz) as (_ & z1 & Hz1 & Hs1).
    destruct (Engine.prng s) as [r s1]. cbn [snd] in Hs1.
    destruct (r <? _)%js.
    + exists winningColor, w, z1. cbn [fst snd].
      split; [reflexivity|]. split; [exact Hw|]. split; assumption.
    + destruct (randomColor_Some s1 z1 Hs1 Hz1) as (c & z' & E & Hz' & Hs').
      exists (ColorEngine.key c), c, z'.
      split; [exact E|]. split; [apply lookup_key|]. split; assumption.
Qed.

Lemma timelineLoop_ok (winningColor : string) (w : ColorEngine.Color)
  (interval totalSteps revealStartStep : num) (steps : list nat) :
  ColorEngine.lookup winningColor = Some w ->
  forall (timeline : list ColorEngine.TimelineEntry) (s : num) (z : Z),
  holds s z -> 0 <= z < 2 ^ 31 ->
  exists new,
    ColorEngine.timelineLoop winningColor interval totalSteps revealStartStep
      steps timeline s = Ok (timeline ++ new) /\
    Forall2 (fun n e => ColorEngine.entryTime e = (of_Z (Z.of_nat n) * interval)%js)
      steps new.
Proof.
  intros Hw. induction steps as [|n rest IH]; intros timeline s z Hs Hz;
    cbn [ColorEngine.timelineLoop].
  - exists []. rewrite app_nil_r. split; [reflexivity|constructor].
  - destruct (displayColorAt_Some winningColor w totalSteps revealStartStep
                (of_Z (Z.of_nat n)) s z Hw Hs Hz) as (k & c & z' & E & Hk & Hz' & Hs').
    destruct (ColorEngine.displayColorAt _ _ _ _ s) as [displayColor s'].
    cbn [fst snd] in E, Hs'. rewrite E, Hk.
    destruct (IH (timeline ++ [ColorEngine.timelineEntry interval totalSteps
                                 revealStartStep (of_Z (Z.of_nat n)) c]) s' z' Hs' Hz')
      as (new & En & F).
    rewrite En, <- app_assoc. eexists. split; [reflexivity|].
    constructor; [reflexivity|exact F].
Qed.

Lemma pinWinner_times (timeline : list ColorEngine.TimelineEntry) (winningColor : string)
  (w : ColorEngine.Color) :
  ColorEngine.lookup winningColor = Some w ->
  exists pinned,
    ColorEngine.pinWinner timeline winningColor = Ok pinned /\
    map ColorEngine.entryTime pinned = map ColorEngine.entryTime timeline.
Proof.
  intros Hw. unfold ColorEngine.pinWinner.
  destruct (rev timeline) as [|e before] eqn:R.
  - exists timeline. split; reflexivity.
  - rewrite Hw. eexists. split; [reflexivity|].
    rewrite <- (rev_involutive timeline), R. cbn [rev].
    rewrite !map_app. reflexivity.
Qed.

(** With a generator created from a seed in [0, 2^31) and a configured
    winning colour, [generateColorTimeline] returns one entry for each
    step of 200 ms, the entry of step [k] at the time [k * 200]: no draw
    leads outside the table of colours. *)
Theorem timeline_has_an_entry_per_step (winningColor : string) (w : ColorEngine.Color)
  (roundDuration : num) (seed : Z) (n : nat) :
  0 <= seed < 2 ^ 31 ->
  ColorEngine.lookup winningColor = Some w ->
  ColorEngine.iterations (Math_floor (roundDuration / lit 200)%js) = Some n ->
  exists timeline,
    ColorEngine.generateColorTimeline winningColor roundDuration
      (ColorEngine.createColorPRNG (of_Z seed)) = Some (Ok timeline) /\
    map ColorEngine.entryTime timeline =
    map (fun k => (of_Z (Z.of_nat k) * lit 200)%js) (seq 0 n).
Proof.
  intros Hseed Hw Hn. unfold ColorEngine.generateColorTimeline. rewrite Hn.
  destruct (timelineLoop_ok winningColor w (lit 200)
              (Math_floor (roundDuration / lit 200)%js)
              (Math_floor (Math_floor (roundDuration / lit 200) * lit 0.8)%js)
              (seq 0 n) Hw [] (ColorEngine.createColorPRNG (of_Z seed)) seed
              (holds_of_Z seed Hseed) Hseed) as (new & E & F).
  rewrite E. cbn [app].
  destruct (pinWinner_times new winningColor w Hw) as (pinned & Ep & Et).
  rewrite Ep. exists pinned. split; [reflexivity|].
  rewrite Et. clear - F. induction F as [|k e ks es Hk _ IH]; [reflexivity|].
  cbn [map]. rewrite Hk, IH. reflexivity.
Qed.

Lemma timeline_has_an_entry_per_step_witness :
  exists timeline,
    ColorEngine.generateColorTimeline "green" (lit 1000)
      (ColorEngine.createColorPRNG (of_Z 3583)) = Some (Ok timeline) /\
    map ColorEngine.entryTime timeline =
    map (fun k => (of_Z (Z.of_nat k) * lit 200)%js) (seq 0 5).
Proof.
  apply (timeline_has_an_entry_per_step "green" ColorEngine.green (lit 1000) 3583 5).
  - lia.
  - reflexivity.
  - vm_compute. reflexivity.
Defined.

(** ** The least recent colour *)

Lemma leastRecentLoop_spec (recentWinners : list string) (colors : list ColorEngine.Color) :
  forall (best : ColorEngine.Color) (smallest : Z),
  smallest = ColorEngine.lastIndex recentWinners best ->
  let c := ColorEngine.leastRecentLoop recentWinners colors best smallest in
  (c = best \/ In c colors) /\
  ColorEngine.lastIndex recentWinners c <= smallest /\
  forall c', In c' colors ->
    ColorEngine.lastIndex recentWinners c <= ColorEngine.lastIndex recentWinners c'.
Proof.
  induction colors as [|color rest IH]; intros best smallest Hb;
    cbn [ColorEngine.leastRecentLoop].
  - split; [left; reflexivity|]. split; [lia|]. intros c' [].
  - destruct (Z.ltb_spec (ColorEngine.lastIndex recentWinners color) smallest) as [L|L].
    + destruct (IH color _ eq_refl) as (Hin & Hle & Hmin).
      split; [right; destruct Hin as [-> | Hin]; [left; reflexivity|right; exact Hin]|].
      split; [lia|].
      intros c' [<- | Hc']; [exact Hle|exact (Hmin c' Hc')].
    + destruct (IH best smallest Hb) as (Hin & Hle & Hmin).
      split; [destruct Hin as [-> | Hin]; [left; reflexivity|right; right; exact Hin]|].
      split; [exact Hle|].
      intros c' [<- | Hc']; [lia|exact (Hmin c' Hc')].
Qed.

(** [findLeastRecentColor] returns nothing for an empty history or an
    empty list of colours; otherwise it returns a colour of the list
    whose last win lies furthest back, a colour that never won counting
    as the oldest. *)
Theorem least_recent_colour_is_the_oldest (colors : list ColorEngine.Color)
  (recentWinners : list string) :
  match ColorEngine.findLeastRecentColor colors recentWinners with
  | None => recentWinners = [] \/ colors = []
  | Some c =>
      recentWinners <> [] /\ In c colors /\
      forall c', In c' colors ->
        ColorEngine.lastIndex recentWinners c <= ColorEngine.lastIndex recentWinners c'
  end.
Proof.
  unfold ColorEngine.findLeastRecentColor.
  destruct recentWinners as [|w rest]; [left; reflexivity|].
  destruct colors as [|first others]; [right; reflexivity|].
  destruct (leastRecentLoop_spec (w :: rest) (first :: others) first _ eq_refl)
    as (Hin & _ & Hmin).
  split; [discriminate|]. split; [|exact Hmin].
  destruct Hin as [-> | Hin]; [left; reflexivity|exact Hin].
Qed.


(** ** The cap on the profit of a wager *)

(** An integer below [2^53] scaled by a power of two is a number of the
    format. *)
Lemma scaled_bounded (k e0 : Z) :
  0 < k < 2 ^ 53 -> -1022 <= e0 <= 971 ->
  exists m e, bounded prec emax m e = true /\ (F2Q (Zpos m) e == F2Q k e0)%Q.
Proof.
  intros Hk He.
  destruct (int_bounded k Hk) as (m & e1 & B & E & He1 & _).
  exists m, (e1 + e0). split.
  - apply bounded_spec. apply bounded_spec in B as (Hd & _ & [Hd53 | Hmin]); [|lia].
    split; [exact Hd|]. split; [lia|]. left. exact Hd53.
  - unfold F2Q in *. rewrite pow2_add, Qmult_assoc, E. reflexivity.
Qed.

(** A rounding below a number of the format is zero or finite. *)
Lemma rounded_finite (y : num) (s : bool) (x : Q) (mc : positive) (ec : Z) :
  rounded y s x -> bounded prec emax mc ec = true -> (x <= F2Q (Zpos mc) ec)%Q ->
  y = S754_zero s \/
  exists m e, y = S754_finite s m e /\ bounded prec emax m e = true /\
    (F2Q (Zpos m) e <= F2Q (Zpos mc) ec)%Q.
Proof.
  intros (Hs & _ & Hle) Bc Hx. specialize (Hle mc ec Bc Hx).
  destruct Hs as [-> | [-> | (m & e & -> & B)]].
  - left. reflexivity.
  - discriminate Hle.
  - right. exists m, e. split; [reflexivity|]. split; [exact B|].
    cbn [SFabs] in Hle. apply SFleb_F2Q in Hle; assumption.
Qed.

Lemma rounded_above (y : num) (s : bool) (x : Q) (mc : positive) (ec : Z)
  (m : positive) (e : Z) :
  rounded y s x -> y = S754_finite s m e -> bounded prec emax m e = true ->
  bounded prec emax mc ec = true -> (F2Q (Zpos mc) ec <= x)%Q ->
  (F2Q (Zpos mc) ec <= F2Q (Zpos m) e)%Q.
Proof.
  intros (_ & Hge & _) -> B Bc Hx. specialize (Hge mc ec Bc Hx).
  cbn [SFabs] in Hge. apply SFleb_F2Q in Hge; assumption.
Qed.

(** The multiples of [2^g] around a positive value. *)
Lemma grid_above (m : positive) (e g : Z) :
  exists K, 0 < K /\
    (F2Q (Zpos m) e <= F2Q K g)%Q /\ (F2Q (K - 1) g < F2Q (Zpos m) e)%Q.
Proof.
  destruct (Z.leb_spec g e) as [C|C].
  - exists (Zpos m * 2 ^ (e - g)).
    assert (P : 0 < 2 ^ (e - g)) by (apply Z.pow_pos_nonneg; lia).
    assert (E : (F2Q (Zpos m * 2 ^ (e - g)) g == F2Q (Zpos m) e)%Q).
    { rewrite F2Q_scale by lia. replace (g + (e - g)) with e by lia. reflexivity. }
    split; [nia|]. split; [rewrite E; apply Qle_refl|].
    rewrite <- E. apply F2Q_lt. lia.
  - set (d := 2 ^ (g - e)).
    assert (P : 0 < d) by (apply Z.pow_pos_nonneg; lia).
    set (K := (Zpos m + d - 1) / d).
    assert (HK1 : Zpos m <= K * d).
    { unfold K. pose proof (Z.mul_div_le (Zpos m + d - 1) d P).
      pose proof (Z.mod_pos_bound (Zpos m + d - 1) d P).
      pose proof (Z.div_mod (Zpos m + d - 1) d ltac:(lia)). nia. }
    assert (HK2 : (K - 1) * d < Zpos m).
    { unfold K. pose proof (Z.mul_div_le (Zpos m + d - 1) d P). nia. }
    assert (E : forall k, (F2Q (k * d) e == F2Q k g)%Q).
    { intros k. unfold d. rewrite F2Q_scale by lia.
      replace (e + (g - e)) with g by lia. reflexivity. }
    exists K. split; [nia|]. split.
    + rewrite <- E. apply F2Q_le. exact HK1.
    + rewrite <- E. apply F2Q_lt. exact HK2.
Qed.

(** [toFixed] rounds half up: a value below [B + 1/2] prints at most
    [B]. *)
Lemma decimalOf_half (m : positive) (e digits B : Z) : 0 <= digits ->
  (2 * (F2Q (Zpos m) e * inject_Z (10 ^ digits)) < inject_Z (2 * B + 1))%Q ->
  decimalOf m e digits <= B.
Proof.
  intros Hd H. unfold decimalOf, F2Q in *.
  assert (P : 0 < 10 ^ digits) by (apply Z.pow_pos_nonneg; lia).
  destruct (Z.leb_spec 0 e) as [C|C].
  - rewrite <- pow2_inject, <- !inject_Z_mult in H by lia.
    change 2%Q with (inject_Z 2) in H. rewrite <- inject_Z_mult, <- Zlt_Qlt in H. lia.
  - assert (P2 : 0 < 2 ^ (- e)) by (apply Z.pow_pos_nonneg; lia).
    assert (H' : 2 * (Zpos m * 10 ^ digits) < (2 * B + 1) * 2 ^ (- e)).
    { rewrite Zlt_Qlt, !inject_Z_mult, pow2_inject by lia.
      pose proof (pow2_pos e) as Pe. pose proof (pow2_pos (- e)) as Pn.
      assert (E : (2 ^ e * 2 ^ (- e) == 1)%Q).
      { rewrite <- pow2_add. replace (e + - e) with 0 by lia. reflexivity. }
      assert (H1 : (2 * (inject_Z (Zpos m) * 2 ^ e * inject_Z (10 ^ digits)) * 2 ^ (- e)
                    < inject_Z (2 * B + 1) * 2 ^ (- e))%Q)
        by (apply Qmult_lt_compat_r; [exact Pn|exact H]).
      assert (E2 : (2 * (inject_Z (Zpos m) * 2 ^ e * inject_Z (10 ^ digits)) * 2 ^ (- e)
                    == inject_Z 2 * (inject_Z (Zpos m) * inject_Z (10 ^ digits))
                       * (2 ^ e * 2 ^ (- e)))%Q)
        by (change (inject_Z 2) with 2%Q; ring).
      rewrite E2, E in H1. rewrite Qmult_1_r in H1. exact H1. }
    assert (L : (2 * Zpos m * 10 ^ digits + 2 ^ (- e)) / 2 ^ (- e + 1) < B + 1).
    { apply Z.div_lt_upper_bound; [apply Z.pow_pos_nonneg; lia|].
      replace (- e + 1) with (Z.succ (- e)) by lia. rewrite Z.pow_succ_r by lia. nia. }
    lia.
Qed.

Lemma rounded_below (y : num) (s : bool) (x : Q) (mc : positive) (ec : Z)
  (m : positive) (e : Z) :
  rounded y s x -> y = S754_finite s m e -> bounded prec emax m e = true ->
  bounded prec emax mc ec = true -> (x <= F2Q (Zpos mc) ec)%Q ->
  (F2Q (Zpos m) e <= F2Q (Zpos mc) ec)%Q.
Proof.
  intros (_ & _ & Hle) -> B Bc Hx. specialize (Hle mc ec Bc Hx).
  cbn [SFabs] in Hle. apply SFleb_F2Q in Hle; assumption.
Qed.

(** A difference of two finite numbers of the format, of magnitude at
    most that of a number of the format, is zero or finite. *)
Lemma sub_finite (mx : positive) (ex : Z) (my : positive) (ey : Z)
  (mc : positive) (ec : Z) :
  bounded prec emax mc ec = true ->
  (F2Q (Zpos mx) ex - F2Q (Zpos my) ey <= F2Q (Zpos mc) ec)%Q ->
  (F2Q (Zpos my) ey - F2Q (Zpos mx) ex <= F2Q (Zpos mc) ec)%Q ->
  let y := (S754_finite false mx ex - S754_finite false my ey)%js in
  let x := (F2Q (Zpos mx) ex - F2Q (Zpos my) ey)%Q in
  ((0 < x)%Q /\ (y = S754_zero false \/
     exists m e, y = S754_finite false m e /\ bounded prec emax m e = true /\
       rounded y false x)) \/
  ((x < 0)%Q /\ (y = S754_zero true \/
     exists m e, y = S754_finite true m e /\ bounded prec emax m e = true)) \/
  ((x == 0)%Q /\ y = S754_zero false).
Proof.
  intros Bc H1 H2 y x.
  destruct (SFsub_finite false mx ex false my ey) as (S & ez & Heq & HF).
  cbn [SF2Q] in HF. fold x in HF.
  assert (Ey : y = binary_normalize prec emax S ez false) by exact Heq.
  destruct (binary_normalize_rounded S ez false) as (Rp & Rn & Rz).
  destruct (Q_dec 0 x) as [[P|N]|Z].
  - left. split; [exact P|].
    assert (R : rounded y false x).
    { rewrite Ey. apply (rounded_ext _ _ _ _ HF). apply Rp. rewrite HF. exact P. }
    destruct (rounded_finite y false x mc ec R Bc H1) as [E | (m & e & E & B & _)].
    + left. exact E.
    + right. exists m, e. split; [exact E|]. split; [exact B|exact R].
  - right. left. split; [exact N|].
    assert (R : rounded y true (- x)).
    { rewrite Ey. apply (rounded_ext _ _ (- F2Q S ez)); [rewrite HF; reflexivity|].
      apply Rn. rewrite HF. exact N. }
    assert (Hx : (- x <= F2Q (Zpos mc) ec)%Q).
    { unfold x. setoid_replace (- (F2Q (Zpos mx) ex - F2Q (Zpos my) ey))%Q
        with (F2Q (Zpos my) ey - F2Q (Zpos mx) ex)%Q by ring. exact H2. }
    destruct (rounded_finite y true (- x) mc ec R Bc Hx)
      as [E | (m & e & E & B & _)].
    + left. exact E.
    + right. exists m, e. split; [exact E|exact B].
  - right. right. split; [symmetry; exact Z|].
    rewrite Ey. apply Rz. rewrite HF. symmetry. exact Z.
Qed.

(** A profit within the cap prints as at most 10000. *)
Lemma printed_within_cap (y : num) :
  withinCap y -> (toFixed y 2 <=? ColorEngine.MAX_WIN_CAP)%js = true.
Proof.
  change ColorEngine.MAX_WIN_CAP with (S754_finite false 5497558138880000 (-39)).
  destruct y as [s|s| |[|] m e]; try contradiction; intros W.
  - reflexivity.
  - cbn [toFixed SFabs].
    destruct (lit 1e21 <=? S754_finite false m e)%js; [reflexivity|].
    destruct (if 0 <=? e then _ else _) as [|p|p]; try reflexivity.
    pose proof (SFdiv_rounded true p 0 false (Z.to_pos (10 ^ 2)) 0) as (Hs & _).
    cbn [xorb] in Hs. unfold div.
    destruct Hs as [-> | [-> | (md & ed & -> & _)]]; reflexivity.
  - destruct W as [B Hle].
    assert (E2 : (F2Q 10240001 (-10) * 1024 == 10240001)%Q) by Qconcrete.
    assert (H21 : le (lit 1e21) (S754_finite false m e) = false).
    { destruct (le (lit 1e21) (S754_finite false m e)) eqn:C; [|reflexivity].
      change (lit 1e21) with (S754_finite false 7629394531250000 17) in C.
      apply SFleb_F2Q in C; [|reflexivity|exact B].
      assert (10001 < F2Q 7629394531250000 17)%Q by Qconcrete. lra. }
    assert (Hn : decimalOf m e 2 <= 1000000).
    { apply decimalOf_half; [lia|]. change (inject_Z (10 ^ 2)) with 100%Q.
      change (inject_Z (2 * 1000000 + 1)) with 2000001%Q. lra. }
    destruct (Z_lt_le_dec 0 (decimalOf m e 2)) as [P|NP].
    + destruct (toFixed_rounded false m e 2 ltac:(lia) H21 P) as (Hs & _ & Hl).
      change (inject_Z (10 ^ 2)) with 100%Q in Hl.
      specialize (Hl 5497558138880000%positive (-39) eq_refl).
      assert (E4 : (F2Q 5497558138880000 (-39) == 10000)%Q) by Qconcrete.
      assert (Q2 : (inject_Z (decimalOf m e 2) <= 1000000)%Q)
        by (change 1000000%Q with (inject_Z 1000000); rewrite <- Zle_Qle; exact Hn).
      assert (G : (inject_Z (decimalOf m e 2) / 100 <= F2Q 5497558138880000 (-39))%Q).
      { rewrite E4. apply Qle_shift_div_r; [reflexivity|]. lra. }
      specialize (Hl G). unfold le.
      destruct Hs as [E | [E | (mb & eb & E & Bb)]]; rewrite E in Hl |- *;
        try discriminate; try reflexivity.
      exact Hl.
    + rewrite (toFixed_finite false m e 2 H21).
      destruct (decimalOf m e 2) as [|p|p]; [reflexivity|lia|reflexivity].
Qed.


Lemma ge_one_exponent (m : positive) (e : Z) :
  bounded prec emax m e = true -> (1 <= F2Q (Zpos m) e)%Q ->
  -52 <= e /\ Zdigits2 (Zpos m) = 53.
Proof.
  intros B H. pose proof (proj1 (bounded_spec m e) B) as (Hd & He & Hc).
  pose proof (proj2 (F2Q_mag (Zpos m) e ltac:(lia))) as U.
  assert (L : 0 < Zdigits2 (Zpos m) + e).
  { apply pow2_lt_inv. change (2 ^ 0)%Q with 1%Q. lra. }
  split; [lia|]. destruct Hc as [Hc | Hc]; [exact Hc|lia].
Qed.

Lemma half_bounded (m : positive) (e : Z) :
  bounded prec emax m e = true -> (1 <= F2Q (Zpos m) e)%Q ->
  bounded prec emax m (e - 1) = true /\ (F2Q (Zpos m) (e - 1) * 2 == F2Q (Zpos m) e)%Q.
Proof.
  intros B H. destruct (ge_one_exponent m e B H) as [He Hd].
  pose proof (proj1 (bounded_spec m e) B) as (_ & Hr & _).
  split.
  - apply bounded_spec. split; [lia|]. split; [lia|]. left. exact Hd.
  - unfold F2Q. replace e with ((e - 1) + 1) at 2 by lia. rewrite pow2_add.
    change (2 ^ 1)%Q with 2%Q. ring.
Qed.

(** The profit of a capped payout, [(amount + 10000) - amount], before
    it is printed. *)
Lemma capped_profit_within_cap (ma : positive) (ea : Z) :
  bounded prec emax ma ea = true ->
  (1 <= F2Q (Zpos ma) ea)%Q -> (F2Q (Zpos ma) ea <= 100000)%Q ->
  withinCap ((S754_finite false ma ea + ColorEngine.MAX_WIN_CAP)
             - S754_finite false ma ea)%js.
Proof.
  intros Ba A1 A2.
  change ColorEngine.MAX_WIN_CAP with (S754_finite false 5497558138880000 (-39)).
  assert (EC : (F2Q 5497558138880000 (-39) == 10000)%Q) by Qconcrete.
  (* the sum *)
  destruct (SFadd_finite false ma ea false 5497558138880000 (-39)) as (S & ez & Heq & HF).
  cbn [SF2Q] in HF. rewrite EC in HF.
  fold (add (S754_finite false ma ea) (S754_finite false 5497558138880000 (-39))) in Heq.
  destruct (binary_normalize_rounded S ez false) as (Rp & _ & _).
  assert (RT : rounded (S754_finite false ma ea + S754_finite false 5497558138880000 (-39))%js
                 false (F2Q (Zpos ma) ea + 10000)).
  { rewrite Heq. apply (rounded_ext _ _ _ _ HF). apply Rp. rewrite HF. lra. }
  (* a number of the format just above the exact sum *)
  destruct (grid_above ma ea (-10)) as (K & HK0 & HK1 & HK2).
  assert (E1 : (F2Q 1 (-10) * 1024 == 1)%Q) by Qconcrete.
  assert (EK : (F2Q (K - 1) (-10) == F2Q K (-10) - F2Q 1 (-10))%Q).
  { unfold F2Q, Z.sub. rewrite inject_Z_plus, inject_Z_opp. ring. }
  assert (Ek : (F2Q (K + 10240000) (-10) == F2Q K (-10) + 10000)%Q).
  { rewrite F2Q_add. assert (F2Q 10240000 (-10) == 10000)%Q by Qconcrete. lra. }
  assert (HKu : K < 102400001).
  { assert (F2Q (K - 1) (-10) < F2Q 102400000 (-10))%Q.
    { assert (F2Q 102400000 (-10) == 100000)%Q by Qconcrete. lra. }
    apply F2Q_lt in H. lia. }
  destruct (scaled_bounded (K + 10240000) (-10)) as (mu & eu & Bu & Eu).
  { change (2 ^ 53) with 9007199254740992. lia. }
  { lia. }
  destruct (rounded_between _ _ _ ma ea mu eu RT Ba Bu) as (mt & et & Et & Bt & Ht1 & Ht2).
  { lra. }
  { rewrite Eu, Ek. lra. }
  rewrite Et. rewrite Eu, Ek in Ht2.
  (* the difference *)
  assert (Bc : bounded prec emax 5497558675750912 (-39) = true) by reflexivity.
  assert (Ec : (F2Q 5497558675750912 (-39) == F2Q 10240001 (-10))%Q) by Qconcrete.
  assert (Ec' : (F2Q 10240001 (-10) * 1024 == 10240001)%Q) by Qconcrete.
  destruct (sub_finite mt et ma ea 5497558675750912 (-39) Bc)
    as [(P & [E | (m & e & E & B & R)]) | [(N & _) | (_ & E)]].
  - rewrite Ec. lra.
  - rewrite Ec. lra.
  - rewrite E. exact I.
  - rewrite E. split; [exact B|]. rewrite <- Ec.
    apply (rounded_below _ _ _ 5497558675750912 (-39) m e R E B Bc).
    rewrite Ec. lra.
  - lra.
  - rewrite E. exact I.
Qed.


(** The profit of a winning wager before it is printed. *)
Lemma win_profit_within_cap (ma : positive) (ea : Z) (mm : positive) (em : Z) :
  bounded prec emax ma ea = true ->
  (1 <= F2Q (Zpos ma) ea)%Q -> (F2Q (Zpos ma) ea <= 100000)%Q ->
  bounded prec emax mm em = true ->
  (1 <= F2Q (Zpos mm) em)%Q -> (F2Q (Zpos mm) em <= 14)%Q ->
  withinCap (ColorEngine.winningPayout (S754_finite false ma ea) (S754_finite false mm em)
             - S754_finite false ma ea)%js.
Proof.
  intros Ba A1 A2 Bm M1 M2. unfold ColorEngine.winningPayout. cbv zeta.
  assert (E1 : (F2Q 4503599627370496 (-52) == 1)%Q) by Qconcrete.
  assert (EU : (F2Q 6012954214400000 (-32) == 1400000)%Q) by Qconcrete.
  (* the base payout *)
  pose proof (SFmul_rounded false ma ea false mm em Ba Bm) as RP. cbn [xorb] in RP.
  fold (mul (S754_finite false ma ea) (S754_finite false mm em)) in RP.
  destruct (rounded_between _ _ _ 4503599627370496 (-52) 6012954214400000 (-32)
              RP eq_refl eq_refl) as (mb & eb & Eb & Bb & Hb1 & Hb2).
  { rewrite E1. apply (Qle_trans _ (1 * F2Q (Zpos mm) em)); [lra|].
    apply Qmult_le_compat_r; lra. }
  { rewrite EU. apply (Qle_trans _ (100000 * F2Q (Zpos mm) em)); [|lra].
    apply Qmult_le_compat_r; lra. }
  rewrite Eb. rewrite E1 in Hb1. rewrite EU in Hb2.
  (* the deduction *)
  change ColorEngine.HOUSE_EDGE with (S754_finite false 7205759403792794 (-57)).
  destruct (half_bounded mb eb Bb Hb1) as [Bh Eh].
  pose proof (SFmul_rounded false mb eb false 7205759403792794 (-57) Bb eq_refl) as RD.
  cbn [xorb] in RD.
  fold (mul (S754_finite false mb eb) (S754_finite false 7205759403792794 (-57))) in RD.
  assert (H0 : (0 < F2Q 7205759403792794 (-57))%Q) by Qconcrete.
  assert (H2 : (F2Q 7205759403792794 (-57) * 2 <= 1)%Q) by Qconcrete.
  destruct (rounded_between _ _ _ 7205759403792794 (-57) mb (eb - 1)
              RD eq_refl Bh) as (md & ed & Ed & Bd & Hd1 & Hd2).
  { apply (Qle_trans _ (1 * F2Q 7205759403792794 (-57))); [lra|].
    apply Qmult_le_compat_r; lra. }
  { apply (Qle_trans _ (F2Q (Zpos mb) eb * (1 # 2))).
    - apply Qmult_le_l; lra.
    - lra. }
  rewrite Ed.
  (* the payout *)
  destruct (SFsub_finite false mb eb false md ed) as (S & ez & Heq & HF).
  cbn [SF2Q] in HF.
  fold (sub (S754_finite false mb eb) (S754_finite false md ed)) in Heq.
  destruct (binary_normalize_rounded S ez false) as (Rp & _ & _).
  assert (RY : rounded (S754_finite false mb eb - S754_finite false md ed)%js false
                 (F2Q (Zpos mb) eb - F2Q (Zpos md) ed)).
  { rewrite Heq. apply (rounded_ext _ _ _ _ HF). apply Rp. rewrite HF. lra. }
  destruct (rounded_between _ _ _ mb (eb - 1) mb eb RY Bh Bb)
    as (mp & ep & Ep & Bp & Hp1 & Hp2); [lra|lra|].
  rewrite Ep.
  (* the test of the cap *)
  pose proof (sub_finite mp ep ma ea 6012954214400000 (-32) eq_refl
                ltac:(lra) ltac:(lra)) as Hraw.
  cbv zeta in Hraw.
  destruct (S754_finite false mp ep - S754_finite false ma ea >? ColorEngine.MAX_WIN_CAP)%js
    eqn:G; [apply capped_profit_within_cap; assumption|].
  change ColorEngine.MAX_WIN_CAP with (S754_finite false 5497558138880000 (-39)) in G.
  destruct Hraw as [(_ & [E | (m & e & E & B & _)]) | [(_ & [E | (m & e & E & B)]) | (_ & E)]];
    rewrite E in G |- *; try exact I; try exact B.
  split; [exact B|].
  apply SFltb_false_SFleb in G; [|discriminate|discriminate].
  apply SFleb_F2Q in G; [|exact B|reflexivity].
  assert (F2Q 5497558138880000 (-39) <= F2Q 10240001 (-10))%Q by Qconcrete.
  lra.
Qed.

(** The printed profit of a wager never exceeds [MAX_WIN_CAP]: for every
    stake that is a number of the format other than [NaN] and every
    configured winning colour, a payout that [calculateColorPayout]
    returns has a profit of at most 10000. *)
Theorem profit_never_exceeds_the_cap (color : string) (stake : num)
  (winningColor : string) (w : ColorEngine.Color) (p : ColorEngine.Payout) :
  isNumber stake = true -> stake <> NaN ->
  ColorEngine.lookup winningColor = Some w ->
  ColorEngine.calculateColorPayout (ColorEngine.mkBetData color stake) winningColor = Ok p ->
  (ColorEngine.profit p <=? ColorEngine.MAX_WIN_CAP)%js = true.
Proof.
  intros Hnum Hnan Hw. unfold ColorEngine.calculateColorPayout.
  cbn [ColorEngine.color ColorEngine.amount].
  destruct (stake <? ColorEngine.MIN_BET_AMOUNT)%js eqn:Lo; [discriminate|].
  destruct (stake >? ColorEngine.MAX_BET_AMOUNT)%js eqn:Hi; [discriminate|].
  rewrite Hw.
  intros H; injection H as <-. cbn [ColorEngine.profit].
  apply printed_within_cap.
  change ColorEngine.MIN_BET_AMOUNT with (S754_finite false 4503599627370496 (-52)) in Lo.
  change ColorEngine.MAX_BET_AMOUNT with (S754_finite false 6871947673600000 (-36)) in Hi.
  apply SFltb_false_SFleb in Lo; [|exact Hnan|discriminate].
  apply SFltb_false_SFleb in Hi; [|discriminate|exact Hnan].
  destruct (between_finite stake 4503599627370496 (-52) 6871947673600000 (-36)
              Hnum eq_refl eq_refl Lo Hi) as (ma & ea & -> & Ba & A1 & A2).
  assert (E1 : (F2Q 4503599627370496 (-52) == 1)%Q) by Qconcrete.
  assert (E5 : (F2Q 6871947673600000 (-36) == 100000)%Q) by Qconcrete.
  rewrite E1 in A1. rewrite E5 in A2.
  destruct (String.eqb color winningColor); [|exact Ba].
  destruct w.
  - change (ColorEngine.payoutMultiplier (ColorEngine.COLOR_PROPERTIES ColorEngine.red))
      with (S754_finite false 4503599627370496 (-51)).
    apply win_profit_within_cap; try assumption; try reflexivity; Qconcrete.
  - change (ColorEngine.payoutMultiplier (ColorEngine.COLOR_PROPERTIES ColorEngine.green))
      with (S754_finite false 6755399441055744 (-51)).
    apply win_profit_within_cap; try assumption; try reflexivity; Qconcrete.
  - change (ColorEngine.payoutMultiplier (ColorEngine.COLOR_PROPERTIES ColorEngine.violet))
      with (S754_finite false 7881299347898368 (-49)).
    apply win_profit_within_cap; try assumption; try reflexivity; Qconcrete.
Qed.

Lemma profit_never_exceeds_the_cap_witness :
  exists p,
    ColorEngine.lookup "violet" = Some ColorEngine.violet /\
    ColorEngine.calculateColorPayout (ColorEngine.mkBetData "violet" (lit 5000)) "violet"
    = Ok p /\
    ColorEngine.profit p = lit 10000 /\
    (ColorEngine.profit p <=? ColorEngine.MAX_WIN_CAP)%js = true.
Proof.
  eexists. split; [reflexivity|].
  split; [vm_compute; reflexivity|]. split; [vm_compute; reflexivity|].
  apply (profit_never_exceeds_the_cap "violet" (lit 5000) "violet" ColorEngine.violet).
  - reflexivity.
  - discriminate.
  - reflexivity.
  - vm_compute. reflexivity.
Defined.


(** ** The profit of a cash-out *)

Lemma signed_false_nonneg (y : num) : signed false y -> (lit 0 <=? y)%js = true.
Proof. intros [-> | [-> | (m & e & -> & _)]]; reflexivity. Qed.

Lemma signed_true_le (y : num) (m : positive) (e : Z) :
  signed true y -> (y <=? S754_finite false m e)%js = true.
Proof. intros [-> | [-> | (my & ey & -> & _)]]; reflexivity. Qed.

(** A number that is not negative prints as one. *)
Lemma toFixed_nonneg (y : num) (digits : Z) :
  signed false y -> (lit 0 <=? toFixed y digits)%js = true.
Proof.
  intros [-> | [-> | (m & e & -> & _)]]; try reflexivity.
  cbn [toFixed SFabs].
  destruct (lit 1e21 <=? S754_finite false m e)%js; [reflexivity|].
  destruct (if 0 <=? e then _ else _) as [|p|p]; try reflexivity.
  pose proof (SFdiv_rounded false p 0 false (Z.to_pos (10 ^ digits)) 0) as (Hs & _).
  cbn [xorb] in Hs. apply signed_false_nonneg. exact Hs.
Qed.

(** Cashing out a positive, finite bet at a multiplier of at least 1
    never yields a negative profit. *)
Theorem cashout_profit_is_not_negative (betAmount cashoutMultiplier : num) :
  isNumber betAmount = true -> isNumber cashoutMultiplier = true ->
  (lit 0 <? betAmount)%js = true -> (betAmount <? Infinity)%js = true ->
  (lit 1 <=? cashoutMultiplier)%js = true ->
  (lit 0 <=? Engine.calculateProfit betAmount cashoutMultiplier)%js = true.
Proof.
  intros Vb Vm Pb Fb Pm. unfold Engine.calculateProfit. cbv zeta.
  apply toFixed_nonneg.
  destruct betAmount as [[|]|[|]| |[|] mb eb]; try discriminate.
  destruct cashoutMultiplier as [[|]|[|]| |[|] mm em]; try discriminate.
  - right. left. reflexivity.
  - assert (Bb : bounded prec emax mb eb = true) by exact Vb.
    assert (Bm : bounded prec emax mm em = true) by exact Vm.
    change (lit 1) with (S754_finite false 4503599627370496 (-52)) in Pm.
    apply SFleb_F2Q in Pm; [|reflexivity|exact Bm].
    assert (E1 : (F2Q 4503599627370496 (-52) == 1)%Q) by Qconcrete.
    rewrite E1 in Pm.
    pose proof (F2Q_pos (Zpos mb) eb ltac:(lia)) as P0.
    pose proof (SFmul_rounded false mb eb false mm em Bb Bm) as (Hs & Hge & _).
    cbn [xorb] in Hs, Hge.
    fold (mul (S754_finite false mb eb) (S754_finite false mm em)) in Hs, Hge.
    specialize (Hge mb eb Bb).
    assert (G : (F2Q (Zpos mb) eb <= F2Q (Zpos mb) eb * F2Q (Zpos mm) em)%Q).
    { rewrite <- (Qmult_1_r (F2Q (Zpos mb) eb)) at 1. apply Qmult_le_l; assumption. }
    specialize (Hge G).
    destruct Hs as [E | [E | (mp & ep & E & Bp)]]; rewrite E in Hge |- *.
    + discriminate Hge.
    + right. left. reflexivity.
    + cbn [SFabs] in Hge. apply SFleb_F2Q in Hge; [|exact Bb|exact Bp].
      destruct (SFsub_finite false mp ep false mb eb) as (S & ez & Heq & HF).
      cbn [SF2Q] in HF. unfold sub. rewrite Heq.
      destruct (binary_normalize_rounded S ez false) as (Rp & _ & Rz).
      destruct (Q_dec 0 (F2Q S ez)) as [[P|N]|Z].
      * exact (rounded_signed _ _ _ (Rp P)).
      * rewrite HF in N. lra.
      * left. apply Rz. symmetry. exact Z.
Qed.

Lemma cashout_profit_is_not_negative_witness :
  (lit 0 <=? Engine.calculateProfit (lit 100) (lit 2.5))%js = true.
Proof.
  apply (cashout_profit_is_not_negative (lit 100) (lit 2.5)); reflexivity.
Defined.


(** ** The duration of a game *)

Lemma signed_isNumber (s : bool) (y : num) : signed s y -> isNumber y = true.
Proof. intros [-> | [-> | (m & e & -> & B)]]; [reflexivity|reflexivity|exact B]. Qed.

(** Products and sums of numbers of the format are numbers of the
    format. *)
Lemma mul_isNumber (x y : num) :
  isNumber x = true -> isNumber y = true -> isNumber (x * y)%js = true.
Proof.
  intros Hx Hy.
  destruct x as [sx|sx| |sx mx ex], y as [sy|sy| |sy my ey]; try reflexivity.
  exact (signed_isNumber _ _ (rounded_signed _ _ _ (SFmul_rounded sx mx ex sy my ey Hx Hy))).
Qed.

Lemma add_isNumber (x y : num) :
  isNumber x = true -> isNumber y = true -> isNumber (x + y)%js = true.
Proof.
  intros Hx Hy.
  destruct x as [sx|sx| |sx mx ex], y as [sy|sy| |sy my ey];
    try reflexivity; try assumption;
    try (destruct sx, sy; reflexivity).
  destruct (SFadd_finite sx mx ex sy my ey) as (S & ez & Heq & _).
  unfold add. rewrite Heq.
  destruct (binary_normalize_rounded S ez false) as (Rp & Rn & Rz).
  destruct (Q_dec 0 (F2Q S ez)) as [[P|N]|Z].
  - exact (signed_isNumber _ _ (rounded_signed _ _ _ (Rp P))).
  - exact (signed_isNumber _ _ (rounded_signed _ _ _ (Rn N))).
  - rewrite (Rz ltac:(symmetry; exact Z)). reflexivity.
Qed.

(** [Math.round] of a number that is at most 60000 is at most 60000. *)
Lemma Math_round_le (y : num) :
  isNumber y = true -> (y <=? Engine.MAX_GAME_DURATION)%js = true ->
  (Math_round y <=? Engine.MAX_GAME_DURATION)%js = true.
Proof.
  change Engine.MAX_GAME_DURATION with (S754_finite false 8246337208320000 (-37)).
  intros V H. destruct y as [s|s| |s m e]; try exact H.
  cbn [Math_round]. destruct (Z.leb_spec 0 e) as [C|C]; [exact H|].
  set (d := 2 ^ (- e)).
  assert (P : 0 < d) by (apply Z.pow_pos_nonneg; lia).
  assert (E2 : 2 ^ (- e + 1) = 2 * d).
  { unfold d. replace (- e + 1) with (Z.succ (- e)) by lia. apply Z.pow_succ_r. lia. }
  rewrite E2.
  destruct s.
  - (* a negative number *)
    assert (Q : (2 * Zneg m + d) / (2 * d) <= 0).
    { assert ((2 * Zneg m + d) / (2 * d) < 1); [|lia].
      apply Z.div_lt_upper_bound; lia. }
    destruct (Z.eqb_spec ((2 * Zneg m + d) / (2 * d)) 0) as [_|NZ]; [reflexivity|].
    destruct ((2 * Zneg m + d) / (2 * d)) as [|q|q]; try lia.
    apply signed_true_le. apply (rounded_signed _ _ (F2Q (Zpos q) 0)).
    apply binary_normalize_neg.
  - (* a positive number *)
    assert (B : bounded prec emax m e = true) by exact V.
    apply SFleb_F2Q in H; [|exact B|reflexivity].
    assert (E6 : (F2Q 8246337208320000 (-37) == F2Q (60000 * d) e)%Q).
    { unfold d. rewrite (F2Q_scale 60000 e (- e)) by lia.
      replace (e + - e) with 0 by lia. rewrite F2Q_int. Qconcrete. }
    rewrite E6 in H. apply F2Q_le in H.
    assert (Q : 0 <= (2 * Zpos m + d) / (2 * d) <= 60000).
    { split; [apply Z.div_pos; lia|].
      assert ((2 * Zpos m + d) / (2 * d) < 60001); [|lia].
      apply Z.div_lt_upper_bound; lia. }
    destruct (Z.eqb_spec ((2 * Zpos m + d) / (2 * d)) 0) as [_|NZ]; [reflexivity|].
    set (q := (2 * Zpos m + d) / (2 * d)) in *.
    destruct (int_bounded q) as (mq & eq & Bq & Eq & _).
    { change (2 ^ 53) with 9007199254740992. lia. }
    rewrite (of_Z_exact q mq eq ltac:(lia) Bq Eq).
    apply SFleb_F2Q; [exact Bq|reflexivity|].
    assert (E60 : (F2Q 8246337208320000 (-37) == inject_Z 60000)%Q) by Qconcrete.
    rewrite Eq, E60, <- Zle_Qle. lia.
Qed.

(** The duration of a game never exceeds the limit of 60 seconds: for a
    host whose [Math.log] returns numbers of the format, the
    [gameDuration] of a result is [NaN] or at most 60000. *)
Theorem game_duration_is_limited (Math_log Math_exp Math_cos : num -> num)
  (now : Clock) (options : Engine.Options) (g : Engine.GameResult) :
  (forall x, isNumber (Math_log x) = true) ->
  Engine.generateCrashMultiplier Math_log Math_exp Math_cos now options = Ok g ->
  Engine.gameDuration g <> NaN ->
  (Engine.gameDuration g <=? lit 60000)%js = true.
Proof.
  intros Hlog Hg. destruct (generate_fields _ _ _ _ _ _ Hg) as (_ & _ & _ & Hd & _).
  rewrite Hd. unfold Engine.calculateGameDuration. cbv zeta.
  set (raw := Engine.rawMultiplier Math_log Math_exp Math_cos now options).
  set (duration := (Math_log raw * lit 5000 * (lit 0.8 + Math_log (raw + lit 1) * lit 0.2))%js).
  assert (V : isNumber duration = true).
  { unfold duration.
    apply mul_isNumber; [apply mul_isNumber; [apply Hlog|reflexivity]|].
    apply add_isNumber; [reflexivity|].
    apply mul_isNumber; [apply Hlog|reflexivity]. }
  intros Hnan.
  assert (Hmin : Math_min duration Engine.MAX_GAME_DURATION <> NaN).
  { intros E. apply Hnan. rewrite E. reflexivity. }
  destruct (Math_min_spec _ _ Hmin) as [Hle [E | [E _]]].
  - rewrite E. reflexivity.
  - apply Math_round_le; [rewrite E; exact V|exact Hle].
Qed.

Lemma checked_isNumber (f : num -> num) (x : num) : isNumber (checked f x) = true.
Proof. unfold checked. destruct (isNumber (f x)) eqn:E; [exact E|reflexivity]. Qed.

Lemma game_duration_is_limited_witness :
  exists g,
    Engine.generateCrashMultiplier (checked RefMath.log) RefMath.exp RefMath.cos 0
      (r1_options (lit 0.8) (Some (lit 14))) = Ok g /\
    Engine.gameDuration g = lit 22776 /\
    (Engine.gameDuration g <=? lit 60000)%js = true.
Proof.
  destruct (generate_returns (checked RefMath.log) RefMath.exp RefMath.cos 0
              (r1_options (lit 0.8) (Some (lit 14))))
    as [g Hg]; [vm_compute; reflexivity ..|].
  assert (Hd : Engine.gameDuration g = lit 22776).
  { destruct (generate_fields _ _ _ _ _ _ Hg) as (_ & _ & _ & Hd & _).
    rewrite Hd. vm_compute. reflexivity. }
  exists g. split; [exact Hg|]. split; [exact Hd|].
  apply (game_duration_is_limited (checked RefMath.log) RefMath.exp RefMath.cos 0
           (r1_options (lit 0.8) (Some (lit 14))) g (checked_isNumber RefMath.log) Hg).
  rewrite Hd. discriminate.
Defined.
